(** * ts-mcp-sse-proxy: session lifecycle, relay and admission control

    A shallow embedding of [src/index.ts], [src/config/index.ts],
    [src/middleware/index.ts] and [src/utils/rate-limiter.ts].

    Stateful code is written in a small state-and-exception monad over the
    record [Proxy]; everything the program does to the outside world
    (signals, timers, spawned processes, messages sent over a stream, log
    calls, registry mutations) is appended to [trace] in program order. *)

From Stdlib Require Import ZArith NArith List Bool Lia Ascii String.
From stdpp Require Import base option gmap strings list fin_maps.

Open Scope Z_scope.

(* ===================================================================== *)
(** * Part I. Definitions                                                 *)
(* ===================================================================== *)

(** ** Strings

    Header names, commands, session ids and URLs are ASCII text and are kept
    as [string]; on such text [toUpperCase] and [toLowerCase] act letter
    by letter.  Worker output is decoded text and may hold any UTF-16 code
    unit; it is kept as [jsstring]. *)

Definition ascii_toUpper (c : ascii) : ascii :=
  let n := N_of_ascii c in
  if ((97 <=? n) && (n <=? 122))%N then ascii_of_N (n - 32) else c.

Definition ascii_toLower (c : ascii) : ascii :=
  let n := N_of_ascii c in
  if ((65 <=? n) && (n <=? 90))%N then ascii_of_N (n + 32) else c.

Fixpoint map_string (f : ascii -> ascii) (s : string) : string :=
  match s with
  | EmptyString => EmptyString
  | String c s' => String (f c) (map_string f s')
  end.

Definition toUpperCase : string -> string := map_string ascii_toUpper.
Definition toLowerCase : string -> string := map_string ascii_toLower.

(** [s.startsWith(p)], [s.endsWith(p)], [s.substring(n)], [s.includes(c)] *)
Definition startsWith (s p : string) : bool := String.prefix p s.

Fixpoint substring_from (n : nat) (s : string) : string :=
  match n, s with
  | O, _ => s
  | S n', String _ s' => substring_from n' s'
  | S _, EmptyString => EmptyString
  end.

Definition endsWith (s p : string) : bool :=
  (String.length p <=? String.length s)%nat &&
  String.eqb (substring_from (String.length s - String.length p) s) p.

Fixpoint includes (c : ascii) (s : string) : bool :=
  match s with
  | EmptyString => false
  | String d s' => Ascii.eqb c d || includes c s'
  end.

(** [s.split(sep)] for a one-character separator; the result is never
    empty: a string without the separator is returned whole. *)
Fixpoint split_aux (sep : ascii) (cur s : string) : list string :=
  match s with
  | EmptyString => [cur]
  | String c s' =>
      if Ascii.eqb c sep then cur :: split_aux sep EmptyString s'
      else split_aux sep (cur +:+ String c EmptyString) s'
  end.

Definition split (sep : ascii) (s : string) : list string :=
  split_aux sep EmptyString s.

(** A JavaScript string as its UTF-16 code units. *)
Definition jsstring : Type := list N.

Definition units_of_string (s : string) : jsstring :=
  map N_of_ascii (list_ascii_of_string s).

(** ** [Buffer.prototype.toString("utf8")]

    Node decodes each buffer on its own, with the replacement character
    U+FFFD for every ill-formed or truncated sequence (the decoder of the
    Encoding Standard: a lead byte sets how many continuation bytes are
    needed and the range allowed for the next one). *)

Record Utf8State := mkUtf8 {
  u_cp : N;        (* code point being assembled *)
  u_seen : N;      (* continuation bytes read so far *)
  u_needed : N;    (* continuation bytes the lead byte asks for *)
  u_lower : N;     (* range allowed for the next byte *)
  u_upper : N;
}.

Definition utf8_idle : Utf8State := mkUtf8 0 0 0 0x80 0xBF.

Definition REPLACEMENT : N := 0xFFFD.

Inductive LeadResult :=
| LeadEmit (cp : N)
| LeadPending (st : Utf8State).

Definition utf8_lead (b : N) : LeadResult :=
  (if b <=? 0x7F then LeadEmit b
   else if (0xC2 <=? b) && (b <=? 0xDF) then
     LeadPending (mkUtf8 (N.land b 0x1F) 0 1 0x80 0xBF)
   else if (0xE0 <=? b) && (b <=? 0xEF) then
     LeadPending (mkUtf8 (N.land b 0xF) 0 2
                    (if b =? 0xE0 then 0xA0 else 0x80)
                    (if b =? 0xED then 0x9F else 0xBF))
   else if (0xF0 <=? b) && (b <=? 0xF4) then
     LeadPending (mkUtf8 (N.land b 0x7) 0 3
                    (if b =? 0xF0 then 0x90 else 0x80)
                    (if b =? 0xF4 then 0x8F else 0xBF))
   else LeadEmit REPLACEMENT)%N.

(** One entry per decoded code point, [None] where the input is ill-formed. *)
Fixpoint utf8_scan (st : Utf8State) (bs : list N) : list (option N) :=
  match bs with
  | [] => if (u_needed st =? 0)%N then [] else [None]
  | b :: bs' =>
      if (u_needed st =? 0)%N then
        match utf8_lead b with
        | LeadEmit cp => (if (cp =? REPLACEMENT)%N then None else Some cp) :: utf8_scan utf8_idle bs'
        | LeadPending st' => utf8_scan st' bs'
        end
      else if ((u_lower st <=? b) && (b <=? u_upper st))%N then
        let cp := N.lor (N.shiftl (u_cp st) 6) (N.land b 0x3F) in
        if (u_seen st + 1 =? u_needed st)%N then Some cp :: utf8_scan utf8_idle bs'
        else utf8_scan (mkUtf8 cp (u_seen st + 1) (u_needed st) 0x80 0xBF) bs'
      else
        (* the truncated sequence is an error, the byte is read again *)
        None ::
        match utf8_lead b with
        | LeadEmit cp => (if (cp =? REPLACEMENT)%N then None else Some cp) :: utf8_scan utf8_idle bs'
        | LeadPending st' => utf8_scan st' bs'
        end
  end.

(** Decoding with replacement. *)
Definition utf8_decode (bs : list N) : list N :=
  map (fun o => match o with Some cp => cp | None => REPLACEMENT end) (utf8_scan utf8_idle bs).

(** Decoding that fails on ill-formed input. *)
Definition utf8_well_formed (bs : list N) : bool :=
  forallb (fun o => match o with Some _ => true | None => false end) (utf8_scan utf8_idle bs).

Definition utf16_units (cp : N) : jsstring :=
  (if cp <? 0x10000 then [cp]
   else [0xD800 + N.shiftr (cp - 0x10000) 10; 0xDC00 + N.land (cp - 0x10000) 0x3FF])%N.

Definition Buffer_toString_utf8 (chunk : list Byte.byte) : jsstring :=
  flat_map utf16_units (utf8_decode (map Byte.to_N chunk)).

(** ** Lines: [buffer.split(/\r?\n/)] and [line.trim()] *)

Definition LF : N := 10.
Definition CR : N := 13.

(** The regular expression is tried at each position from left to right:
    at a CR followed by LF both are consumed, at an LF it alone.  [cur]
    is the piece read since the last match. *)
Fixpoint split_crlf_aux (cur s : jsstring) : list jsstring :=
  match s with
  | [] => [cur]
  | c :: rest =>
      if (c =? LF)%N then cur :: split_crlf_aux [] rest
      else if (c =? CR)%N then
        match rest with
        | d :: rest' =>
            if (d =? LF)%N then cur :: split_crlf_aux [] rest'
            else split_crlf_aux (cur ++ [c]) rest
        | [] => split_crlf_aux (cur ++ [c]) rest
        end
      else split_crlf_aux (cur ++ [c]) rest
  end.

Definition split_crlf (s : jsstring) : list jsstring := split_crlf_aux [] s.

(** White space and line terminators removed by [String.prototype.trim]. *)
Definition is_js_space (c : N) : bool :=
  ((9 <=? c) && (c <=? 13) || (c =? 32) || (c =? 0xA0) || (c =? 0x1680)
   || (0x2000 <=? c) && (c <=? 0x200A) || (c =? 0x2028) || (c =? 0x2029)
   || (c =? 0x202F) || (c =? 0x205F) || (c =? 0x3000) || (c =? 0xFEFF))%N.

(** [!line.trim()] *)
Definition is_blank (line : jsstring) : bool := forallb is_js_space line.

(** ** [JSON.parse]

    The grammar of ECMA-404 as a recursive-descent parser over code units.
    [None] stands for the [SyntaxError] that [JSON.parse] throws.  A number
    is kept as its lexeme; a duplicated key is simply kept twice. *)

#[warnings="-register-all"]
Inductive json :=
| JNull
| JBool (b : bool)
| JNumber (lexeme : jsstring)
| JString (s : jsstring)
| JArray (items : list json)
| JObject (members : list (jsstring * json)).

Definition is_json_ws (c : N) : bool :=
  ((c =? 32) || (c =? 9) || (c =? 10) || (c =? 13))%N.

Fixpoint skip_ws (s : jsstring) : jsstring :=
  match s with
  | c :: s' => if is_json_ws c then skip_ws s' else s
  | [] => []
  end.

Fixpoint expect (lit s : jsstring) : option jsstring :=
  match lit with
  | [] => Some s
  | l :: lit' =>
      match s with
      | c :: s' => if (c =? l)%N then expect lit' s' else None
      | [] => None
      end
  end.

Definition is_digit (c : N) : bool := ((48 <=? c) && (c <=? 57))%N.

Definition hex_digit (c : N) : option N :=
  (if (48 <=? c) && (c <=? 57) then Some (c - 48)
   else if (65 <=? c) && (c <=? 70) then Some (c - 55)
   else if (97 <=? c) && (c <=? 102) then Some (c - 87)
   else None)%N.

(** The character after a backslash, other than [u]. *)
Definition unescape (e : N) : option N :=
  (if e =? 34 then Some 34          (* quotation mark *)
   else if e =? 92 then Some 92     (* reverse solidus *)
   else if e =? 47 then Some 47     (* solidus *)
   else if e =? 98 then Some 8      (* b: backspace *)
   else if e =? 102 then Some 12    (* f: form feed *)
   else if e =? 110 then Some 10    (* n: line feed *)
   else if e =? 114 then Some 13    (* r: carriage return *)
   else if e =? 116 then Some 9     (* t: tab *)
   else None)%N.

(** The characters of a string literal after its opening quote. *)
Fixpoint parse_string_chars (acc s : jsstring) : option (jsstring * jsstring) :=
  match s with
  | [] => None
  | c :: s1 =>
      if (c =? 34)%N then Some (rev acc, s1)
      else if (c =? 92)%N then
        match s1 with
        | [] => None
        | e :: s2 =>
            if (e =? 117)%N then
              match s2 with
              | h1 :: h2 :: h3 :: h4 :: s3 =>
                  match hex_digit h1, hex_digit h2, hex_digit h3, hex_digit h4 with
                  | Some a, Some b, Some c', Some d =>
                      parse_string_chars ((((a * 16 + b) * 16 + c') * 16 + d)%N :: acc) s3
                  | _, _, _, _ => None
                  end
              | _ => None
              end
            else
              match unescape e with
              | Some ch => parse_string_chars (ch :: acc) s2
              | None => None
              end
        end
      else if (c <? 32)%N then None
      else parse_string_chars (c :: acc) s1
  end.

Fixpoint span_digits (s : jsstring) : jsstring * jsstring :=
  match s with
  | c :: s' =>
      if is_digit c then let '(ds, r) := span_digits s' in (c :: ds, r)
      else ([], s)
  | [] => ([], [])
  end.

(** An optional minus sign; an integer part, either a single 0 or a
    non-zero digit followed by digits; an optional fraction, a point and
    at least one digit; an optional exponent, e or E, an optional sign and
    at least one digit. *)
Definition parse_number (s : jsstring) : option (jsstring * jsstring) :=
  let '(sign, s1) :=
    match s with
    | c :: r => if (c =? 45)%N then ([c], r) else ([], s)
    | [] => ([], s)
    end in
  match s1 with
  | [] => None
  | c :: r =>
      let int_part :=
        if (c =? 48)%N then Some ([c], r)
        else if is_digit c then let '(ds, r') := span_digits r in Some (c :: ds, r')
        else None in
      match int_part with
      | None => None
      | Some (ip, s2) =>
          let frac_part :=
            match s2 with
            | d :: r2 =>
                if (d =? 46)%N then
                  match span_digits r2 with
                  | ([], _) => None
                  | (ds, r3) => Some (d :: ds, r3)
                  end
                else Some ([], s2)
            | [] => Some ([], s2)
            end in
          match frac_part with
          | None => None
          | Some (fp, s3) =>
              let exp_part :=
                match s3 with
                | e :: r3 =>
                    if ((e =? 101) || (e =? 69))%N then
                      let '(sg, r4) :=
                        match r3 with
                        | g :: r4 => if ((g =? 43) || (g =? 45))%N then ([g], r4) else ([], r3)
                        | [] => ([], r3)
                        end in
                      match span_digits r4 with
                      | ([], _) => None
                      | (ds, r5) => Some (e :: sg ++ ds, r5)
                      end
                    else Some ([], s3)
                | [] => Some ([], s3)
                end in
              match exp_part with
              | None => None
              | Some (ep, s4) => Some (sign ++ ip ++ fp ++ ep, s4)
              end
          end
      end
  end.

Fixpoint parse_value (fuel : nat) (s : jsstring) : option (json * jsstring) :=
  match fuel with
  | O => None
  | S fuel' =>
      match skip_ws s with
      | [] => None
      | c :: r =>
          if (c =? 123)%N then                        (* object *)
            match skip_ws r with
            | d :: r' =>
                if (d =? 125)%N then Some (JObject [], r')
                else parse_members fuel' [] (d :: r')
            | [] => None
            end
          else if (c =? 91)%N then                    (* array *)
            match skip_ws r with
            | d :: r' =>
                if (d =? 93)%N then Some (JArray [], r')
                else parse_elements fuel' [] (d :: r')
            | [] => None
            end
          else if (c =? 34)%N then
            match parse_string_chars [] r with
            | Some (str, r') => Some (JString str, r')
            | None => None
            end
          else if (c =? 116)%N then
            match expect (units_of_string "rue") r with
            | Some r' => Some (JBool true, r')
            | None => None
            end
          else if (c =? 102)%N then
            match expect (units_of_string "alse") r with
            | Some r' => Some (JBool false, r')
            | None => None
            end
          else if (c =? 110)%N then
            match expect (units_of_string "ull") r with
            | Some r' => Some (JNull, r')
            | None => None
            end
          else
            match parse_number (c :: r) with
            | Some (lx, r') => Some (JNumber lx, r')
            | None => None
            end
      end
  end
with parse_elements (fuel : nat) (acc : list json) (s : jsstring) : option (json * jsstring) :=
  match fuel with
  | O => None
  | S fuel' =>
      match parse_value fuel' s with
      | None => None
      | Some (v, r) =>
          match skip_ws r with
          | c :: r' =>
              if (c =? 44)%N then parse_elements fuel' (v :: acc) r'
              else if (c =? 93)%N then Some (JArray (rev (v :: acc)), r')
              else None
          | [] => None
          end
      end
  end
with parse_members (fuel : nat) (acc : list (jsstring * json)) (s : jsstring) : option (json * jsstring) :=
  match fuel with
  | O => None
  | S fuel' =>
      match skip_ws s with
      | q :: r0 =>
          if (q =? 34)%N then
            match parse_string_chars [] r0 with
            | None => None
            | Some (key, r1) =>
                match skip_ws r1 with
                | col :: r2 =>
                    if (col =? 58)%N then
                      match parse_value fuel' r2 with
                      | None => None
                      | Some (v, r3) =>
                          match skip_ws r3 with
                          | c :: r4 =>
                              if (c =? 44)%N then parse_members fuel' ((key, v) :: acc) r4
                              else if (c =? 125)%N then Some (JObject (rev ((key, v) :: acc)), r4)
                              else None
                          | [] => None
                          end
                      end
                    else None
                | [] => None
                end
            end
          else None
      | [] => None
      end
  end.

Definition JSON_parse (text : jsstring) : option json :=
  match parse_value (S (length text)) text with
  | Some (v, r) => match skip_ws r with [] => Some v | _ :: _ => None end
  | None => None
  end.

(** ** Rate limiter *)

(** Modelled from the spec: the token bucket of the [limiter] package
    (its classes [TokenBucket] and [RateLimiter]), which
    [rate-limiter.ts] instantiates and which is not among the sources.
    The spec (4.2, glossary) asks for a bucket per identity that holds a
    replenishing token count, is full on creation, is refilled at the
    configured rate per minute, gives one token to each allowed request
    and allows at most the configured rate within one window.  [content]
    counts tokens in units of 1/[interval] of a token, so the refill of
    [tokensPerInterval] tokens per [interval] milliseconds is exact. *)
Record TokenBucket := mkBucket {
  bucketSize : Z;
  tokensPerInterval : Z;
  interval : Z;
  content : Z;
  lastDrip : Z;
}.

(** Modelled from the spec: the refill of the bucket of [limiter],
    proportional to the time since the last refill and capped at the
    bucket size. *)
Definition drip (now : Z) (b : TokenBucket) : TokenBucket :=
  if tokensPerInterval b =? 0 then
    mkBucket (bucketSize b) (tokensPerInterval b) (interval b)
             (bucketSize b * interval b) (lastDrip b)
  else
    let deltaMS := Z.max (now - lastDrip b) 0 in
    mkBucket (bucketSize b) (tokensPerInterval b) (interval b)
             (Z.min (content b + deltaMS * tokensPerInterval b) (bucketSize b * interval b))
             now.

(** Modelled from the spec: taking [count] tokens out of the bucket of
    [limiter]; a bucket of size 0 is unlimited. *)
Definition bucket_tryRemoveTokens (count now : Z) (b : TokenBucket) : bool * TokenBucket :=
  if bucketSize b =? 0 then (true, b)
  else if count >? bucketSize b then (false, b)
  else
    let b' := drip now b in
    if count * interval b' >? content b' then (false, b')
    else (true, mkBucket (bucketSize b') (tokensPerInterval b') (interval b')
                         (content b' - count * interval b') (lastDrip b')).

(** Modelled from the spec: the [RateLimiter] of [limiter], a bucket
    together with the count of tokens given out in the current window. *)
Record RateLimiter := mkRateLimiter {
  tokenBucket : TokenBucket;
  curIntervalStart : Z;
  tokensThisInterval : Z;
}.

Definition MINUTE : Z := 60 * 1000.

(** Modelled from the spec: [new RateLimiter({ tokensPerInterval,
    interval: "minute" })] of [limiter]: the bucket starts full. *)
Definition new_RateLimiter (tokens now : Z) : RateLimiter :=
  mkRateLimiter (mkBucket tokens tokens MINUTE (tokens * MINUTE) now) now 0.

(** Modelled from the spec: [RateLimiter.tryRemoveTokens] of [limiter]. *)
Definition tryRemoveTokens (count now : Z) (l : RateLimiter) : bool * RateLimiter :=
  if count >? bucketSize (tokenBucket l) then (false, l)
  else
    let l1 :=
      if (now <? curIntervalStart l) || (now - curIntervalStart l >=? interval (tokenBucket l))
      then mkRateLimiter (tokenBucket l) now 0
      else l in
    if count >? tokensPerInterval (tokenBucket l1) - tokensThisInterval l1 then (false, l1)
    else
      let '(removed, b') := bucket_tryRemoveTokens count now (tokenBucket l1) in
      (removed,
       mkRateLimiter b' (curIntervalStart l1)
                     (if removed then tokensThisInterval l1 + count else tokensThisInterval l1)).

(** [interface VisitorLimiter] and [class DefaultRateLimiter],
    rate-limiter.ts.  The clock is read once per call and passed as [now]. *)
Record VisitorLimiter := mkVisitor {
  limiter : RateLimiter;
  lastUsed : Z;
}.

Record RateLimitConfig := mkRateLimitConfig {
  cfg_requestsPerMinute : Z;
  cfg_burstLimit : Z;
}.

Definition defaultRateLimitConfig : RateLimitConfig := mkRateLimitConfig 500 25.

Record DefaultRateLimiter := mkDefaultRateLimiter {
  visitors : gmap string VisitorLimiter;
  requestsPerMinute : Z;
  cleanupInterval : Z;
  visitorTimeout : Z;
  lastCleanup : Z;
}.

(** The constructor with its default intervals; [burstLimit] is not read. *)
Definition new_DefaultRateLimiter (config : RateLimitConfig) (now : Z) : DefaultRateLimiter :=
  mkDefaultRateLimiter ∅ (cfg_requestsPerMinute config) (5 * 60 * 1000) (30 * 60 * 1000) now.

Definition cleanupStaleVisitors (now : Z) (rl : DefaultRateLimiter) : DefaultRateLimiter :=
  if now - lastCleanup rl <? cleanupInterval rl then rl
  else
    mkDefaultRateLimiter
      (filter (fun kv => now - lastUsed (snd kv) <= visitorTimeout rl) (visitors rl))
      (requestsPerMinute rl) (cleanupInterval rl) (visitorTimeout rl) now.

Definition set_visitor (ip : string) (v : VisitorLimiter) (rl : DefaultRateLimiter) : DefaultRateLimiter :=
  mkDefaultRateLimiter (<[ip := v]> (visitors rl))
    (requestsPerMinute rl) (cleanupInterval rl) (visitorTimeout rl) (lastCleanup rl).

(** [getVisitor]: the visitor object found or created for [ip], with
    [lastUsed] refreshed.  The closure it returns is [visitor_allow]. *)
Definition getVisitor (ip : string) (now : Z) (rl : DefaultRateLimiter)
  : VisitorLimiter * DefaultRateLimiter :=
  let rl1 := cleanupStaleVisitors now rl in
  let visitor :=
    match visitors rl1 !! ip with
    | Some v => v
    | None => mkVisitor (new_RateLimiter (requestsPerMinute rl1) now) now
    end in
  let visitor' := mkVisitor (limiter visitor) now in
  (visitor', set_visitor ip visitor' rl1).

(** The visitor object is the one stored in the map, so the tokens taken
    by [tryRemoveTokens] are taken from the stored bucket. *)
Definition visitor_allow (ip : string) (now : Z) (v : VisitorLimiter) (rl : DefaultRateLimiter)
  : bool * DefaultRateLimiter :=
  let '(ok, l') := tryRemoveTokens 1 now (limiter v) in
  (ok, set_visitor ip (mkVisitor l' (lastUsed v)) rl).

Definition allow (ip : string) (now : Z) (rl : DefaultRateLimiter) : bool * DefaultRateLimiter :=
  let '(v, rl1) := getVisitor ip now rl in
  visitor_allow ip now v rl1.

(** Requests served one after the other, each with its identity and the
    time at which it arrives. *)
Fixpoint serve (reqs : list (string * Z)) (rl : DefaultRateLimiter)
  : list (string * bool) * DefaultRateLimiter :=
  match reqs with
  | [] => ([], rl)
  | (ip, t) :: reqs' =>
      let '(ok, rl1) := allow ip t rl in
      let '(oks, rl2) := serve reqs' rl1 in
      ((ip, ok) :: oks, rl2)
  end.

(** The requests of one identity, each with the time at which it arrived
    and the decision taken for it, in order. *)
Definition timed_decisions (ip : string) (reqs : list (string * Z)) (ds : list (string * bool))
  : list (Z * bool) :=
  map (fun x => (snd (fst x), snd (snd x)))
      (filter (fun x => fst (fst x) = ip) (zip reqs ds)).

(** ** [decodeURIComponent]

    Escapes are turned into bytes; the bytes must be well-formed UTF-8,
    and a malformed escape or an ill-formed sequence is a [URIError]
    ([None]).  A string is its UTF-8 bytes here, so the result is the
    decoded bytes themselves. *)

Definition hex_ascii (c : ascii) : option N := hex_digit (N_of_ascii c).

Fixpoint percent_decode (s : string) : option (list N) :=
  match s with
  | EmptyString => Some []
  | String c s1 =>
      if Ascii.eqb c "%" then
        match s1 with
        | String h1 (String h2 s2) =>
            match hex_ascii h1, hex_ascii h2, percent_decode s2 with
            | Some a, Some b, Some r => Some ((a * 16 + b)%N :: r)
            | _, _, _ => None
            end
        | _ => None
        end
      else
        match percent_decode s1 with
        | Some r => Some (N_of_ascii c :: r)
        | None => None
        end
  end.

Definition decodeURIComponent (s : string) : option string :=
  match percent_decode s with
  | Some bs =>
      if utf8_well_formed bs then Some (string_of_list_ascii (map ascii_of_N bs)) else None
  | None => None
  end.

(** ** Exceptions *)

Inductive Exn :=
| KillError                      (* ChildProcess.kill: the platform refuses the signal *)
| InvalidRequestPath             (* parseRequestPath *)
| URIError                       (* decodeURIComponent *)
| CommandNotAllowed (c : string) (* validateCommand *)
| NoSessionId                    (* handleSSEConnection: no session id *)
| ConnectError.                  (* server.connect rejected *)

Inductive Result (A : Type) :=
| Ok (a : A)
| Throw (e : Exn).
Arguments Ok {A} a.
Arguments Throw {A} e.

(** ** Configuration (config/index.ts) *)

Inductive LogLevel := DEBUG | INFO | WARN | ERROR.

(** [interface EnvConfig]; the port, the host and the trusted proxies are
    read only when the server starts listening. *)
Record EnvConfig := mkEnvConfig {
  logLevel : LogLevel;
  authSecret : string;
  nodeEnv : string;
}.

(** [defaultProcessConfig] *)
Definition sessionTimeout : Z := 60 * 60 * 1000.
Definition gracefulTimeout : Z := 10 * 1000.

Definition enabledCommands : gmap string bool :=
  list_to_map
    [ ("npx -y @upstash/context7-mcp@latest", true);
      ("npx -y @maximai/mcp-server@latest", true);
      ("npx -y @notionhq/notion-mcp-server", true);
      ("npx -y exa-mcp-server", true);
      ("docker run -i --rm -e GITHUB_PERSONAL_ACCESS_TOKEN ghcr.io/github/github-mcp-server", true) ].

Definition blacklistedEnvVars : gset string :=
  list_to_set
    [ "PATH"; "HOME"; "USER"; "SHELL"; "PWD"; "TMPDIR"; "TEMP"; "TMP";
      "HOSTNAME"; "LANG"; "LC_ALL"; "SUDO_USER"; "SUDO_COMMAND";
      "SSH_AUTH_SOCK"; "SSH_AGENT_PID"; "AWS_ACCESS_KEY"; "AWS_SECRET_KEY";
      "AWS_SESSION_TOKEN"; "API_KEY"; "SECRET_KEY"; "PRIVATE_KEY";
      "PASSWORD"; "TOKEN"; "MAXIM_SECRET";
      "NODE_OPTIONS"; "NODE_PATH"; "NPM_TOKEN"; "YARN_RC_FILENAME";
      "NODE_TLS_REJECT_UNAUTHORIZED" ].

(** ** Property lookup on a plain object

    [enabledCommands] is an object literal, so [enabledCommands[key]]
    finds the object's own properties and, for a key that is not one of
    them, the properties every object inherits from [Object.prototype].
    The inherited values are functions (an object for [__proto__]), all
    of them truthy. *)

Definition Object_prototype_properties : list string :=
  [ "constructor"; "hasOwnProperty"; "isPrototypeOf"; "propertyIsEnumerable";
    "toLocaleString"; "toString"; "valueOf"; "__proto__";
    "__defineGetter__"; "__defineSetter__"; "__lookupGetter__"; "__lookupSetter__" ].

Inductive Property (V : Type) :=
| Own (v : V)
| Inherited
| Undefined.
Arguments Own {V} v.
Arguments Inherited {V}.
Arguments Undefined {V}.

Definition js_get {V : Type} (o : gmap string V) (key : string) : Property V :=
  match o !! key with
  | Some v => Own v
  | None => if bool_decide (key ∈ Object_prototype_properties) then Inherited else Undefined
  end.

(** ** Requests *)

Inductive HeaderValue :=
| HString (s : string)
| HArray (l : list string).

(** What the handlers read of an Express request.  [url] is the path with
    its query string; [params_command] is filled in by the router. *)
Record Request := mkRequest {
  method : string;
  url : string;
  headers : list (string * HeaderValue);
  params_command : option string;
  query_sessionId : option string;
  remoteAddress : option string;   (* req.socket.remoteAddress *)
  req_ip : option string;          (* req.ip *)
  secure : bool;
  json_body_ok : bool;             (* express.json accepts the body *)
  res : nat;                       (* the response object *)
}.

(** [req.path]: the URL up to the query string. *)
Definition path (req : Request) : string :=
  match split "?" (url req) with
  | p :: _ => p
  | [] => EmptyString
  end.

Fixpoint header (name : string) (hs : list (string * HeaderValue)) : option HeaderValue :=
  match hs with
  | [] => None
  | (n, v) :: hs' => if String.eqb n name then Some v else header name hs'
  end.

(** A header that Node delivers as one string, when present and not empty
    (a missing and an empty value are both falsy). *)
Definition header_string (name : string) (req : Request) : option string :=
  match header name (headers req) with
  | Some (HString s) => if String.eqb s EmptyString then None else Some s
  | Some (HArray (s :: _)) => if String.eqb s EmptyString then None else Some s
  | _ => None
  end.

(** ** Sessions, events and the state of the proxy *)

Inductive Signal := SIGTERM | SIGKILL.

(** A [ChildProcess] object of Node.  [killed] is Node's flag of that name:
    [kill] sets it as soon as a signal has been sent successfully, and it
    says nothing about the process having terminated.  [exited] records
    that the process is gone and its handle released; [kill_fault] stands
    for a platform that refuses the signal, where [kill] throws;
    [stdin_fault] for an input channel that is closed or broken, on which
    [write] delivers nothing. *)
Record ChildProcess := mkChild {
  exited : bool;
  killed : bool;
  kill_fault : bool;
  stdin_fault : bool;
}.

(** A reference that was never allocated reads as a process that is gone. *)
#[global] Instance ChildProcess_inhabited : Inhabited ChildProcess :=
  populate (mkChild true false false false).

(** [interface Session].  [transport], [response] and [childProcess] are
    references: the objects are shared with the closures registered in
    [handleSSEConnection] and with the timer of [cleanupSession]. *)
Record Session := mkSession {
  transport : nat;
  response : nat;
  childProcess : nat;
  command : string;
  envVars : gmap string string;
  lastActivity : Z;
}.

(** A response object: whether its head has been written, and whether the
    stream is still open. *)
Record Response := mkResponse {
  headersSent : bool;
  stream_open : bool;
}.

#[global] Instance Response_inhabited : Inhabited Response :=
  populate (mkResponse false true).

(** The closure handed to [setTimeout] in [cleanupSession]. *)
Inductive Timer := ForceKill (child : nat).

Record MemoryUsage := mkMemoryUsage {
  rss : Z;
  heapUsed : Z;
  heapTotal : Z;
}.

(** The body of [handleHealthCheck]'s answer. *)
Record Health := mkHealth {
  h_status : string;
  h_timestamp : Z;
  h_uptime : Z;
  h_sessions : nat;
  h_memory : MemoryUsage;
  h_nodeEnv : string;
}.

Inductive Body :=
| BEmpty
| BText (s : string)
| BError (message : string)
| BHealth (h : Health).

(** The calls made to the logger, one constructor per call site. *)
Inductive LogEntry :=
| LogBlockedEnv (envKey : string)
| LogNewConnection (command : string) (envVarCount : nat)
| LogChildExited (sessionId : string)
| LogChildError (sessionId : string)
| LogSseToChild (sessionId : string) (msg : json)
| LogStdinWriteFailed (sessionId : string)
| LogSseClosed (sessionId : string)
| LogSseError (sessionId : string)
| LogChildToSse (sessionId : string) (msg : json)
| LogNonJson (sessionId : string) (line : jsstring)
| LogChildStderr (sessionId : string) (text : jsstring)
| LogClientDisconnected (sessionId : string)
| LogConnectionFailed (e : Exn)
| LogPost (sessionId : string)
| LogPostFailed (e : Exn)
| LogKillError (sessionId : string) (e : Exn)
| LogCleaningExpired (n : nat)
| LogCleaningActive (n : nat)
| LogIncomingRequest (method path : string)
| LogMissingAuth
| LogInvalidAuthFormat
| LogInvalidToken
| LogRateLimitExceeded (ip : string)
| LogUnhandledError.

Inductive Event :=
| EvKill (child : nat) (sig : Signal) (sent : bool)  (* child.kill(sig) and what it returned *)
| EvKillThrew (child : nat) (sig : Signal)
| EvSetTimeout (ms : Z) (t : Timer)
| EvRegistryInsert (sessionId : string)
| EvRegistryDelete (sessionId : string)
| EvSpawn (child : nat) (cmd : string) (env : gmap string string)
| EvStdinWrite (child : nat) (msg : json)            (* JSON.stringify(msg) and a newline *)
| EvSend (transport : nat) (msg : json)              (* transport.send(msg) *)
| EvSseOpen (res : nat) (sessionId : string)         (* the stream head and the endpoint event *)
| EvCorsHeaders (res : nat)                          (* the headers of the cors package *)
| EvSetHeader (res : nat) (name value : string)
| EvRespond (res : nat) (status : nat) (body : Body)
| EvLog (level : LogLevel) (entry : LogEntry).

Record Proxy := mkProxy {
  config : EnvConfig;                  (* this.config.env *)
  process_env : gmap string string;    (* process.env *)
  sessions : gmap string Session;      (* this.sessions *)
  children : gmap nat ChildProcess;    (* the ChildProcess objects *)
  responses : gmap nat Response;       (* the response objects *)
  buffers : gmap string jsstring;      (* per connection: the variable [buffer] of the stdout handler *)
  timers : list (Z * Timer);           (* pending setTimeout callbacks *)
  rateLimiter : DefaultRateLimiter;    (* the limiter created in setupMiddleware *)
  clock : Z;                           (* Date.now() *)
  uptime_ms : Z;                       (* process.uptime(), in milliseconds *)
  memory : MemoryUsage;                (* process.memoryUsage() *)
  next_ref : nat;                      (* next free object reference *)
  trace : list Event;
}.

Definition set_sessions (f : gmap string Session -> gmap string Session) (st : Proxy) : Proxy :=
  mkProxy (config st) (process_env st) (f (sessions st)) (children st) (responses st)
          (buffers st) (timers st) (rateLimiter st) (clock st) (uptime_ms st) (memory st)
          (next_ref st) (trace st).
Definition set_children (f : gmap nat ChildProcess -> gmap nat ChildProcess) (st : Proxy) : Proxy :=
  mkProxy (config st) (process_env st) (sessions st) (f (children st)) (responses st)
          (buffers st) (timers st) (rateLimiter st) (clock st) (uptime_ms st) (memory st)
          (next_ref st) (trace st).
Definition set_responses (f : gmap nat Response -> gmap nat Response) (st : Proxy) : Proxy :=
  mkProxy (config st) (process_env st) (sessions st) (children st) (f (responses st))
          (buffers st) (timers st) (rateLimiter st) (clock st) (uptime_ms st) (memory st)
          (next_ref st) (trace st).
Definition set_buffers (f : gmap string jsstring -> gmap string jsstring) (st : Proxy) : Proxy :=
  mkProxy (config st) (process_env st) (sessions st) (children st) (responses st)
          (f (buffers st)) (timers st) (rateLimiter st) (clock st) (uptime_ms st) (memory st)
          (next_ref st) (trace st).
Definition set_timers (f : list (Z * Timer) -> list (Z * Timer)) (st : Proxy) : Proxy :=
  mkProxy (config st) (process_env st) (sessions st) (children st) (responses st)
          (buffers st) (f (timers st)) (rateLimiter st) (clock st) (uptime_ms st) (memory st)
          (next_ref st) (trace st).
Definition set_rateLimiter (f : DefaultRateLimiter -> DefaultRateLimiter) (st : Proxy) : Proxy :=
  mkProxy (config st) (process_env st) (sessions st) (children st) (responses st)
          (buffers st) (timers st) (f (rateLimiter st)) (clock st) (uptime_ms st) (memory st)
          (next_ref st) (trace st).
Definition set_next_ref (f : nat -> nat) (st : Proxy) : Proxy :=
  mkProxy (config st) (process_env st) (sessions st) (children st) (responses st)
          (buffers st) (timers st) (rateLimiter st) (clock st) (uptime_ms st) (memory st)
          (f (next_ref st)) (trace st).
Definition set_trace (f : list Event -> list Event) (st : Proxy) : Proxy :=
  mkProxy (config st) (process_env st) (sessions st) (children st) (responses st)
          (buffers st) (timers st) (rateLimiter st) (clock st) (uptime_ms st) (memory st)
          (next_ref st) (f (trace st)).

(** ** The state-and-exception monad *)

Definition M (A : Type) : Type := Proxy -> Result A * Proxy.

Definition ret {A} (a : A) : M A := fun st => (Ok a, st).
Definition throw {A} (e : Exn) : M A := fun st => (Throw e, st).
Definition bind {A B} (m : M A) (k : A -> M B) : M B :=
  fun st => match m st with
            | (Ok a, st') => k a st'
            | (Throw e, st') => (Throw e, st')
            end.
Definition try_catch {A} (body : M A) (handler : Exn -> M A) : M A :=
  fun st => match body st with
            | (Ok a, st') => (Ok a, st')
            | (Throw e, st') => handler e st'
            end.

Declare Scope proxy_scope.
Delimit Scope proxy_scope with proxy.
Notation "x <- m ;; k" := (bind m (fun x => k))
  (at level 65, m at next level, right associativity) : proxy_scope.
Notation "m ;;; k" := (bind m (fun _ => k))
  (at level 65, right associativity) : proxy_scope.

Definition get {A} (f : Proxy -> A) : M A := fun st => (Ok (f st), st).
Definition modify (f : Proxy -> Proxy) : M unit := fun st => (Ok tt, f st).
Definition emit (e : Event) : M unit := modify (set_trace (fun t => t ++ [e])).
Definition log (level : LogLevel) (entry : LogEntry) : M unit := emit (EvLog level entry).
Definition when (b : bool) (m : M unit) : M unit := if b then m else ret tt.

Fixpoint forEach {A} (l : list A) (f : A -> M unit) : M unit :=
  match l with
  | [] => ret tt
  | x :: l' => (f x ;;; forEach l' f)%proxy
  end.

(** What [ConsoleLogger] writes of the calls made to it (logger.ts). *)
Definition level_rank (l : LogLevel) : nat :=
  match l with DEBUG => 0 | INFO => 1 | WARN => 2 | ERROR => 3 end.
Definition shouldLog (configured messageLevel : LogLevel) : bool :=
  (level_rank configured <=? level_rank messageLevel)%nat.

(** ** Teardown (index.ts 381-405) *)

Definition get_child (c : nat) : M ChildProcess := get (fun st => children st !!! c).

(** [ChildProcess.prototype.kill] of Node: without a handle (the process
    is gone) nothing is sent and the result is [false]; a platform error
    is thrown; otherwise the signal is sent, [killed] becomes [true] and
    the result is [true]. *)
Definition kill (c : nat) (sig : Signal) : M bool :=
  (p <- get_child c ;;
   if exited p then emit (EvKill c sig false) ;;; ret false
   else if kill_fault p then emit (EvKillThrew c sig) ;;; throw KillError
   else
     modify (set_children (insert c (mkChild (exited p) true (kill_fault p) (stdin_fault p)))) ;;;
     emit (EvKill c sig true) ;;;
     ret true)%proxy.

Definition setTimeout (ms : Z) (t : Timer) : M unit :=
  (emit (EvSetTimeout ms t) ;;;
   modify (set_timers (fun ts => ts ++ [(ms, t)])))%proxy.

(** [this.sessions[sessionId] = session] and [delete this.sessions[sessionId]] *)
Definition registry_insert (sessionId : string) (s : Session) : M unit :=
  (emit (EvRegistryInsert sessionId) ;;;
   modify (set_sessions (insert sessionId s)))%proxy.

Definition registry_delete (sessionId : string) : M unit :=
  (emit (EvRegistryDelete sessionId) ;;;
   modify (set_sessions (delete sessionId)))%proxy.

(** [MCPSSEProxy.cleanupSession].  The session id is always one generated
    by the transport, so [this.sessions[sessionId]] finds own properties
    only. *)
Definition cleanupSession (sessionId : string) : M unit :=
  fun st =>
    match sessions st !! sessionId with
    | None => (Ok tt, st)
    | Some session =>
        (try_catch
           (p <- get_child (childProcess session) ;;
            when (negb (killed p))
              (kill (childProcess session) SIGTERM ;;;
               setTimeout gracefulTimeout (ForceKill (childProcess session))))
           (fun e => log ERROR (LogKillError sessionId e)) ;;;
         registry_delete sessionId)%proxy st
    end.

(** The body of the timer set by [cleanupSession]; it runs after the
    [try] has been left, so an exception of [kill] is not caught here. *)
Definition run_timer (t : Timer) : M unit :=
  match t with
  | ForceKill c =>
      (p <- get_child c ;;
       when (negb (killed p)) (kill c SIGKILL ;;; ret tt))%proxy
  end.

(** The event loop fires the oldest pending timer. *)
Definition fire_timer : M unit :=
  fun st =>
    match timers st with
    | [] => (Ok tt, st)
    | (_, t) :: rest => run_timer t (set_timers (fun _ => rest) st)
    end.

(** ** Admission control *)

(** [validateCommand], config/index.ts: [!isEnabled] is false for [true]
    and for every inherited property. *)
Definition validateCommand (command : string) : M string :=
  match js_get enabledCommands command with
  | Own true => ret command
  | Inherited => ret command
  | Own false => throw (CommandNotAllowed command)
  | Undefined => throw (CommandNotAllowed command)
  end.

(** [Array.isArray(value) ? value[0] : value], kept when it is a string. *)
Definition header_first (v : HeaderValue) : option string :=
  match v with
  | HString s => Some s
  | HArray (s :: _) => Some s
  | HArray [] => None
  end.

(** The loop of [extractEnvVarsFromHeaders] over [Object.entries(req.headers)].
    The keys written to [envVars] hold no lower-case letter, so none of
    them names an inherited property and the assignment is a plain insert. *)
Fixpoint extractEnvVars_loop (hs : list (string * HeaderValue)) (envVars : gmap string string)
  : M (gmap string string) :=
  match hs with
  | [] => ret envVars
  | (name, value) :: hs' =>
      let upperName := toUpperCase name in
      if startsWith upperName "ENV_" then
        let envKey := substring_from 4 upperName in
        if bool_decide (envKey ∈ blacklistedEnvVars) then
          (log WARN (LogBlockedEnv envKey) ;;; extractEnvVars_loop hs' envVars)%proxy
        else
          match header_first value with
          | Some envValue => extractEnvVars_loop hs' (<[envKey := envValue]> envVars)
          | None => extractEnvVars_loop hs' envVars
          end
      else extractEnvVars_loop hs' envVars
  end.

Definition extractEnvVarsFromHeaders (req : Request) : M (gmap string string) :=
  extractEnvVars_loop (headers req) ∅.

(** The [env] option of [spawn]: [{ ...process.env, ...envVars, NODE_ENV }]. *)
Definition spawn_env (penv envVars : gmap string string) (node_env : string) : gmap string string :=
  <["NODE_ENV" := node_env]> (envVars ∪ penv).

(** [parseRequestPath]; its second component [rest] is not read by any
    caller and is left out. *)
Definition parseRequestPath (req : Request) : M string :=
  match params_command req with
  | None => throw InvalidRequestPath
  | Some command =>
      if String.eqb command EmptyString then throw InvalidRequestPath
      else match decodeURIComponent command with
           | Some c => ret c
           | None => throw URIError
           end
  end.

(** ** Opening a stream (index.ts 199-348) *)

(** What a message post does inside the transport of the SDK.  For a
    session that is registered the stream is established, and the
    transport answers every post itself: its promise is not rejected. *)
Inductive PostOutcome :=
| PostDelivers (msg : json)   (* answered 202, the message handed to onmessage *)
| PostInvalid.                (* answered 400, onerror called *)

(** What the surroundings decide for one request: the session id drawn
    by the transport, whether [server.connect] succeeds, the process that
    [spawn] returns, and what the transport does with a posted message. *)
Record Environment := mkEnvironment {
  env_sessionId : string;
  env_connect_ok : bool;
  env_worker : ChildProcess;
  env_post : PostOutcome;
}.

Definition get_response (r : nat) : M Response := get (fun st => responses st !!! r).

(** [res.status(status).json(body)], [.send(body)], [.end()] *)
Definition respond (r : nat) (status : nat) (body : Body) : M unit :=
  (emit (EvRespond r status body) ;;;
   modify (set_responses (insert r (mkResponse true false))))%proxy.

Definition setHeader (r : nat) (name value : string) : M unit :=
  emit (EvSetHeader r name value).

(** [server.connect(sseTransport)]: the transport writes the head of the
    event stream and the endpoint event. *)
Definition server_connect (env : Environment) (r : nat) : M unit :=
  if env_connect_ok env then
    (emit (EvSseOpen r (env_sessionId env)) ;;;
     modify (set_responses (insert r (mkResponse true true))))%proxy
  else throw ConnectError.

(** [spawn(cmdStr, { shell: true, env, stdio })] *)
Definition spawn (cmd : string) (env : gmap string string) (worker : ChildProcess) : M nat :=
  (c <- get next_ref ;;
   modify (set_next_ref S) ;;;
   modify (set_children (insert c worker)) ;;;
   emit (EvSpawn c cmd env) ;;;
   ret c)%proxy.

(** The body of [handleSSEConnection] up to the registration of the
    session; the handlers it registers are the functions of the next
    section. *)
Definition handleSSEConnection (env : Environment) (req : Request) : M unit :=
  try_catch
    (command <- parseRequestPath req ;;
     cmdStr <- validateCommand command ;;
     envVars <- extractEnvVarsFromHeaders req ;;
     log INFO (LogNewConnection command (size envVars)) ;;;
     server_connect env (res req) ;;;
     (if String.eqb (env_sessionId env) EmptyString then throw NoSessionId else ret tt) ;;;
     cfg <- get config ;;
     penv <- get process_env ;;
     childProcess <- spawn cmdStr (spawn_env penv envVars (nodeEnv cfg)) (env_worker env) ;;
     now <- get clock ;;
     registry_insert (env_sessionId env)
       (mkSession (res req) (res req) childProcess command envVars now))%proxy
    (fun e =>
       (log ERROR (LogConnectionFailed e) ;;;
        r <- get_response (res req) ;;
        when (negb (headersSent r))
          (respond (res req) 500 (BError "Internal server error")))%proxy).

(** ** The handlers of one connection (index.ts 264-341)

    The closures registered by [handleSSEConnection] share the session
    id, the transport and the child process of their connection. *)

Record Connection := mkConnection {
  conn_sessionId : string;
  conn_transport : nat;
  conn_child : nat;
}.

(** [session.lastActivity = Date.now()]: the session object is the one in
    the registry for as long as it is registered. *)
Definition touch (sessionId : string) : M unit :=
  (now <- get clock ;;
   modify (set_sessions
             (alter (fun s => mkSession (transport s) (response s) (childProcess s)
                                        (command s) (envVars s) now) sessionId)))%proxy.

(** [childProcess.stdin.write(JSON.stringify(msg) + "\n")].  The write
    of a Node stream does not throw: on a channel that is closed or
    broken nothing reaches the worker, and the failure is reported
    afterwards by an [error] event of the stream, for which the program
    registers no handler. *)
Definition stdin_write (c : nat) (msg : json) : M unit :=
  (p <- get_child c ;;
   if stdin_fault p then ret tt else emit (EvStdinWrite c msg))%proxy.

Definition childProcess_on_exit (k : Connection) : M unit :=
  (log INFO (LogChildExited (conn_sessionId k)) ;;;
   registry_delete (conn_sessionId k))%proxy.

Definition childProcess_on_error (k : Connection) : M unit :=
  (log ERROR (LogChildError (conn_sessionId k)) ;;;
   cleanupSession (conn_sessionId k))%proxy.

Definition sseTransport_onmessage (k : Connection) (msg : json) : M unit :=
  (log DEBUG (LogSseToChild (conn_sessionId k) msg) ;;;
   touch (conn_sessionId k) ;;;
   try_catch
     (stdin_write (conn_child k) msg)
     (fun _ =>
        log ERROR (LogStdinWriteFailed (conn_sessionId k)) ;;;
        cleanupSession (conn_sessionId k)))%proxy.

Definition sseTransport_onclose (k : Connection) : M unit :=
  (log INFO (LogSseClosed (conn_sessionId k)) ;;;
   cleanupSession (conn_sessionId k))%proxy.

Definition sseTransport_onerror (k : Connection) : M unit :=
  (log ERROR (LogSseError (conn_sessionId k)) ;;;
   cleanupSession (conn_sessionId k))%proxy.

(** What the stdout handler does with one complete line. *)
Definition forward_line (k : Connection) (line : jsstring) : M unit :=
  if is_blank line then ret tt
  else
    match JSON_parse line with
    | Some jsonMsg =>
        (log DEBUG (LogChildToSse (conn_sessionId k) jsonMsg) ;;;
         emit (EvSend (conn_transport k) jsonMsg) ;;;
         touch (conn_sessionId k))%proxy
    | None => log DEBUG (LogNonJson (conn_sessionId k) line)
    end.

(** The [data] handler of the worker's stdout: each chunk is decoded on
    its own and appended to [buffer]; the pieces before the last one are
    the complete lines, the last one is kept. *)
Definition childProcess_stdout_on_data (k : Connection) (chunk : list Byte.byte) : M unit :=
  (buffer <- get (fun st => default [] (buffers st !! conn_sessionId k)) ;;
   let lines := split_crlf (buffer ++ Buffer_toString_utf8 chunk) in
   modify (set_buffers (insert (conn_sessionId k) (List.last lines []))) ;;;
   forEach (List.removelast lines) (forward_line k))%proxy.

Definition childProcess_stderr_on_data (k : Connection) (chunk : list Byte.byte) : M unit :=
  log ERROR (LogChildStderr (conn_sessionId k) (Buffer_toString_utf8 chunk)).

Definition req_on_close (k : Connection) : M unit :=
  (log INFO (LogClientDisconnected (conn_sessionId k)) ;;;
   cleanupSession (conn_sessionId k))%proxy.

(** What can happen on a connection, and what the surroundings have done
    by the time the handler runs: an exited process is gone, a closed
    connection has its stream closed. *)
Inductive ConnEvent :=
| ChildExit
| ChildError
| SseMessage (msg : json)
| SseClose
| SseError
| StdoutData (chunk : list Byte.byte)
| StderrData (chunk : list Byte.byte)
| ReqClose.

Definition mark_exited (p : ChildProcess) : ChildProcess :=
  mkChild true (killed p) (kill_fault p) (stdin_fault p).

Definition close_stream (r : Response) : Response := mkResponse (headersSent r) false.

Definition on_event (k : Connection) (ev : ConnEvent) : M unit :=
  match ev with
  | ChildExit =>
      (modify (set_children (alter mark_exited (conn_child k))) ;;;
       childProcess_on_exit k)%proxy
  | ChildError => childProcess_on_error k
  | SseMessage msg => sseTransport_onmessage k msg
  | SseClose =>
      (modify (set_responses (alter close_stream (conn_transport k))) ;;;
       sseTransport_onclose k)%proxy
  | SseError => sseTransport_onerror k
  | StdoutData chunk => childProcess_stdout_on_data k chunk
  | StderrData chunk => childProcess_stderr_on_data k chunk
  | ReqClose =>
      (modify (set_responses (alter close_stream (conn_transport k))) ;;;
       req_on_close k)%proxy
  end.

(** The events whose handlers call [cleanupSession]. *)
Definition is_teardown_trigger (ev : ConnEvent) : bool :=
  match ev with
  | ChildError | SseClose | SseError | ReqClose => true
  | _ => false
  end.

(** ** Posting a message (index.ts 350-379) *)

(** [session.transport.handlePostMessage(req, res)] of the SDK, with the
    handlers registered on the transport. *)
Definition transport_handlePostMessage (env : Environment) (sessionId : string)
    (session : Session) (req : Request) : M unit :=
  let k := mkConnection sessionId (transport session) (childProcess session) in
  match env_post env with
  | PostDelivers msg =>
      (sseTransport_onmessage k msg ;;; respond (res req) 202 (BText "Accepted"))%proxy
  | PostInvalid =>
      (respond (res req) 400 (BText "Invalid message") ;;; sseTransport_onerror k)%proxy
  end.

(** [session?.transport?.handlePostMessage] is missing both for an
    unknown id and for an id that names an inherited property. *)
Definition handleMessagePost (env : Environment) (req : Request) : M unit :=
  try_catch
    (match query_sessionId req with
     | None => respond (res req) 400 (BError "Missing sessionId parameter")
     | Some sessionId =>
         if String.eqb sessionId EmptyString then
           respond (res req) 400 (BError "Missing sessionId parameter")
         else
           (ss <- get sessions ;;
            match ss !! sessionId with
            | None =>
                respond (res req) 503 (BError ("No active SSE connection for session " +:+ sessionId))
            | Some session =>
                log DEBUG (LogPost sessionId) ;;;
                touch sessionId ;;;
                transport_handlePostMessage env sessionId session req
            end)%proxy
     end)
    (fun e =>
       (log ERROR (LogPostFailed e) ;;;
        r <- get_response (res req) ;;
        when (negb (headersSent r))
          (respond (res req) 500 (BError "Internal server error")))%proxy).

(** ** The health handler (index.ts 181-197) *)

(** [Math.round(bytes / 1024 / 1024)] *)
Definition round_mb (bytes : Z) : Z := (bytes + 524288) / 1048576.

Definition handleHealthCheck (req : Request) : M unit :=
  (up <- get uptime_ms ;;
   mem <- get memory ;;
   now <- get clock ;;
   ss <- get sessions ;;
   cfg <- get config ;;
   respond (res req) 200
     (BHealth (mkHealth "ok" now (up / 1000) (size ss)
                 (mkMemoryUsage (round_mb (rss mem)) (round_mb (heapUsed mem))
                                (round_mb (heapTotal mem)))
                 (nodeEnv cfg))))%proxy.

(** ** Middleware (middleware/index.ts) *)

Inductive MwOutcome :=
| Next       (* next() was called *)
| Handled.   (* the middleware answered and returned *)

(** The [cors] package as set up in [setupMiddleware] (every origin
    allowed, [optionsSuccessStatus: 200], no [preflightContinue]): it adds
    its headers and answers a preflight itself. *)
Definition corsMiddleware (req : Request) : M MwOutcome :=
  (emit (EvCorsHeaders (res req)) ;;;
   if String.eqb (method req) "OPTIONS" then
     respond (res req) 200 BEmpty ;;; ret Handled
   else ret Next)%proxy.

(** [createRequestLoggingMiddleware]; its [finish] listener only logs. *)
Definition createRequestLoggingMiddleware (req : Request) : M MwOutcome :=
  (log INFO (LogIncomingRequest (method req) (path req)) ;;; ret Next)%proxy.

Definition header_is (name value : string) (req : Request) : bool :=
  match header name (headers req) with
  | Some (HString s) => String.eqb s value
  | _ => false
  end.

Definition createSecurityMiddleware (req : Request) : M MwOutcome :=
  let r := res req in
  if String.eqb (url req) "/health" then
    (respond r 200 (BText "ok") ;;; ret Handled)%proxy
  else
    (when (secure req || header_is "x-forwarded-proto" "https" req)
       (setHeader r "Strict-Transport-Security" "max-age=31536000; includeSubDomains") ;;;
     setHeader r "X-Content-Type-Options" "nosniff" ;;;
     setHeader r "X-Frame-Options" "DENY" ;;;
     setHeader r "X-XSS-Protection" "1; mode=block" ;;;
     setHeader r "Referrer-Policy" "strict-origin-when-cross-origin" ;;;
     setHeader r "Content-Security-Policy" "default-src 'self'; connect-src 'self' *" ;;;
     match header_string "origin" req with
     | Some origin =>
         setHeader r "Access-Control-Allow-Origin" origin ;;;
         setHeader r "Access-Control-Allow-Credentials" "true"
     | None => setHeader r "Access-Control-Allow-Origin" "*"
     end ;;;
     setHeader r "Access-Control-Allow-Methods" "GET, POST, OPTIONS" ;;;
     setHeader r "Access-Control-Allow-Headers"
       "Content-Type, Authorization, Cache-Control, Last-Event-ID, ENV_*, X-Requested-With" ;;;
     setHeader r "Access-Control-Max-Age" "86400" ;;;
     if String.eqb (method req) "OPTIONS" then
       setHeader r "Access-Control-Expose-Headers" "Content-Type, Last-Event-ID" ;;;
       respond r 200 BEmpty ;;;
       ret Handled
     else ret Next)%proxy.

Definition createAuthMiddleware (secret : string) (req : Request) : M MwOutcome :=
  if String.eqb (url req) "/health" || String.eqb (method req) "OPTIONS" then ret Next
  else
    match header_string "authorization" req with
    | None =>
        (log WARN LogMissingAuth ;;;
         respond (res req) 401 (BError "Authorization header required") ;;;
         ret Handled)%proxy
    | Some authHeader =>
        let parts := split " " authHeader in
        if negb (length parts =? 2)%nat
           || negb (String.eqb (toLowerCase (nth 0 parts EmptyString)) "bearer") then
          (log WARN LogInvalidAuthFormat ;;;
           respond (res req) 401 (BError "Invalid authorization format") ;;;
           ret Handled)%proxy
        else if negb (String.eqb (nth 1 parts EmptyString) secret) then
          (log WARN LogInvalidToken ;;;
           respond (res req) 401 (BError "Invalid token") ;;;
           ret Handled)%proxy
        else ret Next
    end.

(** A string that is present and not empty. *)
Definition truthy (o : option string) : option string :=
  match o with
  | Some s => if String.eqb s EmptyString then None else Some s
  | None => None
  end.

(** The identity under which a request is counted. *)
Definition client_ip (req : Request) : string :=
  let ip :=
    match header_string "x-forwarded-for" req with
    | Some ip => ip
    | None =>
        match truthy (remoteAddress req) with
        | Some a => a
        | None => match truthy (req_ip req) with Some a => a | None => "unknown" end
        end
    end in
  if includes ":" ip then
    let parts := split ":" ip in
    if (length parts =? 2)%nat && negb (startsWith ip "[") then nth 0 parts EmptyString
    else ip
  else ip.

Definition createRateLimitMiddleware (req : Request) : M MwOutcome :=
  if String.eqb (url req) "/health" || String.eqb (method req) "OPTIONS" then ret Next
  else
    let ip := client_ip req in
    (now <- get clock ;;
     rl <- get rateLimiter ;;
     let '(ok, rl') := allow ip now rl in
     modify (set_rateLimiter (fun _ => rl')) ;;;
     if ok then ret Next
     else
       log WARN (LogRateLimitExceeded ip) ;;;
       respond (res req) 429 (BError "Rate limit exceeded") ;;;
       ret Handled)%proxy.

(** [createErrorMiddleware] *)
Definition createErrorMiddleware (req : Request) : M unit :=
  (log ERROR LogUnhandledError ;;;
   respond (res req) 500 (BError "Internal server error"))%proxy.

(** The last middleware of [setupMiddleware]: [express.json] for every
    path that ends neither in [/sse] nor in [/message]; a body it refuses
    goes to the error middleware. *)
Definition jsonMiddleware (req : Request) : M MwOutcome :=
  if endsWith (path req) "/sse" || endsWith (path req) "/message" then ret Next
  else if json_body_ok req then ret Next
  else (createErrorMiddleware req ;;; ret Handled)%proxy.

(** ** Routes and the application (index.ts 53-104) *)

(** A path of the shape [/<segment>/<last>] with a non-empty segment. *)
Definition match_command_route (last p : string) : option string :=
  match split "/" p with
  | [e; seg; l] =>
      if String.eqb e EmptyString && negb (String.eqb seg EmptyString) && String.eqb l last
      then Some seg else None
  | _ => None
  end.

Definition with_command (c : string) (req : Request) : Request :=
  mkRequest (method req) (url req) (headers req) (Some c) (query_sessionId req)
            (remoteAddress req) (req_ip req) (secure req) (json_body_ok req) (res req).

(** The router of Express for the three routes of [setupRoutes]: a route
    parameter is percent-decoded before the handler sees it, a parameter
    that cannot be decoded goes to the error middleware, and a request that
    matches no route is answered 404.  Paths are matched exactly: that
    Express also ignores the letter case and a trailing slash, and serves
    HEAD from the GET routes, is left out, and no statement below depends
    on it. *)
Definition router (env : Environment) (req : Request) : M unit :=
  if String.eqb (method req) "GET" && String.eqb (path req) "/health" then
    handleHealthCheck req
  else
    match (if String.eqb (method req) "GET" then match_command_route "sse" (path req) else None),
          (if String.eqb (method req) "POST" then match_command_route "message" (path req) else None)
    with
    | Some seg, _ =>
        match decodeURIComponent seg with
        | Some c => handleSSEConnection env (with_command c req)
        | None => createErrorMiddleware req
        end
    | None, Some seg =>
        match decodeURIComponent seg with
        | Some c => handleMessagePost env (with_command c req)
        | None => createErrorMiddleware req
        end
    | None, None =>
        respond (res req) 404 (BText ("Cannot " +:+ method req +:+ " " +:+ path req))
    end.

Fixpoint run_middleware (mws : list (Request -> M MwOutcome)) (final : Request -> M unit)
    (req : Request) : M unit :=
  match mws with
  | [] => final req
  | mw :: rest =>
      (o <- mw req ;;
       match o with
       | Next => run_middleware rest final req
       | Handled => ret tt
       end)%proxy
  end.

(** [this.app]: the middleware in the order of [setupMiddleware], then the
    routes. *)
Definition express_app (env : Environment) (req : Request) : M unit :=
  run_middleware
    [ corsMiddleware;
      createRequestLoggingMiddleware;
      createSecurityMiddleware;
      (fun req => (cfg <- get config ;; createAuthMiddleware (authSecret cfg) req)%proxy);
      createRateLimitMiddleware;
      jsonMiddleware ]
    (router env) req.

(** The answer given on a response object, if any. *)
Definition answer (r : nat) (st : Proxy) : option (nat * Body) :=
  List.last (map Some (omap (fun e => match e with
                                   | EvRespond r' status body =>
                                       if (r' =? r)%nat then Some (status, body) else None
                                   | _ => None
                                   end) (trace st))) None.

(** ** Reading a trace *)

(** The index of the first event of a kind. *)
Fixpoint position (P : Event -> bool) (t : list Event) : option nat :=
  match t with
  | [] => None
  | e :: t' => if P e then Some O else option_map S (position P t')
  end.

(** A call of [child.kill], with any signal, with SIGTERM, with SIGKILL. *)
Definition is_kill_call (c : nat) (e : Event) : bool :=
  match e with
  | EvKill c' _ _ => (c' =? c)%nat
  | EvKillThrew c' _ => (c' =? c)%nat
  | _ => false
  end.

Definition is_sigterm_call (c : nat) (e : Event) : bool :=
  match e with
  | EvKill c' SIGTERM _ => (c' =? c)%nat
  | EvKillThrew c' SIGTERM => (c' =? c)%nat
  | _ => false
  end.

Definition is_force_kill (c : nat) (e : Event) : bool :=
  match e with
  | EvKill c' SIGKILL _ => (c' =? c)%nat
  | EvKillThrew c' SIGKILL => (c' =? c)%nat
  | _ => false
  end.

Definition is_registry_delete (sessionId : string) (e : Event) : bool :=
  match e with
  | EvRegistryDelete s => String.eqb s sessionId
  | _ => false
  end.

(** [precedes P Q t]: an event of kind [P] occurs in [t], and no event of
    kind [Q] occurs at or before its first occurrence. *)
Definition precedes (P Q : Event -> bool) (t : list Event) : bool :=
  match position P t, position Q t with
  | Some i, Some j => (i <? j)%nat
  | Some _, None => true
  | None, _ => false
  end.

(** The messages sent over a transport, in order. *)
Fixpoint forwarded (tr : nat) (t : list Event) : list json :=
  match t with
  | [] => []
  | EvSend tr' m :: t' => if (tr' =? tr)%nat then m :: forwarded tr t' else forwarded tr t'
  | _ :: t' => forwarded tr t'
  end.


(** The commands for which a process was spawned, in order. *)
Fixpoint spawned (t : list Event) : list string :=
  match t with
  | [] => []
  | EvSpawn _ cmd _ :: t' => cmd :: spawned t'
  | _ :: t' => spawned t'
  end.

(** ** Environment overrides seen from outside *)

(** The overrides the loop of [extractEnvVarsFromHeaders] ends with, and
    the warnings it logs on the way. *)
Fixpoint env_overrides (hs : list (string * HeaderValue)) (acc : gmap string string)
  : gmap string string :=
  match hs with
  | [] => acc
  | (name, value) :: hs' =>
      let upperName := toUpperCase name in
      if startsWith upperName "ENV_" then
        let envKey := substring_from 4 upperName in
        if bool_decide (envKey ∈ blacklistedEnvVars) then env_overrides hs' acc
        else match header_first value with
             | Some envValue => env_overrides hs' (<[envKey := envValue]> acc)
             | None => env_overrides hs' acc
             end
      else env_overrides hs' acc
  end.

Fixpoint blocked_overrides (hs : list (string * HeaderValue)) : list Event :=
  match hs with
  | [] => []
  | (name, _) :: hs' =>
      let upperName := toUpperCase name in
      if startsWith upperName "ENV_"
         && bool_decide (substring_from 4 upperName ∈ blacklistedEnvVars)
      then EvLog WARN (LogBlockedEnv (substring_from 4 upperName)) :: blocked_overrides hs'
      else blocked_overrides hs'
  end.

(** ** The relay seen from outside *)

(** The worker's output arriving as a sequence of chunks. *)
Definition deliver (k : Connection) (chunks : list (list Byte.byte)) : M unit :=
  forEach chunks (childProcess_stdout_on_data k).

(** The message a complete line gives rise to, if any. *)
Definition line_message (line : jsstring) : list json :=
  if is_blank line then []
  else match JSON_parse line with
       | Some m => [m]
       | None => []
       end.

(** The remainder kept for a connection. *)
Definition buffer_of (k : Connection) (st : Proxy) : jsstring :=
  default [] (buffers st !! conn_sessionId k).

(** Splitting without look-ahead: every LF ends a line, and one CR at the
    end of that line is dropped.  [split_crlf] is shown to agree with it. *)
Definition strip_cr (cur : jsstring) : jsstring :=
  match rev cur with
  | c :: r => if (c =? CR)%N then rev r else cur
  | [] => cur
  end.

Fixpoint split_lf_aux (cur s : jsstring) : list jsstring :=
  match s with
  | [] => [cur]
  | c :: rest =>
      if (c =? LF)%N then strip_cr cur :: split_lf_aux [] rest
      else split_lf_aux (cur ++ [c]) rest
  end.

Definition ends_with_cr (cur : jsstring) : bool :=
  match rev cur with
  | c :: _ => (c =? CR)%N
  | [] => false
  end.

Definition starts_with_lf (s : jsstring) : bool :=
  match s with
  | c :: _ => (c =? LF)%N
  | [] => false
  end.

Definition no_lf (s : jsstring) : Prop := Forall (fun c => c <> LF) s.

(** ** The rate limiter within one window *)

(** The visitor of an identity after [k] of its requests in the window
    that started at [t0], for the rate [R]. *)
Definition visitor_inv (R t0 : Z) (k : nat) (v : VisitorLimiter) : Prop :=
  exists ct ld lu,
    v = mkVisitor (mkRateLimiter (mkBucket R R MINUTE ct ld) t0 (Z.min (Z.of_nat k) R)) lu /\
    (R - Z.min (Z.of_nat k) R) * MINUTE <= ct /\
    0 <= ct /\
    t0 <= ld < t0 + MINUTE /\
    t0 <= lu.

Definition limiter_inv (ip : string) (R t0 timeout : Z) (k : nat) (rl : DefaultRateLimiter) : Prop :=
  requestsPerMinute rl = R /\ visitorTimeout rl = timeout /\
  exists v, visitors rl !! ip = Some v /\ visitor_inv R t0 k v.

(** The window of the spec, followed along the requests of one identity:
    its first request opens a window, and so does every request that
    arrives a minute or more after the opening of the window before it.
    [windowed start allowed tds] gives, for each request, the number of
    requests allowed before it in its window, and its decision. *)
Fixpoint windowed (start : option Z) (allowed : Z) (tds : list (Z * bool)) : list (Z * bool) :=
  match tds with
  | [] => []
  | (t, d) :: rest =>
      let s := match start with
               | Some s => if t - s <? MINUTE then s else t
               | None => t
               end in
      let k := match start with
               | Some s => if t - s <? MINUTE then allowed else 0
               | None => 0
               end in
      (k, d) :: windowed (Some s) (if d then k + 1 else k) rest
  end.

(** The [i]-th request of [tds], made at [t], follows a quiet minute: it
    is the first one, or the one before it is a minute old or older. *)
Definition after_quiet_minute (tds : list (Z * bool)) (i : nat) (t : Z) : Prop :=
  match i with
  | O => True
  | S i' => exists tp dp, tds !! i' = Some (tp, dp) /\ MINUTE <= t - tp
  end.

(** The times [ts] are in order, none before [T]. *)
Fixpoint ordered_from (T : Z) (ts : list Z) : Prop :=
  match ts with
  | [] => True
  | t :: rest => T <= t /\ ordered_from t rest
  end.

Definition in_time_order (ts : list Z) : Prop :=
  match ts with
  | [] => True
  | t :: rest => ordered_from t rest
  end.

(** What the limiter holds for [ip] at time [T], against the window of
    the spec.  [g] is [None] while [ip] has made no request; otherwise it
    gives the opening [s] of the window of its latest request, the number
    [k] of its requests allowed in that window, and the time [last] of
    that request.  The visitor is either the stored one, or has been
    purged more than a minute after [last]. *)
Definition tracks (ip : string) (R timeout T : Z) (g : option (Z * Z * Z))
    (rl : DefaultRateLimiter) : Prop :=
  requestsPerMinute rl = R /\ visitorTimeout rl = timeout /\
  match g with
  | None => visitors rl !! ip = None
  | Some (s, k, last) =>
      s <= last /\ last <= T /\ 0 <= k <= R /\
      ((visitors rl !! ip = None /\ MINUTE < T - last) \/
       exists ct ld,
         visitors rl !! ip =
           Some (mkVisitor (mkRateLimiter (mkBucket R R MINUTE ct ld) s k) last) /\
         0 <= ct /\ ld <= last)
  end.

Definition window_start (g : option (Z * Z * Z)) : option Z :=
  match g with Some (s, _, _) => Some s | None => None end.

Definition window_allowed (g : option (Z * Z * Z)) : Z :=
  match g with Some (_, k, _) => k | None => 0 end.

(** The opening of the window of a request at [t], and the number of
    requests allowed before it in that window. *)
Definition window_open (g : option (Z * Z * Z)) (t : Z) : Z :=
  match g with
  | Some (s, _, _) => if t - s <? MINUTE then s else t
  | None => t
  end.

Definition window_count (g : option (Z * Z * Z)) (t : Z) : Z :=
  match g with
  | Some (s, k, _) => if t - s <? MINUTE then k else 0
  | None => 0
  end.

Definition next_window (g : option (Z * Z * Z)) (t : Z) (d : bool) : option (Z * Z * Z) :=
  Some (window_open g t, if d then window_count g t + 1 else window_count g t, t).

(** ** Expiry and shutdown (index.ts 106-111, 407-440) *)

Definition set_clock (now : Z) (st : Proxy) : Proxy :=
  mkProxy (config st) (process_env st) (sessions st) (children st) (responses st)
          (buffers st) (timers st) (rateLimiter st) now (uptime_ms st) (memory st)
          (next_ref st) (trace st).

(** [now - session.lastActivity > this.config.process.sessionTimeout] *)
Definition is_expired (now : Z) (session : Session) : bool :=
  now - lastActivity session >? sessionTimeout.

(** The body of [cleanupExpiredSessions], [entries] being what
    [Object.entries(this.sessions)] returns.  The engine lists the
    entries in the order in which the sessions were registered, which the
    registry as a finite map does not record; the statements about the
    sweep are therefore made for every order of the entries. *)
Definition cleanupExpiredSessions_over (entries : list (string * Session)) : M unit :=
  (now <- get clock ;;
   let expiredSessions := List.filter (fun e => is_expired now (snd e)) entries in
   when (0 <? length expiredSessions)%nat
     (log INFO (LogCleaningExpired (length expiredSessions)) ;;;
      forEach expiredSessions (fun e => cleanupSession (fst e))))%proxy.

(** [cleanupExpiredSessions], with the entries in the order of the map. *)
Definition cleanupExpiredSessions : M unit :=
  fun st => cleanupExpiredSessions_over (map_to_list (sessions st)) st.

(** [class MCPSSEProxy]: the state above together with the handle
    [this.cleanupInterval] of the periodic sweep, kept as whether the
    interval timer is armed. *)
Record MCPSSEProxy := mkMCPSSEProxy {
  this : Proxy;
  cleanupInterval_set : bool;
}.

Definition setupCleanup (p : MCPSSEProxy) : MCPSSEProxy :=
  mkMCPSSEProxy (this p) true.

(** One tick of the interval timer armed by [setupCleanup]. *)
Definition interval_tick (p : MCPSSEProxy) : Result unit * MCPSSEProxy :=
  if cleanupInterval_set p then
    let '(r, st') := cleanupExpiredSessions (this p) in
    (r, mkMCPSSEProxy st' (cleanupInterval_set p))
  else (Ok tt, p).

(** [shutdown], [sessionIds] being what [Object.keys(this.sessions)]
    returns (in any order, as for the sweep).  The wait of one second that
    ends [shutdown] changes nothing in the state. *)
Definition shutdown_over (sessionIds : list string) (p : MCPSSEProxy)
  : Result unit * MCPSSEProxy :=
  let '(r, st') :=
    (log INFO (LogCleaningActive (length sessionIds)) ;;;
     forEach sessionIds cleanupSession)%proxy (this p) in
  (r, mkMCPSSEProxy st' false).

Definition shutdown (p : MCPSSEProxy) : Result unit * MCPSSEProxy :=
  shutdown_over (map fst (map_to_list (sessions (this p)))) p.

(** The calls of [kill] made on a process, and a SIGKILL that was sent. *)
Definition kill_calls (c : nat) (t : list Event) : nat :=
  length (List.filter (is_kill_call c) t).

Definition is_delivered_sigkill (e : Event) : bool :=
  match e with
  | EvKill _ SIGKILL true => true
  | _ => false
  end.

(** ** Management of the rate limiter (rate-limiter.ts 134-145) *)

Definition getVisitorCount (now : Z) (rl : DefaultRateLimiter) : nat * DefaultRateLimiter :=
  let rl1 := cleanupStaleVisitors now rl in
  (size (visitors rl1), rl1).

Definition clearVisitor (ip : string) (rl : DefaultRateLimiter) : DefaultRateLimiter :=
  mkDefaultRateLimiter (delete ip (visitors rl))
    (requestsPerMinute rl) (cleanupInterval rl) (visitorTimeout rl) (lastCleanup rl).

Definition clearAllVisitors (rl : DefaultRateLimiter) : DefaultRateLimiter :=
  mkDefaultRateLimiter ∅
    (requestsPerMinute rl) (cleanupInterval rl) (visitorTimeout rl) (lastCleanup rl).

(** ** Reading the environment (config/index.ts 547-578)

    The values of the environment are kept as [string], like the other
    ASCII text.  The definitions below are exact for values that are
    ASCII text ([env_is_ascii]): there a character is one code unit of
    the engine, [toUpperCase] acts letter by letter, and the white space
    that [parseInt] skips is the ASCII one.  The statements about what
    [getEnvConfig] accepts and about the level it configures are made
    for such an environment. *)

Definition is_ascii_text (s : string) : bool :=
  forallb (fun c => (N_of_ascii c <? 128)%N) (list_ascii_of_string s).

(** The variables that [getEnvConfig] reads hold ASCII text, where they
    are set. *)
Definition env_is_ascii (env : gmap string string) : bool :=
  forallb (fun name => match env !! name with
                       | Some v => is_ascii_text v
                       | None => true
                       end)
          ["PORT"; "HOST"; "LOG_LEVEL"; "MAXIM_SECRET"; "NODE_ENV"].

(** [process.env.NAME || fallback]: a variable that is unset or empty
    gives the fallback. *)
Definition env_or (env : gmap string string) (name fallback : string) : string :=
  match truthy (env !! name) with
  | Some v => v
  | None => fallback
  end.

Definition is_ascii_space (c : ascii) : bool :=
  let n := N_of_ascii c in ((9 <=? n) && (n <=? 13) || (n =? 32))%N.

Fixpoint trim_start (s : string) : string :=
  match s with
  | String c s' => if is_ascii_space c then trim_start s' else s
  | EmptyString => EmptyString
  end.

Definition digit_value (c : ascii) : option Z :=
  let n := N_of_ascii c in
  if ((48 <=? n) && (n <=? 57))%N then Some (Z.of_N (n - 48)) else None.

(** The longest run of decimal digits at the head of [s], as a number;
    [acc] is [None] until a digit has been read. *)
Fixpoint parse_digits (acc : option Z) (s : string) : option Z :=
  match s with
  | String c s' =>
      match digit_value c with
      | Some d => parse_digits (Some (10 * default 0 acc + d)) s'
      | None => acc
      end
  | EmptyString => acc
  end.

(** [parseInt(s, 10)] of ASCII text: leading white space is skipped, one
    sign is read, then the digits up to the first character that is not
    one; [None] is NaN.  The result is exact here, where the engine rounds
    a number of more than 53 bits; the comparisons of [getEnvConfig] do
    not see the difference. *)
Definition parseInt (s : string) : option Z :=
  match trim_start s with
  | String "-" r => Z.opp <$> parse_digits None r
  | String "+" r => parse_digits None r
  | r => parse_digits None r
  end.

Module Config.

(** The three errors thrown by [getEnvConfig]. *)
Inductive ConfigError :=
| InvalidPort (shown : string)
| SecretRequired
| SecretTooShort.

(** [interface EnvConfig] with all its fields; [logLevel] is the text
    found in the environment, which the cast does not check. *)
Record EnvConfig := mkEnvConfig {
  port : Z;
  host : string;
  logLevel : string;
  authSecret : string;
  nodeEnv : string;
  trustedProxies : list string;
}.

Definition getEnvConfig (env : gmap string string) : ConfigError + EnvConfig :=
  let port := parseInt (env_or env "PORT" "8000") in
  let host := env_or env "HOST" "0.0.0.0" in
  let logLevel :=
    match truthy (toUpperCase <$> env !! "LOG_LEVEL") with
    | Some l => l
    | None => "INFO"
    end in
  let authSecret := env !! "MAXIM_SECRET" in
  let nodeEnv := env_or env "NODE_ENV" "development" in
  let trustedProxies :=
    if String.eqb nodeEnv "production"
    then ["10.0.0.0/8"; "172.16.0.0/12"; "192.168.0.0/16"; "fc00::/7"]
    else [] in
  match port with
  | None => inl (InvalidPort (env_or env "PORT" "8000"))
  | Some p =>
      if (p <? 1) || (p >? 65535) then inl (InvalidPort (env_or env "PORT" "8000"))
      else
        match truthy authSecret with
        | None => inl SecretRequired
        | Some secret =>
            if (String.length secret <? 32)%nat then inl SecretTooShort
            else inr (mkEnvConfig p host logLevel secret nodeEnv trustedProxies)
        end
  end.

End Config.

(** A string of decimal digits, and a string that starts with one. *)
Definition all_digits (s : string) : bool :=
  forallb (fun c => bool_decide (is_Some (digit_value c))) (list_ascii_of_string s).

Definition starts_with_digit (s : string) : bool :=
  match s with
  | String c _ => bool_decide (is_Some (digit_value c))
  | EmptyString => false
  end.

(** ** The console logger (utils/logger.ts) *)

(** The table [levels] of [shouldLog], read at a level given as text.
    For a text that is not one of the four names the table gives
    [undefined] (or, for the name of an inherited property, a function):
    a value that compares false with every number, kept as [None]. *)
Definition levels (name : string) : option nat :=
  if String.eqb name "DEBUG" then Some 0%nat
  else if String.eqb name "INFO" then Some 1%nat
  else if String.eqb name "WARN" then Some 2%nat
  else if String.eqb name "ERROR" then Some 3%nat
  else None.

Definition level_name (l : LogLevel) : string :=
  match l with
  | DEBUG => "DEBUG"
  | INFO => "INFO"
  | WARN => "WARN"
  | ERROR => "ERROR"
  end.

(** [ConsoleLogger.shouldLog] of a logger created with [level]:
    [levels[messageLevel] >= levels[this.level]]. *)
Definition ConsoleLogger_shouldLog (level : string) (messageLevel : LogLevel) : bool :=
  match levels (level_name messageLevel), levels level with
  | Some m, Some c => (c <=? m)%nat
  | _, _ => false
  end.

(** What such a logger writes to the console of the calls made to it. *)
Fixpoint console_output (level : string) (t : list Event) : list (LogLevel * LogEntry) :=
  match t with
  | [] => []
  | EvLog l entry :: t' =>
      if ConsoleLogger_shouldLog level l then (l, entry) :: console_output level t'
      else console_output level t'
  | _ :: t' => console_output level t'
  end.

(** ** Further readers *)

(** The state after a warning has been logged and the request answered
    401, as [createAuthMiddleware] does on each of its three refusals. *)
Definition answered_401 (req : Request) (st : Proxy) (entry : LogEntry) (message : string) : Proxy :=
  set_responses (insert (res req) (mkResponse true false))
    (set_trace (fun t => t ++ [EvRespond (res req) 401 (BError message)])
       (set_trace (fun t => t ++ [EvLog WARN entry]) st)).

Definition is_set_header (e : Event) : bool :=
  match e with
  | EvSetHeader _ _ _ => true
  | _ => false
  end.

(** The events of the middleware that runs before authentication. *)
Definition is_preamble (e : Event) : bool :=
  match e with
  | EvCorsHeaders _ | EvSetHeader _ _ _ | EvLog INFO _ => true
  | _ => false
  end.

(** A string that holds a lower-case letter. *)
Definition has_lower (s : string) : bool :=
  existsb (fun a => let n := N_of_ascii a in ((97 <=? n) && (n <=? 122))%N)
          (list_ascii_of_string s).

(** ** Example states and requests *)

Definition example_config : EnvConfig :=
  mkEnvConfig INFO "0123456789abcdef0123456789abcdef" "production".

Definition example_limiter : DefaultRateLimiter :=
  new_DefaultRateLimiter defaultRateLimitConfig 0.

(** A proxy that has just started. *)
Definition idle_state : Proxy :=
  mkProxy example_config {["PATH" := "/usr/bin"]} ∅ ∅ ∅ ∅ [] example_limiter
          1000 5000 (mkMemoryUsage 104857600 52428800 73400320) 0 [].

Definition example_session : Session :=
  mkSession 7 7 0 "npx -y exa-mcp-server" ∅ 0.

Definition example_connection : Connection := mkConnection "s1" 7 0.

(** One session, its worker running and its stream open. *)
Definition live_state : Proxy :=
  mkProxy example_config {["PATH" := "/usr/bin"]} {["s1" := example_session]}
          {[0%nat := mkChild false false false false]} {[7%nat := mkResponse true true]}
          ∅ [] example_limiter 1000 5000 (mkMemoryUsage 104857600 52428800 73400320) 1 [].

Definition example_environment : Environment :=
  mkEnvironment "s2" true (mkChild false false false false) PostInvalid.

(** The line [{"a":"é"}] and its newline as the worker writes it, [é]
    being the two bytes C3 A9; and the same bytes cut between those two. *)
Definition whole_output : list Byte.byte :=
  [Byte.x7b; Byte.x22; Byte.x61; Byte.x22; Byte.x3a; Byte.x22;
   Byte.xc3; Byte.xa9; Byte.x22; Byte.x7d; Byte.x0a].
Definition first_chunk : list Byte.byte :=
  [Byte.x7b; Byte.x22; Byte.x61; Byte.x22; Byte.x3a; Byte.x22; Byte.xc3].
Definition second_chunk : list Byte.byte :=
  [Byte.xa9; Byte.x22; Byte.x7d; Byte.x0a].

(** The line [{"ok":true}] and its newline, cut inside the object. *)
Definition ok_chunks : list (list Byte.byte) :=
  [ [Byte.x7b; Byte.x22; Byte.x6f; Byte.x6b; Byte.x22; Byte.x3a; Byte.x74; Byte.x72];
    [Byte.x75; Byte.x65; Byte.x7d; Byte.x0a] ].

(** A post to the session [s1]. *)
Definition post_request : Request :=
  mkRequest "POST" "/npx%20-y%20exa-mcp-server/message?sessionId=s1"
            [("authorization", HString "Bearer 0123456789abcdef0123456789abcdef")]
            (Some "npx -y exa-mcp-server") (Some "s1") (Some "10.0.0.1") None false true 9.

Definition bearer : HeaderValue := HString "Bearer 0123456789abcdef0123456789abcdef".

(** Requests: a preflight with a wrong token; the health check, plain and
    with a query string; a stream for the command [constructor]; a stream
    for an allowed command with override headers. *)
Definition options_request : Request :=
  mkRequest "OPTIONS" "/npx%20-y%20exa-mcp-server/sse"
            [("authorization", HString "Bearer wrong")]
            None None (Some "10.0.0.9") None false true 8.
Definition health_request : Request :=
  mkRequest "GET" "/health" [] None None (Some "10.0.0.1") None false true 8.
Definition health_request_with_query : Request :=
  mkRequest "GET" "/health?verbose=1" [] None None (Some "10.0.0.1") None false true 8.
Definition inherited_name_request : Request :=
  mkRequest "GET" "/constructor/sse" [("authorization", bearer)]
            None None (Some "10.0.0.1") None false true 8.
Definition override_request : Request :=
  mkRequest "GET" "/npx%20-y%20exa-mcp-server/sse"
            [("authorization", bearer); ("env_path", HString "/evil");
             ("ENV_Api_Key", HString "k"); ("env_foo", HString "bar")]
            (Some "npx -y exa-mcp-server") None (Some "10.0.0.1") None false true 8.

(** A second session, registered later than the first, and a state with
    both at a time when only the first has been idle for over an hour. *)
Definition second_session : Session :=
  mkSession 9 9 1 "npx -y exa-mcp-server" ∅ 3000000.

Definition two_session_state : Proxy :=
  mkProxy example_config {["PATH" := "/usr/bin"]}
          (<["s3" := second_session]> {["s1" := example_session]})
          (<[1%nat := mkChild false false false false]>
             {[0%nat := mkChild false false false false]})
          (<[9%nat := mkResponse true true]> {[7%nat := mkResponse true true]})
          ∅ [] example_limiter 3700000 5000 (mkMemoryUsage 104857600 52428800 73400320) 2 [].

(** [live_state] with a limiter of one request per minute, which the
    address 10.0.0.1 has just used up. *)
Definition exhausted_state : Proxy :=
  set_rateLimiter
    (fun _ => snd (allow "10.0.0.1" 1000 (new_DefaultRateLimiter (mkRateLimitConfig 1 25) 0)))
    live_state.

(** Requests: a stream for a command that is not allowed; a stream whose
    command is percent-encoded twice; a post to an unknown session; the
    health check with a query string and credentials; a post that names
    another client in X-Forwarded-For. *)
Definition refused_command_request : Request :=
  mkRequest "GET" "/rm/sse" [("authorization", bearer)]
            (Some "rm") None (Some "10.0.0.1") None false true 8.
Definition twice_encoded_request : Request :=
  mkRequest "GET" "/npx%2520-y%2520exa-mcp-server/sse" [("authorization", bearer)]
            None None (Some "10.0.0.1") None false true 8.
Definition unknown_session_post : Request :=
  mkRequest "POST" "/x/message?sessionId=nope" [("authorization", bearer)]
            (Some "x") (Some "nope") (Some "10.0.0.1") None false true 9.
Definition authorised_health_request : Request :=
  mkRequest "GET" "/health?verbose=1" [("authorization", bearer)]
            None None (Some "10.0.0.1") None false true 8.
Definition forwarded_request : Request :=
  mkRequest "POST" "/x/message?sessionId=s1"
            [("authorization", bearer); ("x-forwarded-for", HString "203.0.113.9")]
            (Some "x") (Some "s1") (Some "10.0.0.1") None false true 9.

(** An environment with a port, a secret of 32 characters and a log
    level that is none of the four. *)
Definition example_env : gmap string string :=
  <["PORT" := "8080"]>
    (<["LOG_LEVEL" := "verbose"]> {["MAXIM_SECRET" := "0123456789abcdef0123456789abcdef"]}).

(** The two lines [[1]] and [[2]], each ended by CR LF, in one chunk. *)
Definition two_lines_chunk : list Byte.byte :=
  [Byte.x5b; Byte.x31; Byte.x5d; Byte.x0d; Byte.x0a;
   Byte.x5b; Byte.x32; Byte.x5d; Byte.x0d; Byte.x0a].

(* ===================================================================== *)
(** * Part II. Theorems                                                   *)
(* ===================================================================== *)

Ltac unfold_m :=
  unfold log, emit, when, try_catch, bind, ret, throw, get, modify in *.

(** ** Teardown *)

Section Teardown.

(** The four ways through [cleanupSession] for a registered session:
    signal already sent; process gone; signal refused; signal sent. *)
Lemma cleanupSession_cases st sid s :
  sessions st !! sid = Some s ->
  let c := childProcess s in
  let p := children st !!! c in
  cleanupSession sid st =
    (Ok tt,
     if killed p then
       set_sessions (delete sid) (set_trace (fun t => t ++ [EvRegistryDelete sid]) st)
     else if exited p then
       set_sessions (delete sid)
         (set_trace (fun t => t ++ [EvRegistryDelete sid])
            (set_timers (fun ts => ts ++ [(gracefulTimeout, ForceKill c)])
               (set_trace (fun t => t ++ [EvSetTimeout gracefulTimeout (ForceKill c)])
                  (set_trace (fun t => t ++ [EvKill c SIGTERM false]) st))))
     else if kill_fault p then
       set_sessions (delete sid)
         (set_trace (fun t => t ++ [EvRegistryDelete sid])
            (set_trace (fun t => t ++ [EvLog ERROR (LogKillError sid KillError)])
               (set_trace (fun t => t ++ [EvKillThrew c SIGTERM]) st)))
     else
       set_sessions (delete sid)
         (set_trace (fun t => t ++ [EvRegistryDelete sid])
            (set_timers (fun ts => ts ++ [(gracefulTimeout, ForceKill c)])
               (set_trace (fun t => t ++ [EvSetTimeout gracefulTimeout (ForceKill c)])
                  (set_trace (fun t => t ++ [EvKill c SIGTERM true])
                     (set_children
                        (insert c (mkChild (exited p) true (kill_fault p) (stdin_fault p)))
                        st)))))).
Proof.
  intros Hs c p. unfold cleanupSession, kill, setTimeout, registry_delete, get_child.
  rewrite Hs. unfold_m. subst p c.
  destruct (children st !!! childProcess s) as [e kd kf sf] eqn:Hp.
  destruct kd, e, kf; cbn -[lookup_total]; rewrite ?Hp; reflexivity.
Qed.

Lemma cleanupSession_absent st sid :
  sessions st !! sid = None -> cleanupSession sid st = (Ok tt, st).
Proof. intros H. unfold cleanupSession. now rewrite H. Qed.

Lemma cleanupSession_removes st sid :
  sessions (snd (cleanupSession sid st)) !! sid = None.
Proof.
  destruct (sessions st !! sid) as [s|] eqn:Hs.
  - rewrite (cleanupSession_cases _ _ _ Hs). cbn [snd].
    destruct (killed _); [|destruct (exited _); [|destruct (kill_fault _)]];
      cbn; apply lookup_delete_eq.
  - now rewrite cleanupSession_absent.
Qed.

Lemma cleanupSession_ok st sid : fst (cleanupSession sid st) = Ok tt.
Proof.
  destruct (sessions st !! sid) as [s|] eqn:Hs.
  - now rewrite (cleanupSession_cases _ _ _ Hs).
  - now rewrite cleanupSession_absent.
Qed.

Lemma fire_timer_sessions st : sessions (snd (fire_timer st)) = sessions st.
Proof.
  unfold fire_timer. destruct (timers st) as [|[ms [c]] rest]; [reflexivity|].
  unfold run_timer, kill, get_child. unfold_m. cbn -[lookup_total].
  destruct (children st !!! c) as [e kd kf sf] eqn:Hp.
  destruct kd, e, kf; cbn -[lookup_total]; rewrite ?Hp; reflexivity.
Qed.

(** Once [cleanupSession] has sent SIGTERM to a running worker, the timer
    it armed finds [killed] set and sends nothing. *)
Lemma force_kill_unreachable st sid s :
  sessions st !! sid = Some s ->
  let c := childProcess s in
  exited (children st !!! c) = false ->
  killed (children st !!! c) = false ->
  kill_fault (children st !!! c) = false ->
  let st1 := snd (cleanupSession sid st) in
  In (EvKill c SIGTERM true) (trace st1) /\
  run_timer (ForceKill c) st1 = (Ok tt, st1).
Proof.
  intros Hs c He Hk Hf st1. subst st1. rewrite (cleanupSession_cases _ _ _ Hs). fold c.
  rewrite Hk, He, Hf. cbn [snd]. split.
  - cbn. rewrite !in_app_iff. cbn. tauto.
  - unfold run_timer, kill, get_child. unfold_m. cbn -[lookup_total].
    rewrite lookup_total_insert_eq. reflexivity.
Qed.

End Teardown.

(** C1 (as amended).  For a registered session, teardown first asks the
    worker to terminate, when the worker's [killed] flag is not yet set (the
    call of [kill] with SIGTERM is its first step), and removes the
    session from the registry as its last step; the removal happens once;
    the stream handle is left as it was. *)
Theorem cleanupSession_signals_then_removes st sid s :
  sessions st !! sid = Some s ->
  let st' := snd (cleanupSession sid st) in
  let c := childProcess s in
  exists steps,
    trace st' = trace st ++ steps ++ [EvRegistryDelete sid] /\
    position (is_registry_delete sid) steps = None /\
    (killed (children st !!! c) = false -> position (is_sigterm_call c) steps = Some O) /\
    (killed (children st !!! c) = true -> steps = []) /\
    sessions st' = delete sid (sessions st) /\
    responses st' = responses st.
Proof.
  intros Hs st' c. subst st'. rewrite (cleanupSession_cases _ _ _ Hs). fold c.
  cbn [snd].
  destruct (children st !!! c) as [e kd kf sf].
  cbn [killed exited kill_fault].
  destruct kd; [|destruct e; [|destruct kf]].
  - exists []. cbn. repeat split; auto. discriminate.
  - exists [EvKill c SIGTERM false; EvSetTimeout gracefulTimeout (ForceKill c)].
    cbn. rewrite <- !app_assoc. cbn. rewrite Nat.eqb_refl. repeat split; auto; discriminate.
  - exists [EvKillThrew c SIGTERM; EvLog ERROR (LogKillError sid KillError)].
    cbn. rewrite <- !app_assoc. cbn. rewrite Nat.eqb_refl. repeat split; auto; discriminate.
  - exists [EvKill c SIGTERM true; EvSetTimeout gracefulTimeout (ForceKill c)].
    cbn. rewrite <- !app_assoc. cbn. rewrite Nat.eqb_refl. repeat split; auto; discriminate.
Qed.

Lemma cleanupSession_signals_then_removes_witness :
  exists steps,
    trace (snd (cleanupSession "s1" live_state))
      = trace live_state ++ steps ++ [EvRegistryDelete "s1"] /\
    position (is_sigterm_call 0) steps = Some O /\
    responses (snd (cleanupSession "s1" live_state)) = responses live_state.
Proof.
  destruct (cleanupSession_signals_then_removes live_state "s1" example_session eq_refl)
    as (steps & Ht & _ & Hk & _ & _ & Hr).
  exists steps. split; [exact Ht | split; [apply Hk; reflexivity | exact Hr]].
Defined.

(** C1 as stated fails.  With the session registered, its worker running
    and its stream open, teardown calls [kill] first and removes the
    session from the registry last, so the removal does not precede the
    request to terminate; and the stream is as open afterwards as before. *)
Lemma cleanupSession_order_counterexample :
  let st' := snd (cleanupSession "s1" live_state) in
  sessions live_state !! "s1" = Some example_session /\
  stream_open (responses live_state !!! 7%nat) = true /\
  trace st' = [EvKill 0 SIGTERM true;
               EvSetTimeout gracefulTimeout (ForceKill 0);
               EvRegistryDelete "s1"] /\
  precedes (is_registry_delete "s1") (is_sigterm_call 0) (trace st') = false /\
  precedes (is_sigterm_call 0) (is_registry_delete "s1") (trace st') = true /\
  stream_open (responses st' !!! 7%nat) = true.
Proof. vm_compute. repeat split; reflexivity. Qed.

(** C2, at a session whose worker keeps running after SIGTERM.  Teardown
    sends SIGTERM and arms the timer; when the timer fires after the grace
    period the worker has not exited, and still no SIGKILL is sent: the
    timer tests [killed], which the SIGTERM has set. *)
Theorem force_kill_skipped_after_sigterm :
  let st1 := snd (cleanupSession "s1" live_state) in
  let st2 := snd (fire_timer st1) in
  exited (children live_state !!! 0%nat) = false /\
  timers st1 = [(gracefulTimeout, ForceKill 0)] /\
  killed (children st1 !!! 0%nat) = true /\
  timers st2 = [] /\
  exited (children st2 !!! 0%nat) = false /\
  trace st2 = [EvKill 0 SIGTERM true;
               EvSetTimeout gracefulTimeout (ForceKill 0);
               EvRegistryDelete "s1"] /\
  position (is_force_kill 0) (trace st2) = None.
Proof. vm_compute. repeat split; reflexivity. Qed.

(** C3.  Teardown of an id that is not registered returns at once and
    changes nothing; teardown never throws; and a second teardown of the
    same id, at once or after the timer of the first has fired, changes
    nothing: no further signal, timer or fault. *)
Theorem cleanupSession_idempotent st sid :
  (sessions st !! sid = None -> cleanupSession sid st = (Ok tt, st)) /\
  fst (cleanupSession sid st) = Ok tt /\
  (let st1 := snd (cleanupSession sid st) in
   cleanupSession sid st1 = (Ok tt, st1)) /\
  (let st2 := snd (fire_timer (snd (cleanupSession sid st))) in
   cleanupSession sid st2 = (Ok tt, st2)).
Proof.
  split; [apply cleanupSession_absent|].
  split; [apply cleanupSession_ok|].
  split; cbv zeta; apply cleanupSession_absent.
  - apply cleanupSession_removes.
  - rewrite fire_timer_sessions. apply cleanupSession_removes.
Qed.

Lemma cleanupSession_idempotent_witness :
  cleanupSession "s2" live_state = (Ok tt, live_state) /\
  cleanupSession "s1" (snd (cleanupSession "s1" live_state))
    = (Ok tt, snd (cleanupSession "s1" live_state)).
Proof.
  destruct (cleanupSession_idempotent live_state "s2") as (H1 & _).
  destruct (cleanupSession_idempotent live_state "s1") as (_ & _ & H3 & _).
  split; [apply H1; reflexivity | exact H3].
Defined.

(** Every trigger converges on [cleanupSession]: once the session is gone
    from the registry, a further trigger signals no process and arms no
    timer. *)
Lemma trigger_after_teardown k ev st :
  is_teardown_trigger ev = true ->
  sessions st !! conn_sessionId k = None ->
  let st' := snd (on_event k ev st) in
  fst (on_event k ev st) = Ok tt /\
  children st' = children st /\
  timers st' = timers st /\
  sessions st' = sessions st.
Proof.
  intros Hev Habs.
  destruct ev; try discriminate; cbn [on_event];
    unfold childProcess_on_error, sseTransport_onclose, sseTransport_onerror, req_on_close;
    unfold_m; cbn -[cleanupSession];
    rewrite cleanupSession_absent by exact Habs; repeat split; reflexivity.
Qed.

(** ** Rate limiting *)

Ltac proj :=
  cbn [bucketSize tokensPerInterval interval content lastDrip tokenBucket
       curIntervalStart tokensThisInterval limiter lastUsed fst snd].

(** One token asked of a bucket of size and rate [R] per minute. *)
Lemma bucket_tryRemoveTokens_one R now ct ld :
  1 <= R ->
  bucket_tryRemoveTokens 1 now (mkBucket R R MINUTE ct ld) =
    let c := Z.min (ct + Z.max (now - ld) 0 * R) (R * MINUTE) in
    if MINUTE <=? c then (true, mkBucket R R MINUTE (c - MINUTE) now)
    else (false, mkBucket R R MINUTE c now).
Proof.
  intros HR. unfold bucket_tryRemoveTokens, drip. proj.
  destruct (Z.eqb_spec R 0); [lia|].
  rewrite Z.gtb_ltb. destruct (Z.ltb_spec R 1); [lia|]. proj.
  rewrite Z.gtb_ltb, Z.mul_1_l. cbv zeta.
  destruct (Z.ltb_spec (Z.min (ct + Z.max (now - ld) 0 * R) (R * MINUTE)) MINUTE);
    destruct (Z.leb_spec MINUTE (Z.min (ct + Z.max (now - ld) 0 * R) (R * MINUTE)));
    try lia; reflexivity.
Qed.

Lemma tryRemoveTokens_one R now ct ld cis tti :
  1 <= R ->
  tryRemoveTokens 1 now (mkRateLimiter (mkBucket R R MINUTE ct ld) cis tti) =
    let reset := (now <? cis) || (MINUTE <=? now - cis) in
    let cis' := if reset then now else cis in
    let tti' := if reset then 0 else tti in
    if R - tti' <? 1 then (false, mkRateLimiter (mkBucket R R MINUTE ct ld) cis' tti')
    else
      let c := Z.min (ct + Z.max (now - ld) 0 * R) (R * MINUTE) in
      if MINUTE <=? c
      then (true, mkRateLimiter (mkBucket R R MINUTE (c - MINUTE) now) cis' (tti' + 1))
      else (false, mkRateLimiter (mkBucket R R MINUTE c now) cis' tti').
Proof.
  intros HR. unfold tryRemoveTokens. proj.
  rewrite Z.gtb_ltb. destruct (Z.ltb_spec R 1); [lia|].
  rewrite Z.geb_leb. cbv zeta.
  destruct ((now <? cis) || (MINUTE <=? now - cis)); proj;
    rewrite Z.gtb_ltb;
    match goal with |- context [?a <? 1] => destruct (Z.ltb_spec a 1) end;
    try reflexivity;
    rewrite (bucket_tryRemoveTokens_one _ _ _ _ HR); cbv zeta;
    destruct (MINUTE <=? _); reflexivity.
Qed.

Lemma allow_unfold i t rl :
  allow i t rl =
    let rl1 := cleanupStaleVisitors t rl in
    let l := match visitors rl1 !! i with
             | Some v => limiter v
             | None => new_RateLimiter (requestsPerMinute rl1) t
             end in
    (fst (tryRemoveTokens 1 t l),
     set_visitor i (mkVisitor (snd (tryRemoveTokens 1 t l)) t)
       (set_visitor i (mkVisitor l t) rl1)).
Proof.
  unfold allow, getVisitor, visitor_allow. cbv zeta.
  destruct (visitors (cleanupStaleVisitors t rl) !! i); cbn [limiter lastUsed];
    destruct (tryRemoveTokens _ _ _); reflexivity.
Qed.

Lemma cleanup_params t rl :
  requestsPerMinute (cleanupStaleVisitors t rl) = requestsPerMinute rl /\
  visitorTimeout (cleanupStaleVisitors t rl) = visitorTimeout rl.
Proof. unfold cleanupStaleVisitors. destruct (_ <? _); split; reflexivity. Qed.

Lemma allow_params i t rl :
  requestsPerMinute (snd (allow i t rl)) = requestsPerMinute rl /\
  visitorTimeout (snd (allow i t rl)) = visitorTimeout rl.
Proof. rewrite allow_unfold. cbn. apply cleanup_params. Qed.

Lemma cleanup_absent ip t rl :
  visitors rl !! ip = None -> visitors (cleanupStaleVisitors t rl) !! ip = None.
Proof.
  intros Hv. unfold cleanupStaleVisitors. destruct (_ <? _); [exact Hv|]. cbn [visitors].
  apply map_lookup_filter_None. left. exact Hv.
Qed.

Lemma serve_cons i t reqs rl :
  serve ((i, t) :: reqs) rl =
    ((i, fst (allow i t rl)) :: fst (serve reqs (snd (allow i t rl))),
     snd (serve reqs (snd (allow i t rl)))).
Proof.
  cbn [serve]. destruct (allow i t rl) as [ok rl1]. cbn [fst snd].
  destruct (serve reqs rl1); reflexivity.
Qed.

Lemma timed_decisions_serve_cons ip i t reqs rl :
  timed_decisions ip ((i, t) :: reqs) (fst (serve ((i, t) :: reqs) rl)) =
    let rest := timed_decisions ip reqs (fst (serve reqs (snd (allow i t rl)))) in
    if decide (i = ip) then (t, fst (allow i t rl)) :: rest else rest.
Proof.
  rewrite serve_cons. cbn [fst snd]. unfold timed_decisions. cbn [zip zip_with].
  rewrite filter_cons. cbn [fst snd].
  destruct (decide (i = ip)); reflexivity.
Qed.

Lemma ordered_from_le T T' ts : T' <= T -> ordered_from T ts -> ordered_from T' ts.
Proof. destruct ts as [|t ts]; cbn; [tauto|]. intros ? [? ?]. split; [lia|assumption]. Qed.

Lemma timed_decisions_not_before ip reqs : forall rl T j tj dj,
  ordered_from T (map snd reqs) ->
  timed_decisions ip reqs (fst (serve reqs rl)) !! j = Some (tj, dj) -> T <= tj.
Proof.
  induction reqs as [|[i t] reqs IH]; intros rl T j tj dj Hord.
  - cbn. rewrite lookup_nil. discriminate.
  - cbn [map snd ordered_from] in Hord. destruct Hord as [HT Hord].
    rewrite timed_decisions_serve_cons. cbv zeta.
    assert (Hrest : forall j, timed_decisions ip reqs (fst (serve reqs (snd (allow i t rl)))) !! j
                              = Some (tj, dj) -> T <= tj).
    { intros j' Hj'. eapply IH; [|exact Hj'].
      apply (ordered_from_le t); [exact HT | exact Hord]. }
    destruct (decide (i = ip)); [|apply Hrest].
    destruct j as [|j]; cbn [lookup list_lookup]; [|apply Hrest].
    intros [= <- _]. exact HT.
Qed.

Section RateLimitWindow.
Variables (ip : string) (R t0 timeout : Z).
Hypothesis HR : 1 <= R.
Hypothesis Htimeout : MINUTE <= timeout.

(** A visitor used since [t0] is not purged before the window ends. *)
Lemma cleanup_keeps t rl v :
  visitorTimeout rl = timeout ->
  visitors rl !! ip = Some v -> t0 <= lastUsed v -> t < t0 + MINUTE ->
  visitors (cleanupStaleVisitors t rl) !! ip = Some v.
Proof.
  intros Hto Hv Hu Ht. unfold cleanupStaleVisitors.
  destruct (_ <? _); [exact Hv|]. cbn [visitors].
  apply map_lookup_filter_Some. split; [exact Hv|]. cbn [snd]. lia.
Qed.

Lemma allow_first t rl :
  requestsPerMinute rl = R -> visitors rl !! ip = None ->
  fst (allow ip t rl) = true /\
  visitors (snd (allow ip t rl)) !! ip =
    Some (mkVisitor (mkRateLimiter (mkBucket R R MINUTE (R * MINUTE - MINUTE) t) t 1) t).
Proof.
  intros HRl Hv. rewrite allow_unfold. cbv zeta.
  rewrite (cleanup_absent _ _ _ Hv). destruct (cleanup_params t rl) as [-> _].
  rewrite HRl. unfold new_RateLimiter. rewrite (tryRemoveTokens_one _ _ _ _ _ _ HR).
  cbv zeta. replace (t - t) with 0 by lia. rewrite Z.ltb_irrefl.
  replace (MINUTE <=? 0) with false by reflexivity. cbn [orb].
  destruct (Z.ltb_spec (R - 0) 1); [lia|].
  replace (Z.min (R * MINUTE + Z.max 0 0 * R) (R * MINUTE)) with (R * MINUTE) by lia.
  destruct (Z.leb_spec MINUTE (R * MINUTE)); [|unfold MINUTE in *; lia].
  cbn [fst snd]. split; [reflexivity|]. apply lookup_insert_eq.
Qed.

Lemma allow_same k t rl :
  limiter_inv ip R t0 timeout (S k) rl -> t0 <= t < t0 + MINUTE ->
  fst (allow ip t rl) = (Z.of_nat (S k) <? R) /\
  limiter_inv ip R t0 timeout (S (S k)) (snd (allow ip t rl)).
Proof.
  intros (HRl & Hto & v & Hv & ct & ld & lu & -> & Hct & Hct0 & Hld & Hlu) Ht.
  rewrite allow_unfold. cbv zeta.
  rewrite (cleanup_keeps t rl _ Hto Hv Hlu (proj2 Ht)).
  cbn [limiter]. rewrite (tryRemoveTokens_one _ _ _ _ _ _ HR). cbv zeta.
  destruct (Z.ltb_spec t t0); [lia|].
  destruct (Z.leb_spec MINUTE (t - t0)); [lia|]. cbn [orb].
  unfold limiter_inv, visitor_inv.
  destruct (cleanup_params t rl) as [Hp1 Hp2].
  destruct (Z.ltb_spec (R - Z.min (Z.of_nat (S k)) R) 1);
    destruct (Z.ltb_spec (Z.of_nat (S k)) R); try lia.
  - cbn [fst snd]. split; [reflexivity|].
    split; [cbn [requestsPerMinute set_visitor]; congruence|].
    split; [cbn [visitorTimeout set_visitor]; congruence|].
    eexists. split; [apply lookup_insert_eq|].
    exists ct, ld, t. split; [f_equal; f_equal; lia|]. repeat split; lia.
  - destruct (Z.leb_spec MINUTE (Z.min (ct + Z.max (t - ld) 0 * R) (R * MINUTE))); [|nia].
    cbn [fst snd]. split; [reflexivity|].
    split; [cbn [requestsPerMinute set_visitor]; congruence|].
    split; [cbn [visitorTimeout set_visitor]; congruence|].
    eexists. split; [apply lookup_insert_eq|].
    eexists _, t, t. split; [f_equal; f_equal; lia|]. repeat split; try lia; nia.
Qed.

(** The requests of other identities leave the bucket of [ip] alone. *)
Lemma allow_other k i t rl :
  i <> ip -> limiter_inv ip R t0 timeout (S k) rl -> t < t0 + MINUTE ->
  limiter_inv ip R t0 timeout (S k) (snd (allow i t rl)).
Proof.
  intros Hi (HRl & Hto & v & Hv & Hinv) Ht.
  rewrite allow_unfold. cbv zeta. cbn [snd].
  destruct (cleanup_params t rl) as [Hp1 Hp2].
  split; [cbn [requestsPerMinute set_visitor]; congruence|].
  split; [cbn [visitorTimeout set_visitor]; congruence|].
  exists v. split; [|exact Hinv].
  cbn [visitors set_visitor]. rewrite !lookup_insert_ne by congruence.
  destruct Hinv as (ct & ld & lu & -> & _ & _ & _ & Hlu).
  apply (cleanup_keeps t rl _ Hto Hv); [exact Hlu | exact Ht].
Qed.

Lemma serve_window_timed reqs : forall k rl,
  limiter_inv ip R t0 timeout (S k) rl ->
  ordered_from t0 (map snd reqs) ->
  forall j tj dj,
    timed_decisions ip reqs (fst (serve reqs rl)) !! j = Some (tj, dj) ->
    tj < t0 + MINUTE -> dj = (Z.of_nat (S k + j) <? R).
Proof.
  induction reqs as [|[i t] reqs IH]; intros k rl Hinv Hord j tj dj.
  - cbn. rewrite lookup_nil. discriminate.
  - cbn [map snd ordered_from] in Hord. destruct Hord as [Ht0 Hord].
    destruct (Z.lt_ge_cases t (t0 + MINUTE)) as [Hin|Hout].
    + assert (Hord' : ordered_from t0 (map snd reqs))
        by (apply (ordered_from_le t); assumption).
      rewrite timed_decisions_serve_cons. cbv zeta.
      destruct (decide (i = ip)) as [->|Hne].
      * destruct (allow_same k t rl Hinv (conj Ht0 Hin))
          as [Hd Hinv'].
        destruct j as [|j]; cbn [lookup list_lookup].
        -- intros [= <- <-] _. rewrite Hd. f_equal. lia.
        -- intros Hj Htj. rewrite (IH (S k) _ Hinv' Hord' j tj dj Hj Htj). f_equal. lia.
      * apply (IH k); [|exact Hord'].
        apply allow_other; [exact Hne | exact Hinv | exact Hin].
    + intros Hj Htj.
      pose proof (timed_decisions_not_before ip ((i, t) :: reqs) rl t j tj dj) as Hb.
      cbn [map snd ordered_from] in Hb. specialize (Hb (conj (Z.le_refl t) Hord) Hj). lia.
Qed.

End RateLimitWindow.

Section Tracking.
Variables (ip : string) (R timeout : Z).
Hypothesis HR : 1 <= R.
Hypothesis Htimeout : MINUTE <= timeout.

(** The visitor of [ip] after the purge that a request at [t] may run. *)
Lemma cleanup_cases t rl v :
  visitorTimeout rl = timeout ->
  visitors rl !! ip = Some v ->
  visitors (cleanupStaleVisitors t rl) !! ip = Some v \/
  (visitors (cleanupStaleVisitors t rl) !! ip = None /\ MINUTE < t - lastUsed v).
Proof.
  intros Hto Hv. unfold cleanupStaleVisitors. destruct (_ <? _); [left; exact Hv|].
  cbn [visitors].
  destruct (decide (t - lastUsed v <= visitorTimeout rl)) as [Hk|Hk].
  - left. apply map_lookup_filter_Some. split; [exact Hv | exact Hk].
  - right. split; [|lia]. apply map_lookup_filter_None. right.
    intros v' Hv'. rewrite Hv in Hv'. injection Hv' as <-. exact Hk.
Qed.

(** A request of a new or purged identity. *)
Lemma allow_absent t rl :
  requestsPerMinute rl = R ->
  visitors (cleanupStaleVisitors t rl) !! ip = None ->
  fst (allow ip t rl) = true /\
  visitors (snd (allow ip t rl)) !! ip =
    Some (mkVisitor (mkRateLimiter (mkBucket R R MINUTE (R * MINUTE - MINUTE) t) t 1) t).
Proof.
  intros HRl Hv. rewrite allow_unfold. cbv zeta. rewrite Hv.
  destruct (cleanup_params t rl) as [-> _].
  rewrite HRl. unfold new_RateLimiter. rewrite (tryRemoveTokens_one _ _ _ _ _ _ HR).
  cbv zeta. replace (t - t) with 0 by lia. rewrite Z.ltb_irrefl.
  replace (MINUTE <=? 0) with false by reflexivity. cbn [orb].
  destruct (Z.ltb_spec (R - 0) 1); [lia|].
  replace (Z.min (R * MINUTE + Z.max 0 0 * R) (R * MINUTE)) with (R * MINUTE) by lia.
  destruct (Z.leb_spec MINUTE (R * MINUTE)); [|unfold MINUTE in *; lia].
  cbn [fst snd]. split; [reflexivity|]. apply lookup_insert_eq.
Qed.

(** A request of [ip] is refused once [R] of its requests have been
    allowed in its window, and the limiter follows the window. *)
Lemma allow_tracks T g t rl :
  tracks ip R timeout T g rl -> T <= t ->
  let d := fst (allow ip t rl) in
  (R <= window_count g t -> d = false) /\
  tracks ip R timeout t (next_window g t d) (snd (allow ip t rl)).
Proof.
  intros (HRl & Hto & Hg) Ht d.
  destruct (allow_params ip t rl) as [Hp1 Hp2].
  assert (Hfresh : visitors (cleanupStaleVisitors t rl) !! ip = None ->
                   d = true /\
                   tracks ip R timeout t (Some (t, 1, t)) (snd (allow ip t rl))).
  { intros Hv. destruct (allow_absent t rl HRl Hv) as [Hd Hv'].
    split; [exact Hd|]. split; [congruence|]. split; [congruence|].
    split; [lia|]. split; [lia|]. split; [lia|]. right.
    exists (R * MINUTE - MINUTE), t. split; [exact Hv'|]. unfold MINUTE in *. lia. }
  destruct g as [[[s k] last]|]; unfold next_window; cbn [window_open window_count].
  - destruct Hg as (Hs & Hlast & Hk & [[Hv Hgone]|(ct & ld & Hv & Hct & Hld)]).
    + (* purged before *)
      destruct (Hfresh (cleanup_absent _ _ _ Hv)) as [Hd Htr].
      destruct (Z.ltb_spec (t - s) MINUTE); [lia|]. fold d. rewrite Hd.
      split; [lia | exact Htr].
    + destruct (cleanup_cases t rl _ Hto Hv) as [Hkeep|[Hpurged Hold]].
      * (* the stored visitor *)
        subst d. rewrite allow_unfold. cbv zeta. rewrite Hkeep. cbn [limiter fst snd].
        rewrite (tryRemoveTokens_one _ _ _ _ _ _ HR). cbv zeta.
        destruct (Z.ltb_spec t s); [lia|]. cbn [orb].
        assert (Hparams :
          requestsPerMinute (cleanupStaleVisitors t rl) = R /\
          visitorTimeout (cleanupStaleVisitors t rl) = timeout)
          by (destruct (cleanup_params t rl); split; congruence).
        destruct (Z.ltb_spec (t - s) MINUTE) as [Hwin|Hnew];
          destruct (Z.leb_spec MINUTE (t - s)); try lia.
        -- destruct (Z.ltb_spec (R - k) 1) as [Hfull|Hroom]; cbn [fst snd].
           ++ split; [reflexivity|].
              split; [cbn; tauto|]. split; [cbn; tauto|].
              split; [lia|]. split; [lia|]. split; [lia|]. right.
              exists ct, ld. split; [apply lookup_insert_eq|]. lia.
           ++ destruct (Z.leb_spec MINUTE (Z.min (ct + Z.max (t - ld) 0 * R) (R * MINUTE)));
                cbn [fst snd].
              ** split; [lia|].
                 split; [cbn; tauto|]. split; [cbn; tauto|].
                 split; [lia|]. split; [lia|]. split; [lia|]. right.
                 eexists _, t. split; [apply lookup_insert_eq|]. lia.
              ** split; [reflexivity|].
                 split; [cbn; tauto|]. split; [cbn; tauto|].
                 split; [lia|]. split; [lia|]. split; [lia|]. right.
                 eexists _, t. split; [apply lookup_insert_eq|].
                 assert (0 <= Z.max (t - ld) 0 * R) by (apply Z.mul_nonneg_nonneg; lia).
                 unfold MINUTE in *. lia.
        -- destruct (Z.ltb_spec (R - 0) 1) as [Hfull|Hroom]; [lia|].
           destruct (Z.leb_spec MINUTE (Z.min (ct + Z.max (t - ld) 0 * R) (R * MINUTE)));
             cbn [fst snd].
           ** split; [lia|].
              split; [cbn; tauto|]. split; [cbn; tauto|].
              split; [lia|]. split; [lia|]. split; [lia|]. right.
              eexists _, t. split; [apply lookup_insert_eq|]. lia.
           ** split; [reflexivity|].
              split; [cbn; tauto|]. split; [cbn; tauto|].
              split; [lia|]. split; [lia|]. split; [lia|]. right.
              eexists _, t. split; [apply lookup_insert_eq|].
                 assert (0 <= Z.max (t - ld) 0 * R) by (apply Z.mul_nonneg_nonneg; lia).
                 unfold MINUTE in *. lia.
      * (* purged by this request *)
        cbn [lastUsed] in Hold.
        destruct (Hfresh Hpurged) as [Hd Htr].
        destruct (Z.ltb_spec (t - s) MINUTE); [lia|]. fold d. rewrite Hd.
        split; [lia | exact Htr].
  - destruct (Hfresh (cleanup_absent _ _ _ Hg)) as [Hd Htr].
    fold d. rewrite Hd. split; [lia | exact Htr].
Qed.

(** A request of [ip] after a quiet minute finds the bucket full and
    opens a window. *)
Lemma allow_quiet T g t rl :
  tracks ip R timeout T g rl -> T <= t ->
  match g with Some (_, _, last) => MINUTE <= t - last | None => True end ->
  fst (allow ip t rl) = true /\
  limiter_inv ip R t timeout 1 (snd (allow ip t rl)).
Proof.
  intros (HRl & Hto & Hg) Ht Hquiet.
  destruct (allow_params ip t rl) as [Hp1 Hp2].
  assert (Hopen : forall ct,
    visitors (snd (allow ip t rl)) !! ip =
      Some (mkVisitor (mkRateLimiter (mkBucket R R MINUTE ct t) t 1) t) ->
    ct = R * MINUTE - MINUTE ->
    limiter_inv ip R t timeout 1 (snd (allow ip t rl))).
  { intros ct Hv ->. split; [congruence|]. split; [congruence|].
    eexists. split; [exact Hv|].
    exists (R * MINUTE - MINUTE), t, t. unfold MINUTE in *.
    split; [f_equal; f_equal; lia|]. repeat split; lia. }
  assert (Hfresh : visitors (cleanupStaleVisitors t rl) !! ip = None ->
                   fst (allow ip t rl) = true /\
                   limiter_inv ip R t timeout 1 (snd (allow ip t rl))).
  { intros Hv. destruct (allow_absent t rl HRl Hv) as [Hd Hv'].
    split; [exact Hd|]. apply (Hopen _ Hv' eq_refl). }
  destruct g as [[[s k] last]|].
  - destruct Hg as (Hs & Hlast & Hk & [[Hv Hgone]|(ct & ld & Hv & Hct & Hld)]).
    + apply Hfresh, cleanup_absent, Hv.
    + destruct (cleanup_cases t rl _ Hto Hv) as [Hkeep|[Hpurged Hold]];
        [|apply Hfresh, Hpurged].
      assert (Hfull : Z.min (ct + Z.max (t - ld) 0 * R) (R * MINUTE) = R * MINUTE).
      { apply Z.min_r.
        assert (MINUTE * R <= Z.max (t - ld) 0 * R)
          by (apply Z.mul_le_mono_nonneg_r; lia).
        lia. }
      assert (Hstep :
        tryRemoveTokens 1 t (mkRateLimiter (mkBucket R R MINUTE ct ld) s k) =
          (true, mkRateLimiter (mkBucket R R MINUTE (R * MINUTE - MINUTE) t) t 1)).
      { rewrite (tryRemoveTokens_one _ _ _ _ _ _ HR). cbv zeta.
        destruct (Z.leb_spec MINUTE (t - s)); [|lia]. rewrite orb_true_r.
        destruct (Z.ltb_spec (R - 0) 1); [lia|]. rewrite Hfull.
        destruct (Z.leb_spec MINUTE (R * MINUTE)); [|unfold MINUTE in *; lia].
        reflexivity. }
      rewrite allow_unfold in *. cbv zeta in *. rewrite Hkeep in *.
      cbn [limiter] in *. rewrite Hstep in *. cbn [fst snd] in *.
      split; [reflexivity|]. apply (Hopen (R * MINUTE - MINUTE)); [|reflexivity].
      apply lookup_insert_eq.
  - apply Hfresh, cleanup_absent, Hg.
Qed.

(** The requests of other identities leave the window of [ip] alone. *)
Lemma allow_other_tracks T g i t rl :
  i <> ip -> tracks ip R timeout T g rl -> T <= t ->
  tracks ip R timeout t g (snd (allow i t rl)).
Proof.
  intros Hi (HRl & Hto & Hg) Ht.
  destruct (allow_params i t rl) as [Hp1 Hp2].
  split; [congruence|]. split; [congruence|].
  assert (Hsame : visitors (snd (allow i t rl)) !! ip
                  = visitors (cleanupStaleVisitors t rl) !! ip).
  { rewrite allow_unfold. cbv zeta. cbn [snd visitors set_visitor].
    rewrite !lookup_insert_ne by congruence. reflexivity. }
  rewrite Hsame.
  destruct g as [[[s k] last]|]; [|apply cleanup_absent, Hg].
  destruct Hg as (Hs & Hlast & Hk & [[Hv Hgone]|(ct & ld & Hv & Hct & Hld)]).
  - split; [lia|]. split; [lia|]. split; [lia|]. left.
    split; [apply cleanup_absent, Hv | lia].
  - split; [lia|]. split; [lia|]. split; [lia|].
    destruct (cleanup_cases t rl _ Hto Hv) as [Hkeep|[Hpurged Hold]].
    + right. exists ct, ld. split; [exact Hkeep|]. lia.
    + left. split; [exact Hpurged | exact Hold].
Qed.

Lemma windowed_cons g t d rest :
  windowed (window_start g) (window_allowed g) ((t, d) :: rest) =
    (window_count g t, d)
      :: windowed (window_start (next_window g t d)) (window_allowed (next_window g t d)) rest.
Proof. destruct g as [[[s k] last]|]; reflexivity. Qed.

(** In every window, once [R] requests of [ip] have been allowed the
    following ones are refused. *)
Lemma serve_tracks reqs : forall T g rl,
  tracks ip R timeout T g rl ->
  ordered_from T (map snd reqs) ->
  forall k d,
    In (k, d) (windowed (window_start g) (window_allowed g)
                 (timed_decisions ip reqs (fst (serve reqs rl)))) ->
    R <= k -> d = false.
Proof.
  induction reqs as [|[i t] reqs IH]; intros T g rl Htr Hord k d.
  - cbn. tauto.
  - cbn [map snd ordered_from] in Hord. destruct Hord as [HT Hord].
    rewrite timed_decisions_serve_cons. cbv zeta.
    destruct (decide (i = ip)) as [->|Hne].
    + destruct (allow_tracks T g t rl Htr HT) as [Hfull Htr'].
      rewrite windowed_cons. intros [[= <- <-]|Hin].
      * exact Hfull.
      * apply (IH t _ _ Htr' Hord k d Hin).
    + apply (IH t g); [|exact Hord].
      apply (allow_other_tracks T); assumption.
Qed.

(** A request of [ip] after a quiet minute is allowed, and of the
    requests in the minute that starts with it exactly the first [R]
    are. *)
Lemma serve_quiet reqs : forall T g rl,
  tracks ip R timeout T g rl ->
  ordered_from T (map snd reqs) ->
  let mine := timed_decisions ip reqs (fst (serve reqs rl)) in
  forall i ti di,
    mine !! i = Some (ti, di) ->
    (match i with
     | O => match g with Some (_, _, last) => MINUTE <= ti - last | None => True end
     | S i' => exists tp dp, mine !! i' = Some (tp, dp) /\ MINUTE <= ti - tp
     end) ->
    forall j tj dj,
      mine !! (i + j)%nat = Some (tj, dj) -> tj < ti + MINUTE ->
      dj = (Z.of_nat j <? R).
Proof.
  induction reqs as [|[i0 t] reqs IH]; intros T g rl Htr Hord mine; subst mine.
  - intros i ti di. cbn. rewrite lookup_nil. discriminate.
  - cbn [map snd ordered_from] in Hord. destruct Hord as [HT Hord].
    rewrite timed_decisions_serve_cons. cbv zeta.
    destruct (decide (i0 = ip)) as [->|Hne].
    + destruct (allow_tracks T g t rl Htr HT) as [_ Htr'].
      intros [|i] ti di; cbn [lookup list_lookup].
      * intros [= <- <-] Hquiet j tj dj.
        destruct (allow_quiet T g t rl Htr HT Hquiet) as [Hd Hinv].
        destruct j as [|j]; cbn [Nat.add lookup list_lookup].
        -- intros [= <- <-] _. rewrite Hd. symmetry. apply Z.ltb_lt. cbn. lia.
        -- intros Hj Htj.
           rewrite (serve_window_timed ip R t timeout HR Htimeout reqs 0%nat _ Hinv Hord
                      j tj dj Hj Htj).
           f_equal.
      * intros Hi Hquiet j tj dj. cbn [Nat.add lookup list_lookup].
        apply (IH t _ _ Htr' Hord i ti di Hi).
        destruct i as [|i]; [|exact Hquiet].
        destruct Hquiet as (tp & dp & [= <- <-] & Hgap). unfold next_window. exact Hgap.
    + apply (IH t g); [|exact Hord].
      apply (allow_other_tracks T); assumption.
Qed.

End Tracking.

(** C8.  [rl] is a limiter with a rate [R] of at least one request per
    minute that keeps its visitors for at least a minute, [ip] an identity
    it does not know, and [reqs] any requests, of any identities, served
    in the order of their times; [mine] are those of [ip] with their
    decisions.  In every window of [ip], the first and the later ones
    alike, a request that finds [R] requests already allowed in the
    window is refused: after [R] allowed requests, request [R+1] is
    rejected.  And a request of [ip] that follows a quiet minute (its
    first request, or one made a minute or more after the one before) is
    allowed, and of the requests of [ip] in the minute that starts with it
    exactly the first [R] are: the initial allowance is there at once,
    and it is there again after a minute without requests. *)
Theorem rate_limit_window rl ip reqs :
  1 <= requestsPerMinute rl ->
  MINUTE <= visitorTimeout rl ->
  visitors rl !! ip = None ->
  in_time_order (map snd reqs) ->
  let R := requestsPerMinute rl in
  let mine := timed_decisions ip reqs (fst (serve reqs rl)) in
  (forall k d, In (k, d) (windowed None 0 mine) -> R <= k -> d = false) /\
  (forall i ti di,
     mine !! i = Some (ti, di) -> after_quiet_minute mine i ti ->
     forall j tj dj,
       mine !! (i + j)%nat = Some (tj, dj) -> tj < ti + MINUTE ->
       dj = (Z.of_nat j <? R)).
Proof.
  intros HR Hto Hnew Hord R mine.
  assert (Htr : forall T, tracks ip R (visitorTimeout rl) T None rl)
    by (intros T; split; [reflexivity|]; split; [reflexivity | exact Hnew]).
  assert (Hord' : exists T, ordered_from T (map snd reqs)).
  { destruct reqs as [|[i t] reqs]; [exists 0; exact I|].
    exists t. cbn [map snd in_time_order ordered_from] in *. split; [lia | exact Hord]. }
  destruct Hord' as [T HT]. split.
  - apply (serve_tracks ip R (visitorTimeout rl) HR Hto reqs T None rl (Htr T) HT).
  - intros i ti di Hi Hquiet.
    apply (serve_quiet ip R (visitorTimeout rl) HR Hto reqs T None rl (Htr T) HT i ti di Hi).
    destruct i; [exact I | exact Hquiet].
Qed.

Lemma rate_limit_window_witness :
  let rl := new_DefaultRateLimiter (mkRateLimitConfig 2 25) 0 in
  let reqs := [("a", 10); ("a", 20); ("b", 25); ("a", 30); ("a", 59000);
               ("a", 60010); ("a", 60020); ("a", 60030); ("a", 200000)] in
  let mine := timed_decisions "a" reqs (fst (serve reqs rl)) in
  mine = [(10, true); (20, true); (30, false); (59000, false);
          (60010, true); (60020, true); (60030, false); (200000, true)] /\
  windowed None 0 mine = [(0, true); (1, true); (2, false); (2, false);
                          (0, true); (1, true); (2, false); (0, true)] /\
  (forall k d, In (k, d) (windowed None 0 mine) -> 2 <= k -> d = false) /\
  (forall i ti di,
     mine !! i = Some (ti, di) -> after_quiet_minute mine i ti ->
     forall j tj dj,
       mine !! (i + j)%nat = Some (tj, dj) -> tj < ti + MINUTE ->
       dj = (Z.of_nat j <? 2)).
Proof.
  split; [vm_compute; reflexivity|]. split; [vm_compute; reflexivity|].
  apply (rate_limit_window (new_DefaultRateLimiter (mkRateLimitConfig 2 25) 0) "a"
           [("a", 10); ("a", 20); ("b", 25); ("a", 30); ("a", 59000);
            ("a", 60010); ("a", 60020); ("a", 60030); ("a", 200000)]).
  - vm_compute. discriminate.
  - vm_compute. discriminate.
  - reflexivity.
  - cbn. lia.
Defined.

(** On a limiter of two requests per minute: the third request within
    the minute is refused, and one made two minutes later passes. *)
Example rate_limit_two_per_minute :
  let rl := new_DefaultRateLimiter (mkRateLimitConfig 2 25) 0 in
  let result := serve [("a", 10); ("a", 20); ("b", 25); ("a", 30); ("a", 59000)] rl in
  fst result = [("a", true); ("a", true); ("b", true); ("a", false); ("a", false)] /\
  fst (allow "a" 120010 (snd result)) = true.
Proof. vm_compute. split; reflexivity. Qed.

(** ** Reassembly of the worker's output *)

Lemma strip_cr_snoc cur : strip_cr (cur ++ [CR]) = cur.
Proof. unfold strip_cr. rewrite rev_unit. cbn. apply rev_involutive. Qed.

Lemma strip_cr_id cur : ends_with_cr cur = false -> strip_cr cur = cur.
Proof.
  unfold strip_cr, ends_with_cr. destruct (rev cur); [reflexivity|].
  intros ->. reflexivity.
Qed.

Lemma ends_with_cr_snoc cur c : ends_with_cr (cur ++ [c]) = (c =? CR)%N.
Proof. unfold ends_with_cr. rewrite rev_unit. reflexivity. Qed.

Lemma split_crlf_aux_lf s : forall cur,
  ends_with_cr cur = false \/ starts_with_lf s = false ->
  split_crlf_aux cur s = split_lf_aux cur s.
Proof.
  induction s as [|c rest IH]; intros cur Hgood; [reflexivity|].
  cbn [split_crlf_aux split_lf_aux].
  destruct (N.eqb_spec c LF) as [->|Hlf].
  - cbn in Hgood. destruct Hgood as [Hcr|]; [|discriminate].
    rewrite (strip_cr_id _ Hcr). f_equal. apply IH. left. reflexivity.
  - destruct (N.eqb_spec c CR) as [->|Hcr].
    + destruct rest as [|d rest'].
      * reflexivity.
      * destruct (N.eqb_spec d LF) as [->|Hd].
        -- cbn [split_lf_aux]. rewrite N.eqb_refl, strip_cr_snoc. f_equal.
           specialize (IH [] (or_introl eq_refl)). cbn [split_crlf_aux split_lf_aux] in IH.
           rewrite N.eqb_refl in IH. congruence.
        -- apply IH. right. cbn. apply N.eqb_neq. exact Hd.
    + apply IH. left. rewrite ends_with_cr_snoc. apply N.eqb_neq. exact Hcr.
Qed.

Lemma split_crlf_lf s : split_crlf s = split_lf_aux [] s.
Proof. apply split_crlf_aux_lf. left. reflexivity. Qed.

Lemma split_lf_aux_nonempty s : forall cur, split_lf_aux cur s <> [].
Proof.
  induction s as [|c rest IH]; intros cur; cbn; [discriminate|].
  destruct (c =? LF)%N; [discriminate | apply IH].
Qed.

Lemma removelast_cons {A} (x : A) l : l <> [] -> removelast (x :: l) = x :: removelast l.
Proof. destruct l; [congruence | reflexivity]. Qed.

Lemma last_cons {A} (x : A) l d : l <> [] -> List.last (x :: l) d = List.last l d.
Proof. destruct l; [congruence | reflexivity]. Qed.

Lemma last_app_r {A} (l l' : list A) d : l' <> [] -> List.last (l ++ l') d = List.last l' d.
Proof.
  intros Hne. induction l as [|x l IH]; [reflexivity|].
  rewrite <- app_comm_cons, last_cons; [exact IH|].
  destruct l; [exact Hne | discriminate].
Qed.

Lemma split_lf_aux_app x y : forall cur,
  split_lf_aux cur (x ++ y) =
    removelast (split_lf_aux cur x) ++ split_lf_aux (List.last (split_lf_aux cur x) []) y.
Proof.
  induction x as [|c rest IH]; intros cur; [reflexivity|].
  rewrite <- app_comm_cons. cbn [split_lf_aux]. destruct (c =? LF)%N.
  - rewrite removelast_cons, last_cons by apply split_lf_aux_nonempty.
    cbn [List.app]. f_equal. apply IH.
  - apply IH.
Qed.

Lemma split_lf_aux_no_lf b : forall a y,
  no_lf b -> split_lf_aux a (b ++ y) = split_lf_aux (a ++ b) y.
Proof.
  induction b as [|c b IH]; intros a y Hb.
  - now rewrite app_nil_r.
  - inversion Hb as [|? ? Hc Hb']; subst. rewrite <- app_comm_cons. cbn [split_lf_aux].
    destruct (N.eqb_spec c LF); [contradiction|].
    rewrite IH by assumption. now rewrite <- app_assoc.
Qed.

Lemma strip_cr_no_lf cur : no_lf cur -> no_lf (strip_cr cur).
Proof.
  unfold strip_cr, no_lf. intros H. destruct (rev cur) as [|c r] eqn:Hr; [exact H|].
  destruct (c =? CR)%N; [|exact H].
  apply Forall_rev. apply Forall_rev in H. rewrite Hr in H. now inversion H.
Qed.

Lemma split_lf_aux_last_no_lf s : forall cur,
  no_lf cur -> no_lf (List.last (split_lf_aux cur s) []).
Proof.
  induction s as [|c rest IH]; intros cur Hcur; [exact Hcur|].
  cbn [split_lf_aux]. destruct (N.eqb_spec c LF).
  - rewrite last_cons by apply split_lf_aux_nonempty. apply IH. constructor.
  - apply IH. apply Forall_app. split; [exact Hcur|]. constructor; [assumption|constructor].
Qed.

(** A chunk appended to a text: the complete lines of the text stay, and
    splitting goes on from its last, incomplete line. *)
Lemma split_crlf_app x y :
  split_crlf (x ++ y) =
    removelast (split_crlf x) ++ split_crlf (List.last (split_crlf x) [] ++ y).
Proof.
  rewrite !split_crlf_lf, split_lf_aux_app. f_equal.
  rewrite (split_lf_aux_no_lf _ [] y); [reflexivity|].
  apply split_lf_aux_last_no_lf. constructor.
Qed.

Lemma split_crlf_nonempty s : split_crlf s <> [].

Proof. rewrite split_crlf_lf. apply split_lf_aux_nonempty. Qed.

(** The last piece of a split holds no line end: split again, it is
    returned whole. *)
Lemma split_crlf_last_whole s :
  split_crlf (List.last (split_crlf s) []) = [List.last (split_crlf s) []].
Proof.
  rewrite !split_crlf_lf.
  generalize (split_lf_aux_last_no_lf s [] ltac:(constructor)).
  generalize (List.last (split_lf_aux [] s) []).
  intros b Hno. rewrite <- (app_nil_r b) at 1.
  rewrite (split_lf_aux_no_lf b [] [] Hno). reflexivity.
Qed.

Lemma forwarded_app tr t1 t2 : forwarded tr (t1 ++ t2) = forwarded tr t1 ++ forwarded tr t2.
Proof.
  induction t1 as [|e t1 IH]; [reflexivity|].
  rewrite <- app_comm_cons. destruct e; cbn [forwarded]; try exact IH.
  destruct (_ =? _)%nat; [rewrite <- app_comm_cons; f_equal|]; exact IH.
Qed.

(** One complete line: it never throws, adds its message (if it has one)
    to what the transport has sent, and leaves the remainder alone. *)
Lemma forward_line_spec k line st :
  exists st',
    forward_line k line st = (Ok tt, st') /\
    forwarded (conn_transport k) (trace st') =
      forwarded (conn_transport k) (trace st) ++ line_message line /\
    buffers st' = buffers st.
Proof.
  unfold forward_line, line_message, touch. destruct (is_blank line).
  - exists st. rewrite app_nil_r. auto.
  - destruct (JSON_parse line) as [m|]; unfold_m; eexists; (split; [reflexivity|]);
      cbn [trace set_trace set_sessions buffers]; rewrite ?forwarded_app; cbn [forwarded];
      rewrite ?Nat.eqb_refl, ?app_nil_r; auto.
Qed.

Lemma forEach_forward_line_spec k lines : forall st,
  exists st',
    forEach lines (forward_line k) st = (Ok tt, st') /\
    forwarded (conn_transport k) (trace st') =
      forwarded (conn_transport k) (trace st) ++ flat_map line_message lines /\
    buffers st' = buffers st.
Proof.
  induction lines as [|l lines IH]; intros st.
  - exists st. cbn. rewrite app_nil_r. auto.
  - destruct (forward_line_spec k l st) as (st1 & H1 & F1 & B1).
    destruct (IH st1) as (st2 & H2 & F2 & B2).
    exists st2. cbn [forEach flat_map]. unfold bind. rewrite H1, H2.
    split; [reflexivity|]. split; [|congruence].
    rewrite F2, F1, app_assoc. reflexivity.
Qed.

Lemma stdout_on_data_spec k chunk st :
  let text := buffer_of k st ++ Buffer_toString_utf8 chunk in
  exists st',
    childProcess_stdout_on_data k chunk st = (Ok tt, st') /\
    forwarded (conn_transport k) (trace st') =
      forwarded (conn_transport k) (trace st)
      ++ flat_map line_message (removelast (split_crlf text)) /\
    buffer_of k st' = List.last (split_crlf text) [].
Proof.
  intros text. unfold childProcess_stdout_on_data. unfold_m. cbv beta iota.
  fold (buffer_of k st). fold text.
  match goal with
  | |- context [forEach _ _ ?s] =>
      destruct (forEach_forward_line_spec k (removelast (split_crlf text)) s)
        as (st' & H & F & B)
  end.
  exists st'. rewrite H. split; [reflexivity|]. split; [exact F|].
  unfold buffer_of. rewrite B. cbn [buffers set_buffers]. rewrite lookup_insert_eq. reflexivity.
Qed.

(** What reaches the caller's stream: the messages of the complete lines of
    the text made of the stored remainder and of the chunks, each chunk
    decoded on its own.  The handler never throws. *)
Lemma deliver_spec k chunks : forall st,
  split_crlf (buffer_of k st) = [buffer_of k st] ->
  let text := buffer_of k st ++ concat (map Buffer_toString_utf8 chunks) in
  exists st',
    deliver k chunks st = (Ok tt, st') /\
    forwarded (conn_transport k) (trace st') =
      forwarded (conn_transport k) (trace st)
      ++ flat_map line_message (removelast (split_crlf text)) /\
    buffer_of k st' = List.last (split_crlf text) [].
Proof.
  induction chunks as [|c chunks IH]; intros st Hb text; subst text.
  - exists st. cbn [map concat]. rewrite !app_nil_r, Hb. cbn. rewrite app_nil_r. auto.
  - destruct (stdout_on_data_spec k c st) as (st1 & H1 & F1 & B1). cbv zeta in *.
    assert (Hb1 : split_crlf (buffer_of k st1) = [buffer_of k st1])
      by (rewrite B1; apply split_crlf_last_whole).
    destruct (IH st1 Hb1) as (st2 & H2 & F2 & B2). cbv zeta in *.
    exists st2. unfold deliver in *. cbn [forEach]. unfold bind. rewrite H1, H2.
    cbn [map concat]. rewrite app_assoc, split_crlf_app, <- B1.
    split; [reflexivity|].
    assert (Hne := split_crlf_nonempty
                     (buffer_of k st1 ++ concat (map Buffer_toString_utf8 chunks))).
    split.
    + rewrite F2, F1, <- app_assoc. f_equal.
      rewrite removelast_app by exact Hne. rewrite flat_map_app. rewrite B1. reflexivity.
    + rewrite B2. rewrite last_app_r by exact Hne. reflexivity.
Qed.

(** Bytes below 128 decode to themselves, so text made of them decodes
    the same whether it is cut or not. *)
Lemma utf8_scan_ascii bs :
  Forall (fun b => (b <= 127)%N) bs -> utf8_scan utf8_idle bs = map Some bs.
Proof.
  induction 1 as [|b bs Hb _ IH]; [reflexivity|].
  cbn [utf8_scan map]. cbn [u_needed utf8_idle]. rewrite N.eqb_refl.
  unfold utf8_lead. destruct (N.leb_spec b 0x7F); [|lia].
  destruct (N.eqb_spec b REPLACEMENT); [unfold REPLACEMENT in *; lia|].
  now rewrite IH.
Qed.

Lemma Buffer_toString_utf8_ascii chunk :
  Forall (fun b => (Byte.to_N b <= 127)%N) chunk ->
  Buffer_toString_utf8 chunk = map Byte.to_N chunk.
Proof.
  intros H. unfold Buffer_toString_utf8, utf8_decode.
  rewrite utf8_scan_ascii by (apply Forall_map; exact H).
  rewrite map_map. cbn beta iota.
  induction H as [|b bs Hb _ IH]; [reflexivity|].
  cbn [map flat_map]. rewrite IH. unfold utf16_units.
  destruct (N.ltb_spec (Byte.to_N b) 0x10000); [reflexivity | lia].
Qed.

Lemma Buffer_toString_utf8_ascii_concat chunks :
  Forall (fun b => (Byte.to_N b <= 127)%N) (concat chunks) ->
  Buffer_toString_utf8 (concat chunks) = concat (map Buffer_toString_utf8 chunks).
Proof.
  intros H. rewrite Buffer_toString_utf8_ascii by exact H.
  induction chunks as [|c chunks IH]; [reflexivity|].
  cbn [concat map] in *. apply Forall_app in H as [Hc Hcs].
  rewrite map_app, IH by exact Hcs.
  now rewrite Buffer_toString_utf8_ascii by exact Hc.
Qed.

(** Reassembly where the cuts respect the characters: if decoding the
    chunks one by one gives the text of the whole output, what is forwarded
    does not depend on the cuts. *)
Lemma reassembly_at_character_boundaries k chunks st :
  split_crlf (buffer_of k st) = [buffer_of k st] ->
  Buffer_toString_utf8 (concat chunks) = concat (map Buffer_toString_utf8 chunks) ->
  forwarded (conn_transport k) (trace (snd (deliver k chunks st))) =
  forwarded (conn_transport k) (trace (snd (deliver k [concat chunks] st))).
Proof.
  intros Hb Hdec.
  destruct (deliver_spec k chunks st Hb) as (st1 & H1 & F1 & _).
  destruct (deliver_spec k [concat chunks] st Hb) as (st2 & H2 & F2 & _).
  cbv zeta in *. rewrite H1, H2. cbn [snd]. rewrite F1, F2.
  cbn [map concat]. rewrite app_nil_r, Hdec. reflexivity.
Qed.

(** In particular, output of ASCII text is forwarded the same however it
    is cut. *)
Lemma reassembly_of_ascii_output k chunks st :
  split_crlf (buffer_of k st) = [buffer_of k st] ->
  Forall (fun b => (Byte.to_N b <= 127)%N) (concat chunks) ->
  forwarded (conn_transport k) (trace (snd (deliver k chunks st))) =
  forwarded (conn_transport k) (trace (snd (deliver k [concat chunks] st))).
Proof.
  intros Hb Hascii. apply reassembly_at_character_boundaries; [exact Hb|].
  apply Buffer_toString_utf8_ascii_concat. exact Hascii.
Qed.

(** An object cut in two is forwarded once, whole, when its newline has
    arrived, and not before. *)
Example object_cut_in_two_is_forwarded_once :
  forwarded 7 (trace (snd (deliver example_connection (firstn 1 ok_chunks) live_state))) = [] /\
  forwarded 7 (trace (snd (deliver example_connection ok_chunks live_state)))
    = [JObject [(units_of_string "ok", JBool true)]] /\
  buffer_of example_connection (snd (deliver example_connection ok_chunks live_state)) = [].
Proof. vm_compute. repeat split; reflexivity. Qed.

(** C4, at a chunk boundary inside a character.  The worker writes the
    line [{"a":"é"}]; delivered whole, the message forwarded holds the
    string [é]; delivered in two chunks cut between the two bytes of [é],
    the message forwarded holds two replacement characters instead. *)
Theorem chunk_boundary_inside_character_alters_message :
  (first_chunk ++ second_chunk = whole_output) /\
  forwarded 7 (trace (snd (deliver example_connection [whole_output] live_state)))
    = [JObject [([97%N], JString [233%N])]] /\
  forwarded 7 (trace (snd (deliver example_connection [first_chunk; second_chunk] live_state)))
    = [JObject [([97%N], JString [65533%N; 65533%N])]].
Proof. vm_compute. repeat split; reflexivity. Qed.

(** ** Middleware, admission and the routes *)

(** C10.  Whatever its path and its headers, a request with the method
    OPTIONS passes the authentication middleware and the rate-limit
    middleware: each calls [next] and leaves the state as it was, so no
    credential is checked, nothing is logged or answered, and no bucket of
    the limiter is touched. *)
Theorem options_request_passes_auth_and_rate_limit secret req st :
  method req = "OPTIONS" ->
  createAuthMiddleware secret req st = (Ok Next, st) /\
  createRateLimitMiddleware req st = (Ok Next, st).
Proof.
  intros H. unfold createAuthMiddleware, createRateLimitMiddleware. rewrite H.
  change (String.eqb "OPTIONS" "OPTIONS") with true. rewrite orb_true_r. split; reflexivity.
Qed.

Lemma options_request_passes_auth_and_rate_limit_witness :
  createAuthMiddleware "0123456789abcdef0123456789abcdef" options_request live_state
    = (Ok Next, live_state) /\
  createRateLimitMiddleware options_request live_state = (Ok Next, live_state).
Proof.
  apply (options_request_passes_auth_and_rate_limit _ options_request live_state). reflexivity.
Defined.

(** In the assembled application a preflight does not even reach the two:
    the [cors] middleware, first in line, answers it. *)
Lemma preflight_answered_by_cors env req st :
  method req = "OPTIONS" ->
  express_app env req st =
    (Ok tt,
     set_responses (insert (res req) (mkResponse true false))
       (set_trace (fun t => t ++ [EvRespond (res req) 200 BEmpty])
          (set_trace (fun t => t ++ [EvCorsHeaders (res req)]) st))).
Proof.
  intros Hm. unfold express_app, run_middleware, corsMiddleware, respond.
  rewrite Hm. unfold_m. reflexivity.
Qed.

(** A request whose URL is exactly [/health] is answered by the security
    middleware, which does not call [next]: neither the later middleware
    nor [handleHealthCheck] runs. *)
Lemma health_url_short_circuit env req st :
  url req = "/health" -> method req <> "OPTIONS" ->
  express_app env req st =
    (Ok tt,
     set_responses (insert (res req) (mkResponse true false))
       (set_trace (fun t => t ++ [EvRespond (res req) 200 (BText "ok")])
          (set_trace (fun t => t ++ [EvLog INFO (LogIncomingRequest (method req) "/health")])
             (set_trace (fun t => t ++ [EvCorsHeaders (res req)]) st)))).
Proof.
  intros Hu Hm. apply String.eqb_neq in Hm.
  unfold express_app, run_middleware, corsMiddleware, createRequestLoggingMiddleware,
    createSecurityMiddleware, respond, path.
  rewrite Hu, Hm. unfold_m. reflexivity.
Qed.

(** C5, at the request [GET /health].  The security middleware answers
    200 with the text [ok]; the limiter is not touched; the body that
    [handleHealthCheck] would have sent (status, uptime, session count,
    memory) is never sent.  With a query string the same endpoint is no
    longer exempt: without a credential it is answered 401. *)
Theorem health_endpoint_answers_plain_ok :
  let st' := snd (express_app example_environment health_request live_state) in
  answer 8 st' = Some (200%nat, BText "ok") /\
  rateLimiter st' = rateLimiter live_state /\
  answer 8 (snd (handleHealthCheck health_request live_state))
    = Some (200%nat, BHealth (mkHealth "ok" 1000 5 1 (mkMemoryUsage 100 50 70) "production")) /\
  answer 8 (snd (express_app example_environment health_request_with_query live_state))
    = Some (401%nat, BError "Authorization header required").
Proof. vm_compute. repeat split; reflexivity. Qed.

(** C6, at the request [GET /constructor/sse].  The command [constructor]
    is not a key of the allow-list, yet [enabledCommands["constructor"]] is
    the inherited, truthy [Object]; [validateCommand] lets it through, a
    process is spawned for it and a session is registered. *)
Theorem inherited_property_name_passes_command_gate :
  let st' := snd (express_app example_environment inherited_name_request idle_state) in
  enabledCommands !! "constructor" = None /\
  spawned (trace st') = ["constructor"] /\
  command <$> sessions st' !! "s2" = Some "constructor" /\
  answer 8 st' = None.
Proof. vm_compute. repeat split; reflexivity. Qed.

(** *** Environment overrides *)

Lemma set_trace_nil st : set_trace (fun t => t ++ []) st = st.
Proof. destruct st. unfold set_trace. cbn. now rewrite app_nil_r. Qed.

Lemma set_trace_cons e evs st :
  set_trace (fun t => t ++ e :: evs) st =
  set_trace (fun t => t ++ evs) (set_trace (fun t => t ++ [e]) st).
Proof. unfold set_trace. cbn. now rewrite <- app_assoc. Qed.

Lemma extractEnvVars_loop_spec hs : forall acc st,
  extractEnvVars_loop hs acc st =
    (Ok (env_overrides hs acc), set_trace (fun t => t ++ blocked_overrides hs) st).
Proof.
  induction hs as [|[name value] hs IH]; intros acc st.
  - cbn. now rewrite set_trace_nil.
  - cbn [extractEnvVars_loop env_overrides blocked_overrides].
    destruct (startsWith (toUpperCase name) "ENV_"); cbn [andb]; [|apply IH].
    destruct (bool_decide _).
    + unfold_m. rewrite IH. f_equal. symmetry. apply set_trace_cons.
    + destruct (header_first value); apply IH.
Qed.

(** No key of the deny-list is ever among the overrides. *)
Lemma env_overrides_blacklisted hs : forall acc key,
  key ∈ blacklistedEnvVars -> env_overrides hs acc !! key = acc !! key.
Proof.
  induction hs as [|[name value] hs IH]; intros acc key Hk; [reflexivity|].
  cbn [env_overrides].
  destruct (startsWith (toUpperCase name) "ENV_"); [|now apply IH].
  destruct (bool_decide _) eqn:Hb; [now apply IH|].
  destruct (header_first value); [|now apply IH].
  rewrite IH by exact Hk. apply lookup_insert_ne.
  intros <-. apply bool_decide_eq_false in Hb. contradiction.
Qed.

(** A candidate key that is not on the deny-list, with a value, is set. *)
Lemma env_overrides_set hs : forall acc name value,
  In (name, value) hs ->
  startsWith (toUpperCase name) "ENV_" = true ->
  substring_from 4 (toUpperCase name) ∉ blacklistedEnvVars ->
  is_Some (header_first value) ->
  is_Some (env_overrides hs acc !! substring_from 4 (toUpperCase name)).
Proof.
  assert (Hkeep : forall hs acc key, is_Some (acc !! key) -> is_Some (env_overrides hs acc !! key)).
  { clear. induction hs as [|[n v] hs IH]; intros acc key Hs; [exact Hs|].
    cbn [env_overrides].
    destruct (startsWith (toUpperCase n) "ENV_"); [|now apply IH].
    destruct (bool_decide _); [now apply IH|].
    destruct (header_first v); [|now apply IH].
    apply IH. rewrite lookup_insert. destruct (decide _); [eauto | exact Hs]. }
  induction hs as [|[n v] hs IH]; intros acc name value Hin Hp Hnb Hv; [destruct Hin|].
  cbn [env_overrides]. destruct Hin as [[= -> ->]|Hin].
  - rewrite Hp. rewrite bool_decide_eq_false_2 by exact Hnb.
    destruct Hv as [x ->]. apply Hkeep. rewrite lookup_insert_eq. eauto.
  - destruct (startsWith (toUpperCase n) "ENV_"); [|now apply (IH _ _ value)].
    destruct (bool_decide _); [now apply (IH _ _ value)|].
    destruct (header_first v); now apply (IH _ _ value).
Qed.

Lemma substring_from_map_string f n : forall s,
  substring_from n (map_string f s) = map_string f (substring_from n s).
Proof.
  induction n as [|n IH]; intros s; [reflexivity|].
  destruct s as [|c s]; [reflexivity|]. cbn. apply IH.
Qed.

Lemma handleSSEConnection_admitted env req st raw c :
  params_command req = Some raw -> raw <> EmptyString ->
  decodeURIComponent raw = Some c ->
  enabledCommands !! c = Some true ->
  env_connect_ok env = true ->
  env_sessionId env <> EmptyString ->
  let overrides := env_overrides (headers req) ∅ in
  let worker_env := spawn_env (process_env st) overrides (nodeEnv (config st)) in
  exists st',
    handleSSEConnection env req st = (Ok tt, st') /\
    trace st' = trace st ++ blocked_overrides (headers req)
                ++ [EvLog INFO (LogNewConnection c (size overrides));
                    EvSseOpen (res req) (env_sessionId env);
                    EvSpawn (next_ref st) c worker_env;
                    EvRegistryInsert (env_sessionId env)] /\
    sessions st' =
      <[env_sessionId env := mkSession (res req) (res req) (next_ref st) c overrides (clock st)]>
        (sessions st).
Proof.
  intros Hp Hraw Hdec Hcmd Hconn Hsid overrides worker_env.
  apply String.eqb_neq in Hraw. apply String.eqb_neq in Hsid.
  unfold handleSSEConnection, parseRequestPath. rewrite Hp, Hraw, Hdec.
  unfold_m. cbn beta iota.
  unfold validateCommand, js_get. rewrite Hcmd. unfold_m. cbn beta iota.
  unfold extractEnvVarsFromHeaders. rewrite extractEnvVars_loop_spec. fold overrides.
  cbn beta iota.
  unfold server_connect. rewrite Hconn. unfold_m. cbn beta iota. rewrite Hsid.
  unfold spawn, registry_insert. unfold_m. cbn beta iota.
  eexists. split; [reflexivity|]. split.
  - cbn [trace set_trace set_sessions set_children set_next_ref set_responses
          process_env config next_ref].
    rewrite <- !app_assoc. reflexivity.
  - reflexivity.
Qed.

Lemma NODE_ENV_not_blacklisted : "NODE_ENV" ∉ blacklistedEnvVars.
Proof.
  assert (H : bool_decide ("NODE_ENV" ∈ blacklistedEnvVars) = false) by (vm_compute; reflexivity).
  now apply bool_decide_eq_false in H.
Qed.

Lemma spawn_env_blacklisted penv overrides node_env key :
  key ∈ blacklistedEnvVars -> overrides !! key = None ->
  spawn_env penv overrides node_env !! key = penv !! key.
Proof.
  intros Hk Ho. unfold spawn_env.
  rewrite lookup_insert_ne by (intros <-; exact (NODE_ENV_not_blacklisted Hk)).
  now apply lookup_union_r.
Qed.

Lemma spawned_app t1 t2 : spawned (t1 ++ t2) = spawned t1 ++ spawned t2.
Proof.
  induction t1 as [|e t1 IH]; [reflexivity|].
  rewrite <- app_comm_cons. destruct e; cbn [spawned]; try exact IH.
  rewrite <- app_comm_cons. now f_equal.
Qed.

Lemma spawned_blocked_overrides hs : spawned (blocked_overrides hs) = [].
Proof.
  induction hs as [|[n v] hs IH]; [reflexivity|]. cbn [blocked_overrides].
  destruct (_ && _); [cbn [spawned]|]; exact IH.
Qed.

(** C7.  For an admitted stream-open request, the request succeeds: a
    worker is spawned and the session registered.  For every header whose
    name, upper-cased, begins with [ENV_], the candidate key is the rest
    of the name upper-cased.  Whatever the letter case of the header, a
    candidate key on the deny-list is not among the overrides, and the
    environment passed to the worker holds under that key what the
    proxy's own environment holds; a candidate key that is not on the
    deny-list, with a value, is among the overrides. *)
Theorem blacklisted_override_is_dropped env req st raw c :
  params_command req = Some raw -> raw <> EmptyString ->
  decodeURIComponent raw = Some c ->
  enabledCommands !! c = Some true ->
  env_connect_ok env = true ->
  env_sessionId env <> EmptyString ->
  let st' := snd (handleSSEConnection env req st) in
  exists overrides worker_env,
    fst (handleSSEConnection env req st) = Ok tt /\
    In (EvSpawn (next_ref st) c worker_env) (trace st') /\
    spawned (trace st') = spawned (trace st) ++ [c] /\
    sessions st' !! env_sessionId env
      = Some (mkSession (res req) (res req) (next_ref st) c overrides (clock st)) /\
    (forall key, key ∈ blacklistedEnvVars ->
       overrides !! key = None /\ worker_env !! key = process_env st !! key) /\
    (forall name value,
       In (name, value) (headers req) ->
       startsWith (toUpperCase name) "ENV_" = true ->
       let key := toUpperCase (substring_from 4 name) in
       (key ∈ blacklistedEnvVars ->
          overrides !! key = None /\ worker_env !! key = process_env st !! key) /\
       (key ∉ blacklistedEnvVars -> is_Some (header_first value) ->
          is_Some (overrides !! key))).
Proof.
  intros Hp Hraw Hdec Hcmd Hconn Hsid st'. subst st'.
  destruct (handleSSEConnection_admitted env req st raw c Hp Hraw Hdec Hcmd Hconn Hsid)
    as (st1 & Hrun & Htrace & Hsess).
  cbv zeta in *. rewrite Hrun. cbn [fst snd].
  exists (env_overrides (headers req) ∅),
         (spawn_env (process_env st) (env_overrides (headers req) ∅) (nodeEnv (config st))).
  assert (Hblack : forall key, key ∈ blacklistedEnvVars ->
            env_overrides (headers req) ∅ !! key = None /\
            spawn_env (process_env st) (env_overrides (headers req) ∅) (nodeEnv (config st)) !! key
              = process_env st !! key).
  { intros key Hk.
    assert (Ho : env_overrides (headers req) ∅ !! key = None)
      by (rewrite env_overrides_blacklisted by exact Hk; apply lookup_empty).
    split; [exact Ho | now apply spawn_env_blacklisted]. }
  split; [reflexivity|]. split.
  { rewrite Htrace, !in_app_iff. cbn. tauto. }
  split.
  { rewrite Htrace, !spawned_app, spawned_blocked_overrides. reflexivity. }
  split.
  { rewrite Hsess. apply lookup_insert_eq. }
  split; [exact Hblack|].
  intros name value Hin Hpre.
  unfold toUpperCase. rewrite <- substring_from_map_string. fold (toUpperCase name).
  split; [apply Hblack|].
  intros Hnb Hv. now apply (env_overrides_set _ _ name value).
Qed.

Lemma blacklisted_override_is_dropped_witness :
  exists overrides worker_env : gmap string string,
    fst (handleSSEConnection example_environment override_request idle_state) = Ok tt /\
    In (EvSpawn 0 "npx -y exa-mcp-server" worker_env)
       (trace (snd (handleSSEConnection example_environment override_request idle_state))) /\
    overrides !! "PATH" = None /\
    worker_env !! "PATH" = Some "/usr/bin" /\
    overrides !! "API_KEY" = None /\
    is_Some (overrides !! "FOO").
Proof.
  destruct (blacklisted_override_is_dropped example_environment override_request idle_state
              "npx -y exa-mcp-server" "npx -y exa-mcp-server")
    as (overrides & worker_env & Hok & Hspawn & _ & _ & Hblack & Hkeys).
  - reflexivity.
  - discriminate.
  - reflexivity.
  - reflexivity.
  - reflexivity.
  - discriminate.
  - exists overrides, worker_env.
    destruct (Hkeys "env_path" (HString "/evil")) as [Hpath _];
      [right; left; reflexivity | reflexivity |].
    destruct (Hkeys "ENV_Api_Key" (HString "k")) as [Hapi _];
      [right; right; left; reflexivity | reflexivity |].
    destruct (Hkeys "env_foo" (HString "bar")) as [_ Hfoo];
      [right; right; right; left; reflexivity | reflexivity |].
    assert (HP : "PATH" ∈ blacklistedEnvVars)
      by (apply (bool_decide_unpack _); vm_compute; exact I).
    assert (HA : "API_KEY" ∈ blacklistedEnvVars)
      by (apply (bool_decide_unpack _); vm_compute; exact I).
    assert (HF : "FOO" ∉ blacklistedEnvVars).
    { assert (H : bool_decide ("FOO" ∈ blacklistedEnvVars) = false) by (vm_compute; reflexivity).
      now apply bool_decide_eq_false in H. }
    destruct (Hpath HP) as [Hp1 Hp2]. destruct (Hapi HA) as [Ha1 _].
    split; [exact Hok|]. split; [exact Hspawn|]. split; [exact Hp1|].
    split; [exact Hp2|]. split; [exact Ha1|].
    apply Hfoo; [exact HF | eexists; reflexivity].
Defined.

Lemma try_catch_throw {A} (body : M A) h st e :
  body st = (Throw e, st) -> try_catch body h st = h e st.
Proof. intros H. unfold try_catch. now rewrite H. Qed.

(** The [catch] of [handleSSEConnection] and of [handleMessagePost]. *)
Lemma answer_500_spec (entry : Exn -> LogEntry) r e st :
  (log ERROR (entry e) ;;;
   x <- get_response r ;;
   when (negb (headersSent x)) (respond r 500 (BError "Internal server error")))%proxy st
  = (Ok tt,
     if headersSent (responses st !!! r)
     then set_trace (fun t => t ++ [EvLog ERROR (entry e)]) st
     else set_responses (insert r (mkResponse true false))
            (set_trace (fun t => t ++ [EvRespond r 500 (BError "Internal server error")])
               (set_trace (fun t => t ++ [EvLog ERROR (entry e)]) st))).
Proof.
  unfold respond, get_response. unfold_m. cbn -[lookup_total].
  destruct (headersSent (responses st !!! r)); reflexivity.
Qed.

(** The gate holds for every command that is neither allowed nor the name
    of an inherited property: nothing is spawned or registered, and the
    request is answered 500 (unless the head has been sent). *)
Lemma handleSSEConnection_rejected env req st :
  (forall raw c, params_command req = Some raw -> decodeURIComponent raw = Some c ->
                 enabledCommands !! c <> Some true /\ c ∉ Object_prototype_properties) ->
  let st' := snd (handleSSEConnection env req st) in
  fst (handleSSEConnection env req st) = Ok tt /\
  sessions st' = sessions st /\
  children st' = children st /\
  exists e,
    trace st' = trace st ++ EvLog ERROR (LogConnectionFailed e)
                :: (if headersSent (responses st !!! res req) then []
                    else [EvRespond (res req) 500 (BError "Internal server error")]).
Proof.
  intros Hgate st'. subst st'. unfold handleSSEConnection.
  match goal with
  | |- context [try_catch ?b ?h st] =>
      assert (Hbody : exists e, b st = (Throw e, st));
      [| destruct Hbody as [e Hb]; rewrite (try_catch_throw b h st e Hb) ]
  end.
  - unfold parseRequestPath, bind.
    destruct (params_command req) as [raw|] eqn:Hp; [|eexists; reflexivity].
    destruct (String.eqb raw EmptyString); [eexists; reflexivity|].
    destruct (decodeURIComponent raw) as [c|] eqn:Hdec; [|eexists; reflexivity].
    destruct (Hgate raw c eq_refl Hdec) as [Hnot Hown].
    unfold ret. unfold validateCommand, js_get.
    destruct (enabledCommands !! c) as [[|]|]; [congruence | eexists; reflexivity |].
    rewrite bool_decide_eq_false_2 by exact Hown. eexists; reflexivity.
  - rewrite answer_500_spec. cbn [fst snd].
    destruct (headersSent (responses st !!! res req)); cbn;
      (split; [reflexivity|]); (split; [reflexivity|]); (split; [reflexivity|]);
      exists e; rewrite <- ?app_assoc; reflexivity.
Qed.








(* ===================================================================== *)
(** * Part III. Further properties                                        *)
(* ===================================================================== *)

(** ** Sequencing *)

Lemma bind_ok {A B} (m : M A) (k : A -> M B) st st1 a :
  m st = (Ok a, st1) -> bind m k st = k a st1.
Proof. intros H. unfold bind. now rewrite H. Qed.

Lemma bind_throw {A B} (m : M A) (k : A -> M B) st st1 e :
  m st = (Throw e, st1) -> bind m k st = (Throw e, st1).
Proof. intros H. unfold bind. now rewrite H. Qed.

Lemma try_catch_throw_at {A} (body : M A) h st st1 e :
  body st = (Throw e, st1) -> try_catch body h st = h e st1.
Proof. intros H. unfold try_catch. now rewrite H. Qed.

Lemma try_catch_ok {A} (body : M A) h st st1 a :
  body st = (Ok a, st1) -> try_catch body h st = (Ok a, st1).
Proof. intros H. unfold try_catch. now rewrite H. Qed.

Lemma forEach_cons {A} (f : A -> M unit) x l st :
  forEach (x :: l) f st =
    match f x st with
    | (Ok _, st1) => forEach l f st1
    | (Throw e, st1) => (Throw e, st1)
    end.
Proof. reflexivity. Qed.

Lemma forEach_map {A B} (g : A -> B) (f : B -> M unit) l : forall st,
  forEach l (fun x => f (g x)) st = forEach (map g l) f st.
Proof.
  induction l as [|x l IH]; intros st; [reflexivity|].
  cbn [map]. rewrite !forEach_cons. destruct (f (g x) st) as [[[]|e] st1]; [apply IH|reflexivity].
Qed.

Lemma answer_last r st t status body :
  trace st = t ++ [EvRespond r status body] -> answer r st = Some (status, body).
Proof.
  intros H. unfold answer. rewrite H, omap_app, map_app. cbn.
  rewrite Nat.eqb_refl. cbn. apply last_last.
Qed.

(** ** Teardown, once more *)

Ltac teardown_cases st sid s Hs Hp :=
  rewrite (cleanupSession_cases _ _ _ Hs); cbn [snd];
  let e := fresh "e" in let kd := fresh "kd" in let kf := fresh "kf" in let sf := fresh "sf" in
  destruct (children st !!! childProcess s) as [e kd kf sf] eqn:Hp;
  cbn [killed exited kill_fault stdin_fault];
  destruct kd; [|destruct e; [|destruct kf]]; cbn -[lookup_total].

(** What [cleanupSession] leaves alone. *)
Lemma cleanupSession_frame_fields st sid :
  let st' := snd (cleanupSession sid st) in
  sessions st' = delete sid (sessions st) /\
  responses st' = responses st /\
  buffers st' = buffers st /\
  rateLimiter st' = rateLimiter st /\
  clock st' = clock st /\
  config st' = config st.
Proof.
  destruct (sessions st !! sid) as [s|] eqn:Hs.
  - teardown_cases st sid s Hs Hp; repeat split; reflexivity.
  - rewrite cleanupSession_absent by exact Hs. cbn [snd].
    rewrite delete_id by exact Hs. repeat split; reflexivity.
Qed.

Lemma cleanupSession_other_children st sid c :
  (forall s, sessions st !! sid = Some s -> childProcess s <> c) ->
  children (snd (cleanupSession sid st)) !! c = children st !! c.
Proof.
  intros H. destruct (sessions st !! sid) as [s|] eqn:Hs.
  - specialize (H s eq_refl).
    teardown_cases st sid s Hs Hp; try reflexivity.
    now rewrite lookup_insert_ne.
  - now rewrite cleanupSession_absent.
Qed.

(** A process that has been signalled stays signalled; whether it is gone,
    refuses signals or refuses input is not changed by a teardown. *)
Lemma cleanupSession_children_flags st sid c :
  let p := children st !!! c in
  let p' := children (snd (cleanupSession sid st)) !!! c in
  exited p' = exited p /\ kill_fault p' = kill_fault p /\ stdin_fault p' = stdin_fault p /\
  (killed p = true -> killed p' = true).
Proof.
  destruct (sessions st !! sid) as [s|] eqn:Hs.
  - teardown_cases st sid s Hs Hp; try (repeat split; [reflexivity..|tauto]).
    destruct (decide (c = childProcess s)) as [->|Hne].
    + rewrite lookup_total_insert_eq, Hp. repeat split; reflexivity.
    + rewrite lookup_total_insert_ne by congruence. repeat split; [reflexivity..|tauto].
  - rewrite cleanupSession_absent by exact Hs. cbn. tauto.
Qed.

Lemma cleanupSession_signals st sid s :
  sessions st !! sid = Some s ->
  exited (children st !!! childProcess s) = false ->
  kill_fault (children st !!! childProcess s) = false ->
  killed (children (snd (cleanupSession sid st)) !!! childProcess s) = true.
Proof.
  intros Hs. teardown_cases st sid s Hs Hp; intros He Hf; try congruence.
  - now rewrite Hp.
  - now rewrite lookup_total_insert_eq.
Qed.

(** X1.  Tearing a session down touches nothing that belongs to another
    session: every other entry of the registry is as before, every process
    other than the worker of the session is as before, and so are the
    remainders of worker output and the rate limiter. *)
Theorem cleanupSession_leaves_other_sessions_alone st sid :
  let st' := snd (cleanupSession sid st) in
  (forall sid', sid' <> sid -> sessions st' !! sid' = sessions st !! sid') /\
  (forall c, (forall s, sessions st !! sid = Some s -> childProcess s <> c) ->
             children st' !! c = children st !! c) /\
  buffers st' = buffers st /\
  rateLimiter st' = rateLimiter st.
Proof.
  destruct (cleanupSession_frame_fields st sid) as (Hs & _ & Hb & Hrl & _).
  repeat split; try assumption.
  - intros sid' Hne. rewrite Hs. now apply lookup_delete_ne.
  - intros c Hc. now apply cleanupSession_other_children.
Qed.

(** X2.  For a registered session and no timer pending, whatever the
    state of the worker: after the teardown and the firing of the timer it
    may have armed, no SIGKILL has been delivered (every new event is
    something else), the timer is gone, the timer body has not thrown, and
    the worker has not been made to exit.  A worker that ignores SIGTERM
    is therefore never force-terminated. *)
Theorem force_kill_timer_never_delivers_sigkill st sid s :
  sessions st !! sid = Some s ->
  timers st = [] ->
  let st1 := snd (cleanupSession sid st) in
  let st2 := snd (fire_timer st1) in
  fst (fire_timer st1) = Ok tt /\
  timers st2 = [] /\
  exited (children st2 !!! childProcess s) = exited (children st !!! childProcess s) /\
  exists evs,
    trace st2 = trace st ++ evs /\
    forallb (fun e => negb (is_delivered_sigkill e)) evs = true.
Proof.
  intros Hs Ht st1 st2. subst st2 st1.
  rewrite (cleanupSession_cases _ _ _ Hs). cbn [snd].
  destruct (children st !!! childProcess s) as [e kd kf sf] eqn:Hp.
  cbn [killed exited kill_fault stdin_fault].
  destruct kd; [|destruct e; [|destruct kf]];
    unfold fire_timer; cbn -[lookup_total]; rewrite Ht; cbn -[lookup_total];
    unfold kill, get_child; unfold_m; cbn -[lookup_total];
    rewrite ?lookup_total_insert_eq, ?Hp; cbn -[lookup_total];
    rewrite ?lookup_total_insert_eq, ?Hp; cbn -[lookup_total];
    (split; [reflexivity|split; [cbn; rewrite ?Ht; reflexivity|split;
       [rewrite ?lookup_total_insert_eq, ?Hp; reflexivity
       |eexists; split; [cbn; rewrite <- ?app_assoc; reflexivity | reflexivity]]]]).
Qed.

Lemma force_kill_timer_never_delivers_sigkill_witness :
  let st2 := snd (fire_timer (snd (cleanupSession "s1" live_state))) in
  timers st2 = [] /\
  exited (children st2 !!! 0%nat) = false /\
  exists evs,
    trace st2 = trace live_state ++ evs /\
    forallb (fun e => negb (is_delivered_sigkill e)) evs = true.
Proof.
  destruct (force_kill_timer_never_delivers_sigkill live_state "s1" example_session
              eq_refl eq_refl) as (_ & Ht & He & Hev).
  split; [exact Ht|]. split; [exact He|exact Hev].
Defined.

(** ** Trigger after trigger *)

Lemma kill_calls_app c t1 t2 : kill_calls c (t1 ++ t2) = (kill_calls c t1 + kill_calls c t2)%nat.
Proof. unfold kill_calls. now rewrite List.filter_app, length_app. Qed.

(** The handler of a teardown trigger logs and calls [cleanupSession]. *)
Lemma trigger_is_teardown k ev st :
  is_teardown_trigger ev = true ->
  exists st0 l e,
    on_event k ev st = cleanupSession (conn_sessionId k) st0 /\
    sessions st0 = sessions st /\ children st0 = children st /\ timers st0 = timers st /\
    trace st0 = trace st ++ [EvLog l e].
Proof.
  intros Hev.
  destruct ev; try discriminate; cbn [on_event];
    unfold childProcess_on_error, sseTransport_onclose, sseTransport_onerror, req_on_close;
    unfold_m; cbn -[cleanupSession];
    (eexists; eexists; eexists; split; [reflexivity|repeat split; reflexivity]).
Qed.

Lemma triggers_after_teardown k evs : forall st,
  Forall (fun ev => is_teardown_trigger ev = true) evs ->
  sessions st !! conn_sessionId k = None ->
  let st' := snd (forEach evs (on_event k) st) in
  fst (forEach evs (on_event k) st) = Ok tt /\
  sessions st' = sessions st /\
  children st' = children st /\
  timers st' = timers st /\
  (forall c, kill_calls c (trace st') = kill_calls c (trace st)).
Proof.
  induction evs as [|ev evs IH]; intros st Hall Habs.
  - cbn. repeat split; reflexivity.
  - apply Forall_cons in Hall as [Hev Hall].
    destruct (trigger_is_teardown k ev st Hev) as (st0 & l & e & Hrun & Hs0 & Hc0 & Ht0 & Htr0).
    cbv zeta. rewrite forEach_cons, Hrun.
    rewrite cleanupSession_absent by (rewrite Hs0; exact Habs).
    destruct (IH st0 Hall) as (Hok & Hs & Hc & Ht & Hk); [rewrite Hs0; exact Habs|].
    repeat split; try congruence.
    intros c. rewrite Hk, Htr0, kill_calls_app. cbn. lia.
Qed.

(** X3.  The triggers of a teardown (a worker error, the stream closing
    or failing, the caller disconnecting) may come in any number and
    order: for a session whose worker is running, the first one asks the
    worker once to terminate, arms one timer and removes the session, and
    the others add no call of [kill] and no timer. *)
Theorem repeated_triggers_signal_once k evs st s :
  sessions st !! conn_sessionId k = Some s ->
  childProcess s = conn_child k ->
  exited (children st !!! conn_child k) = false ->
  killed (children st !!! conn_child k) = false ->
  kill_fault (children st !!! conn_child k) = false ->
  evs <> [] ->
  Forall (fun ev => is_teardown_trigger ev = true) evs ->
  let st' := snd (forEach evs (on_event k) st) in
  fst (forEach evs (on_event k) st) = Ok tt /\
  sessions st' = delete (conn_sessionId k) (sessions st) /\
  kill_calls (conn_child k) (trace st') = S (kill_calls (conn_child k) (trace st)) /\
  timers st' = timers st ++ [(gracefulTimeout, ForceKill (conn_child k))].
Proof.
  intros Hs Hc He Hk Hf Hne Hall.
  destruct evs as [|ev evs]; [congruence|].
  apply Forall_cons in Hall as [Hev Hall].
  destruct (trigger_is_teardown k ev st Hev) as (st0 & l & e & Hrun & Hs0 & Hc0 & Ht0 & Htr0).
  cbv zeta. rewrite forEach_cons, Hrun.
  assert (Hs' : sessions st0 !! conn_sessionId k = Some s) by (rewrite Hs0; exact Hs).
  rewrite (cleanupSession_cases _ _ _ Hs'). rewrite Hc, Hc0, Hk, He, Hf.
  match goal with |- context [forEach evs (on_event k) ?x] => set (st1 := x) end.
  destruct (triggers_after_teardown k evs st1 Hall) as (Hok & Hss & _ & Ht & Hkc).
  { subst st1. cbn. apply lookup_delete_eq. }
  split; [exact Hok|]. split; [|split].
  - rewrite Hss. subst st1. cbn. now rewrite Hs0.
  - rewrite Hkc. subst st1. cbn -[kill_calls]. rewrite Htr0, !kill_calls_app. cbn.
    rewrite Nat.eqb_refl. cbn. lia.
  - rewrite Ht. subst st1. cbn. now rewrite Ht0.
Qed.

Lemma repeated_triggers_signal_once_witness :
  let st' := snd (forEach [ReqClose; SseClose; ChildError] (on_event example_connection)
                    live_state) in
  sessions st' = delete "s1" (sessions live_state) /\
  kill_calls 0 (trace st') = 1%nat /\
  timers st' = [(gracefulTimeout, ForceKill 0)].
Proof.
  destruct (repeated_triggers_signal_once example_connection [ReqClose; SseClose; ChildError]
              live_state example_session eq_refl eq_refl eq_refl eq_refl eq_refl)
    as (_ & Hs & Hk & Ht).
  - discriminate.
  - repeat constructor.
  - split; [exact Hs|]. split; [exact Hk|exact Ht].
Defined.

(** X4.  When the worker exits by itself the session is dropped from the
    registry directly: no signal is sent and no timer armed, neither by
    the exit handler nor by the teardown triggers that follow it. *)
Theorem child_exit_drops_session_without_signal k evs st :
  Forall (fun ev => is_teardown_trigger ev = true) evs ->
  let st' := snd (forEach (ChildExit :: evs) (on_event k) st) in
  fst (forEach (ChildExit :: evs) (on_event k) st) = Ok tt /\
  sessions st' = delete (conn_sessionId k) (sessions st) /\
  timers st' = timers st /\
  (forall c, kill_calls c (trace st') = kill_calls c (trace st)).
Proof.
  intros Hall. cbv zeta. rewrite forEach_cons.
  cbn [on_event]. unfold childProcess_on_exit, registry_delete. unfold_m. cbn beta iota.
  match goal with |- context [forEach evs (on_event k) ?x] => set (st1 := x) end.
  destruct (triggers_after_teardown k evs st1 Hall) as (Hok & Hss & _ & Ht & Hkc).
  { subst st1. cbn. apply lookup_delete_eq. }
  split; [exact Hok|]. split; [|split].
  - rewrite Hss. reflexivity.
  - rewrite Ht. reflexivity.
  - intros c. rewrite Hkc. subst st1. cbn -[kill_calls]. rewrite !kill_calls_app. cbn. lia.
Qed.

Lemma child_exit_drops_session_without_signal_witness :
  let st' := snd (forEach [ChildExit; SseClose; ReqClose] (on_event example_connection)
                    live_state) in
  sessions st' = delete "s1" (sessions live_state) /\
  timers st' = [] /\
  kill_calls 0 (trace st') = 0%nat.
Proof.
  destruct (child_exit_drops_session_without_signal example_connection [SseClose; ReqClose]
              live_state) as (_ & Hs & Ht & Hk).
  - repeat constructor.
  - split; [exact Hs|]. split; [exact Ht|exact (Hk 0%nat)].
Defined.

(** ** The sweep and the shutdown *)

Lemma forEach_cleanupSession_cons sid ids st :
  forEach (sid :: ids) cleanupSession st = forEach ids cleanupSession (snd (cleanupSession sid st)).
Proof.
  rewrite forEach_cons. pose proof (cleanupSession_ok st sid) as H.
  destruct (cleanupSession sid st) as [[[]|e] st1]; cbn in *; [reflexivity|discriminate].
Qed.

(** Tearing down a list of sessions, one after the other. *)
Lemma forEach_cleanupSession_spec ids : forall st,
  let st' := snd (forEach ids cleanupSession st) in
  fst (forEach ids cleanupSession st) = Ok tt /\
  (forall i, sessions st' !! i = if bool_decide (i ∈ ids) then None else sessions st !! i) /\
  responses st' = responses st /\
  rateLimiter st' = rateLimiter st /\
  clock st' = clock st /\
  (forall c, exited (children st' !!! c) = exited (children st !!! c) /\
             kill_fault (children st' !!! c) = kill_fault (children st !!! c) /\
             (killed (children st !!! c) = true -> killed (children st' !!! c) = true)) /\
  (forall sid s, sid ∈ ids -> sessions st !! sid = Some s ->
                 exited (children st !!! childProcess s) = false ->
                 kill_fault (children st !!! childProcess s) = false ->
                 killed (children st' !!! childProcess s) = true).
Proof.
  induction ids as [|sid ids IH]; intros st.
  - cbn. repeat split; try reflexivity; try tauto.
    intros sid s H. now apply elem_of_nil in H.
  - cbv zeta. rewrite forEach_cleanupSession_cons.
    set (st1 := snd (cleanupSession sid st)).
    destruct (IH st1) as (Hok & Hss & Hres & Hrl & Hclk & Hfl & Hsig).
    destruct (cleanupSession_frame_fields st sid) as (Hs1 & Hr1 & _ & Hrl1 & Hc1 & _).
    fold st1 in Hs1, Hr1, Hrl1, Hc1.
    split; [exact Hok|]. split; [|split; [congruence|split; [congruence|split; [congruence|split]]]].
    + intros i. rewrite Hss, Hs1.
      destruct (decide (i = sid)) as [->|Hne].
      * rewrite lookup_delete_eq.
        rewrite (bool_decide_eq_true_2 (sid ∈ sid :: ids)) by (apply elem_of_cons; now left).
        now destruct (bool_decide _).
      * rewrite lookup_delete_ne by congruence.
        destruct (bool_decide (i ∈ ids)) eqn:Hin.
        -- apply bool_decide_eq_true_1 in Hin.
           now rewrite bool_decide_eq_true_2 by (apply elem_of_cons; now right).
        -- apply bool_decide_eq_false_1 in Hin.
           rewrite bool_decide_eq_false_2; [reflexivity|].
           intros [?|?]%elem_of_cons; tauto.
    + intros c. destruct (Hfl c) as (He & Hf & Hk).
      destruct (cleanupSession_children_flags st sid c) as (He1 & Hf1 & _ & Hk1).
      fold st1 in He1, Hf1, Hk1.
      repeat split; [congruence|congruence|tauto].
    + intros sid' s Hin Hs He Hf.
      destruct (decide (sid' = sid)) as [->|Hne].
      * apply (Hfl (childProcess s)).
        now apply cleanupSession_signals.
      * apply elem_of_cons in Hin as [?|Hin]; [congruence|].
        apply (Hsig sid' s Hin).
        -- rewrite Hs1, lookup_delete_ne by congruence. exact Hs.
        -- destruct (cleanupSession_children_flags st sid (childProcess s)) as (He1 & _).
           fold st1 in He1. congruence.
        -- destruct (cleanupSession_children_flags st sid (childProcess s)) as (_ & Hf1 & _).
           fold st1 in Hf1. congruence.
Qed.

Lemma expired_ids_spec entries (m : gmap string Session) now i :
  entries ≡ₚ map_to_list m ->
  i ∈ map fst (List.filter (fun e => is_expired now (snd e)) entries) <->
  exists s, m !! i = Some s /\ is_expired now s = true.
Proof.
  intros Hp. rewrite list_elem_of_In, in_map_iff. split.
  - intros [[i' s] [<- Hin]]. apply filter_In in Hin as [Hin Hex]. cbn in *.
    exists s. split; [|exact Hex].
    apply elem_of_map_to_list. rewrite <- Hp. now apply list_elem_of_In.
  - intros (s & Hs & Hex). exists (i, s). split; [reflexivity|].
    apply filter_In. split; [|exact Hex].
    apply list_elem_of_In. rewrite Hp. now apply elem_of_map_to_list.
Qed.

(** The sweep, whatever the order of the entries. *)
Lemma cleanupExpiredSessions_over_spec entries st :
  entries ≡ₚ map_to_list (sessions st) ->
  let st' := snd (cleanupExpiredSessions_over entries st) in
  fst (cleanupExpiredSessions_over entries st) = Ok tt /\
  (forall sid,
     sessions st' !! sid =
       match sessions st !! sid with
       | Some s => if is_expired (clock st) s then None else Some s
       | None => None
       end) /\
  (forall sid s,
     sessions st !! sid = Some s -> is_expired (clock st) s = true ->
     exited (children st !!! childProcess s) = false ->
     kill_fault (children st !!! childProcess s) = false ->
     killed (children st' !!! childProcess s) = true) /\
  ((forall sid s, sessions st !! sid = Some s -> is_expired (clock st) s = false) -> st' = st).
Proof.
  intros Hp. unfold cleanupExpiredSessions_over. unfold_m. cbn beta iota zeta.
  set (ex := List.filter (fun e => is_expired (clock st) (snd e)) entries).
  assert (Hex : forall i, i ∈ map fst ex <->
                          exists s, sessions st !! i = Some s /\ is_expired (clock st) s = true)
    by (intros i; now apply expired_ids_spec).
  destruct ex as [|e0 ex'] eqn:Eex.
  - cbn. split; [reflexivity|]. split; [|split; [|reflexivity]].
    + intros sid. destruct (sessions st !! sid) as [s|] eqn:Hs; [|reflexivity].
      destruct (is_expired (clock st) s) eqn:He; [|reflexivity].
      exfalso. eapply elem_of_nil, (Hex sid). eauto.
    + intros sid s Hs He. exfalso. eapply elem_of_nil, (Hex sid). eauto.
  - rewrite <- Eex in *. replace (0 <? length ex)%nat with true
      by (rewrite Eex; reflexivity).
    set (st0 := set_trace _ st).
    rewrite (forEach_map fst cleanupSession).
    destruct (forEach_cleanupSession_spec (map fst ex) st0) as (Hok & Hss & _ & _ & _ & Hfl & Hsig).
    split; [exact Hok|]. split; [|split].
    + intros sid. rewrite Hss. cbn [st0 set_trace sessions].
      destruct (bool_decide (sid ∈ map fst ex)) eqn:Hin.
      * apply bool_decide_eq_true_1, Hex in Hin as (s & -> & ->). reflexivity.
      * apply bool_decide_eq_false_1 in Hin.
        destruct (sessions st !! sid) as [s|] eqn:Hs; [|reflexivity].
        destruct (is_expired (clock st) s) eqn:He; [|reflexivity].
        exfalso. apply Hin, Hex. eauto.
    + intros sid s Hs He Hx Hf. apply (Hsig sid s); try assumption.
      apply Hex. eauto.
    + intros Hnone. exfalso.
      assert (Hin : fst e0 ∈ map fst ex) by (rewrite Eex; cbn; apply elem_of_cons; now left).
      apply Hex in Hin as (s & Hs & He). rewrite (Hnone _ _ Hs) in He. discriminate.
Qed.

(** X5.  The periodic sweep, in whatever order the engine lists the
    sessions: afterwards the registry holds exactly the sessions that
    were not idle for longer than the session timeout, each unchanged;
    the worker of every expired session, if it is running and accepts
    signals, has been sent a signal; and a sweep that finds no expired
    session changes nothing, log included. *)
Theorem sweep_removes_exactly_the_expired entries st :
  entries ≡ₚ map_to_list (sessions st) ->
  let st' := snd (cleanupExpiredSessions_over entries st) in
  fst (cleanupExpiredSessions_over entries st) = Ok tt /\
  (forall sid,
     sessions st' !! sid =
       match sessions st !! sid with
       | Some s => if is_expired (clock st) s then None else Some s
       | None => None
       end) /\
  (forall sid s,
     sessions st !! sid = Some s -> is_expired (clock st) s = true ->
     exited (children st !!! childProcess s) = false ->
     kill_fault (children st !!! childProcess s) = false ->
     killed (children st' !!! childProcess s) = true) /\
  ((forall sid s, sessions st !! sid = Some s -> is_expired (clock st) s = false) -> st' = st).
Proof. exact (cleanupExpiredSessions_over_spec entries st). Qed.

Lemma sweep_removes_exactly_the_expired_witness :
  let st' := snd (cleanupExpiredSessions two_session_state) in
  sessions st' !! "s1" = None /\
  sessions st' !! "s3" = Some second_session /\
  killed (children st' !!! 0%nat) = true.
Proof.
  destruct (sweep_removes_exactly_the_expired (map_to_list (sessions two_session_state))
              two_session_state (reflexivity _)) as (_ & Hs & Hk & _).
  unfold cleanupExpiredSessions.
  split; [rewrite (Hs "s1"); reflexivity|].
  split; [rewrite (Hs "s3"); reflexivity|].
  exact (Hk "s1" example_session eq_refl eq_refl eq_refl eq_refl).
Defined.

(** X6.  Shutdown, in whatever order the engine lists the session ids:
    the interval timer of the sweep is cleared, so that a later tick does
    nothing; the registry is left empty; and the worker of every session,
    if it is running and accepts signals, has been sent a signal. *)
Theorem shutdown_tears_down_every_session ids p :
  ids ≡ₚ map fst (map_to_list (sessions (this p))) ->
  let p' := snd (shutdown_over ids p) in
  fst (shutdown_over ids p) = Ok tt /\
  sessions (this p') = ∅ /\
  cleanupInterval_set p' = false /\
  interval_tick p' = (Ok tt, p') /\
  (forall sid s,
     sessions (this p) !! sid = Some s ->
     exited (children (this p) !!! childProcess s) = false ->
     kill_fault (children (this p) !!! childProcess s) = false ->
     killed (children (this p') !!! childProcess s) = true).
Proof.
  intros Hp. unfold shutdown_over. unfold_m.
  set (st0 := set_trace _ (this p)).
  destruct (forEach_cleanupSession_spec ids st0) as (Hok & Hss & _ & _ & _ & _ & Hsig).
  destruct (forEach ids cleanupSession st0) as [r st1] eqn:E. cbn [fst snd] in *.
  cbn [this cleanupInterval_set].
  assert (Hin : forall sid s, sessions (this p) !! sid = Some s -> sid ∈ ids).
  { intros sid s Hs. rewrite Hp. apply list_elem_of_fmap. exists (sid, s). split; [reflexivity|].
    now apply elem_of_map_to_list. }
  repeat split; try assumption; try reflexivity.
  - apply map_eq. intros i. rewrite Hss, lookup_empty. cbn [st0 set_trace sessions].
    destruct (bool_decide (i ∈ ids)) eqn:Hi; [reflexivity|].
    apply bool_decide_eq_false_1 in Hi.
    destruct (sessions (this p) !! i) as [s|] eqn:Hs; [|reflexivity].
    exfalso. eauto.
  - intros sid s Hs He Hf. apply (Hsig sid s); eauto.
Qed.

Lemma shutdown_tears_down_every_session_witness :
  let p' := snd (shutdown (setupCleanup (mkMCPSSEProxy two_session_state false))) in
  sessions (this p') = ∅ /\
  cleanupInterval_set p' = false /\
  killed (children (this p') !!! 0%nat) = true /\
  killed (children (this p') !!! 1%nat) = true.
Proof.
  destruct (shutdown_tears_down_every_session
              (map fst (map_to_list (sessions two_session_state)))
              (setupCleanup (mkMCPSSEProxy two_session_state false)) (reflexivity _))
    as (_ & Hs & Hc & _ & Hk).
  split; [exact Hs|]. split; [exact Hc|]. split.
  - exact (Hk "s1" example_session eq_refl eq_refl eq_refl).
  - exact (Hk "s3" second_session eq_refl eq_refl eq_refl).
Defined.

(** X7.  Traffic keeps a session alive: after a message from the caller
    has been written to the worker, or a line of JSON from the worker has
    been forwarded, a sweep that comes no later than the session timeout
    after it leaves the session registered, with the time of that message
    as its last activity. *)
Theorem activity_defers_expiry k st s now :
  sessions st !! conn_sessionId k = Some s ->
  now - clock st <= sessionTimeout ->
  let kept st1 :=
    forall entries,
      entries ≡ₚ map_to_list (sessions (set_clock now st1)) ->
      sessions (snd (cleanupExpiredSessions_over entries (set_clock now st1))) !! conn_sessionId k
        = Some (mkSession (transport s) (response s) (childProcess s) (command s) (envVars s)
                          (clock st)) in
  (forall msg, stdin_fault (children st !!! conn_child k) = false ->
               kept (snd (sseTransport_onmessage k msg st))) /\
  (forall line m, is_blank line = false -> JSON_parse line = Some m ->
                  kept (snd (forward_line k line st))).
Proof.
  intros Hs Hnow kept.
  assert (Hkept : forall st1,
            clock st1 = clock st ->
            sessions st1 !! conn_sessionId k
              = Some (mkSession (transport s) (response s) (childProcess s) (command s)
                                (envVars s) (clock st)) ->
            kept st1).
  { intros st1 Hclk H1 entries Hp.
    destruct (cleanupExpiredSessions_over_spec entries (set_clock now st1) Hp) as (_ & Hss & _).
    rewrite Hss. cbn [set_clock sessions clock]. rewrite H1.
    unfold is_expired. cbn [lastActivity].
    destruct (Z.gtb_spec (now - clock st) sessionTimeout); [lia|reflexivity]. }
  split.
  - intros msg Hsf. apply Hkept;
      unfold sseTransport_onmessage, stdin_write, get_child, touch; unfold_m;
      cbn -[lookup_total]; rewrite Hsf; cbn -[lookup_total]; [reflexivity|].
    rewrite lookup_alter_eq, Hs. reflexivity.
  - intros line m Hb Hj. apply Hkept;
      unfold forward_line, touch; rewrite Hb, Hj; unfold_m; cbn -[lookup_total]; [reflexivity|].
    rewrite lookup_alter_eq, Hs. reflexivity.
Qed.

Lemma activity_defers_expiry_witness :
  sessions (snd (cleanupExpiredSessions (set_clock 3601000 live_state))) !! "s1" = None /\
  is_Some (sessions (snd (cleanupExpiredSessions
                            (set_clock 3601000
                               (snd (sseTransport_onmessage example_connection JNull live_state)))))
             !! "s1").
Proof.
  split; [vm_compute; reflexivity|].
  destruct (activity_defers_expiry example_connection live_state example_session 3601000
              eq_refl) as [Hmsg _].
  - vm_compute. discriminate.
  - unfold cleanupExpiredSessions. eexists. exact (Hmsg JNull eq_refl _ (reflexivity _)).
Defined.

(** ** Admission, once more *)

(** The body of [handleSSEConnection]: it either throws before anything
    is spawned or registered, or spawns one process and registers one
    session for it. *)
Lemma handleSSEConnection_body_cases env req st :
  forall body,
    body = (command <- parseRequestPath req ;;
     cmdStr <- validateCommand command ;;
     envVars <- extractEnvVarsFromHeaders req ;;
     log INFO (LogNewConnection command (size envVars)) ;;;
     server_connect env (res req) ;;;
     (if String.eqb (env_sessionId env) EmptyString then throw NoSessionId else ret tt) ;;;
     cfg <- get config ;;
     penv <- get process_env ;;
     childProcess <- spawn cmdStr (spawn_env penv envVars (nodeEnv cfg)) (env_worker env) ;;
     now <- get clock ;;
     registry_insert (env_sessionId env)
       (mkSession (res req) (res req) childProcess command envVars now))%proxy ->
  (exists e st1,
     body st = (Throw e, st1) /\
     sessions st1 = sessions st /\ children st1 = children st /\ next_ref st1 = next_ref st /\
     spawned (trace st1) = spawned (trace st))
  \/
  (exists c ov st1,
     body st = (Ok tt, st1) /\
     sessions st1 = <[env_sessionId env :=
                        mkSession (res req) (res req) (next_ref st) c ov (clock st)]> (sessions st) /\
     children st1 = <[next_ref st := env_worker env]> (children st) /\
     next_ref st1 = S (next_ref st) /\
     spawned (trace st1) = spawned (trace st) ++ [c]).
Proof.
  intros body ->.
  assert (Hp : (exists c, parseRequestPath req st = (Ok c, st))
               \/ exists e, parseRequestPath req st = (Throw e, st)).
  { unfold parseRequestPath. destruct (params_command req) as [raw|]; [|right; eexists; reflexivity].
    destruct (String.eqb raw EmptyString); [right; eexists; reflexivity|].
    destruct (decodeURIComponent raw); [left|right]; eexists; reflexivity. }
  destruct Hp as [[c Hp] | [e Hp]];
    [rewrite (bind_ok _ _ _ _ _ Hp)
    |rewrite (bind_throw _ _ _ _ _ Hp); left; do 2 eexists; repeat split; reflexivity].
  assert (Hv : validateCommand c st = (Ok c, st)
               \/ validateCommand c st = (Throw (CommandNotAllowed c), st)).
  { unfold validateCommand. destruct (js_get enabledCommands c) as [[|]| |]; auto. }
  destruct Hv as [Hv | Hv];
    [rewrite (bind_ok _ _ _ _ _ Hv)
    |rewrite (bind_throw _ _ _ _ _ Hv); left; do 2 eexists; repeat split; reflexivity].
  unfold extractEnvVarsFromHeaders.
  rewrite (bind_ok _ _ _ _ _ (extractEnvVars_loop_spec (headers req) ∅ st)).
  set (ov := env_overrides (headers req) ∅).
  unfold server_connect.
  destruct (env_connect_ok env).
  - destruct (String.eqb (env_sessionId env) EmptyString).
    + left. unfold_m. cbn beta iota. do 2 eexists. split; [reflexivity|]. cbn.
      repeat split. rewrite !spawned_app, spawned_blocked_overrides. cbn. now rewrite !app_nil_r.
    + right. unfold spawn, registry_insert. unfold_m. cbn beta iota.
      exists c, ov. eexists. split; [reflexivity|]. cbn.
      repeat split. rewrite !spawned_app, spawned_blocked_overrides. cbn.
      now rewrite !app_nil_r.
  - unfold_m. left. do 2 eexists. split; [reflexivity|]. cbn.
    repeat split. rewrite !spawned_app, spawned_blocked_overrides. cbn. now rewrite !app_nil_r.
Qed.

(** X8.  Whatever the request and the surroundings, [handleSSEConnection]
    lets no exception escape and does one of two things: it spawns no
    process and leaves registry and processes as they were, or it spawns
    exactly one process and registers exactly one session, which owns
    that process.  No failure (a bad path, a refused command, a failed
    connect, a missing session id) leaves a process without a session or
    a session without a process. *)
Theorem handleSSEConnection_spawns_iff_registers env req st :
  let st' := snd (handleSSEConnection env req st) in
  fst (handleSSEConnection env req st) = Ok tt /\
  ((spawned (trace st') = spawned (trace st) /\
    sessions st' = sessions st /\
    children st' = children st /\
    next_ref st' = next_ref st)
   \/
   (exists c overrides,
      spawned (trace st') = spawned (trace st) ++ [c] /\
      sessions st' = <[env_sessionId env :=
                         mkSession (res req) (res req) (next_ref st) c overrides (clock st)]>
                       (sessions st) /\
      children st' = <[next_ref st := env_worker env]> (children st) /\
      next_ref st' = S (next_ref st))).
Proof.
  unfold handleSSEConnection.
  match goal with
  | |- context [try_catch ?b ?h st] =>
      destruct (handleSSEConnection_body_cases env req st b eq_refl)
        as [(e & st1 & Hb & Hs & Hc & Hn & Hsp) | (c & ov & st1 & Hb & Hs & Hc & Hn & Hsp)];
      [ rewrite (try_catch_throw_at b h st st1 e Hb)
      | rewrite (try_catch_ok b h st st1 tt Hb) ]
  end.
  - rewrite answer_500_spec. cbn [fst snd]. split; [reflexivity|]. left.
    destruct (headersSent (responses st1 !!! res req)); cbn;
      rewrite ?spawned_app; cbn; rewrite ?app_nil_r; auto.
  - cbn [fst snd]. split; [reflexivity|]. right. exists c, ov. auto.
Qed.

(** X9.  A command that is not mapped to true in the allow-list and is
    not the name of an inherited property is refused before anything is
    allocated: no process is spawned, registry and processes are as
    before, and the request is answered 500 with the body of an internal
    error (not 403: the error thrown by the gate carries no status). *)
Theorem command_outside_allow_list_is_refused env req st raw c :
  params_command req = Some raw ->
  decodeURIComponent raw = Some c ->
  enabledCommands !! c <> Some true ->
  c ∉ Object_prototype_properties ->
  headersSent (responses st !!! res req) = false ->
  let st' := snd (handleSSEConnection env req st) in
  fst (handleSSEConnection env req st) = Ok tt /\
  spawned (trace st') = spawned (trace st) /\
  sessions st' = sessions st /\
  children st' = children st /\
  answer (res req) st' = Some (500%nat, BError "Internal server error").
Proof.
  intros Hp Hdec Hnot Hown Hhead.
  destruct (handleSSEConnection_rejected env req st) as (Hok & Hs & Hc & e & Htr).
  { intros raw' c' Hp' Hdec'. rewrite Hp in Hp'. injection Hp' as <-.
    rewrite Hdec in Hdec'. injection Hdec' as <-. auto. }
  rewrite Hhead in Htr.
  repeat split; try assumption.
  - rewrite Htr, spawned_app. cbn. now rewrite app_nil_r.
  - apply (answer_last _ _ (trace st ++ [EvLog ERROR (LogConnectionFailed e)])).
    rewrite Htr, <- app_assoc. reflexivity.
Qed.

Lemma command_outside_allow_list_is_refused_witness :
  let st' := snd (handleSSEConnection example_environment refused_command_request idle_state) in
  spawned (trace st') = [] /\
  sessions st' = ∅ /\
  answer 8 st' = Some (500%nat, BError "Internal server error").
Proof.
  destruct (command_outside_allow_list_is_refused example_environment refused_command_request
              idle_state "rm" "rm" eq_refl eq_refl) as (_ & Hsp & Hs & _ & Ha).
  - vm_compute. discriminate.
  - refine (proj1 (bool_decide_eq_false ("rm" ∈ Object_prototype_properties)) _).
    vm_compute. reflexivity.
  - reflexivity.
  - split; [exact Hsp|]. split; [exact Hs|exact Ha].
Defined.

Lemma ascii_toUpper_not_lower a :
  let n := N_of_ascii (ascii_toUpper a) in ((97 <=? n) && (n <=? 122))%N = false.
Proof.
  destruct a as [[] [] [] [] [] [] [] []]; vm_compute; reflexivity.
Qed.

Lemma toUpperCase_no_lower s : has_lower (toUpperCase s) = false.
Proof.
  unfold has_lower, toUpperCase. induction s as [|a s IH]; [reflexivity|].
  cbn [map_string list_ascii_of_string existsb].
  rewrite IH, orb_false_r. apply ascii_toUpper_not_lower.
Qed.

Lemma inherited_names_have_lower key :
  key ∈ Object_prototype_properties -> has_lower key = true.
Proof.
  unfold Object_prototype_properties. rewrite !elem_of_cons, elem_of_nil.
  intros H. repeat (destruct H as [-> | H]; [vm_compute; reflexivity|]). destruct H.
Qed.

Lemma env_overrides_origin hs : forall acc key v,
  env_overrides hs acc !! key = Some v ->
  acc !! key = Some v \/
  exists name value,
    In (name, value) hs /\
    startsWith (toUpperCase name) "ENV_" = true /\
    key = toUpperCase (substring_from 4 name) /\
    header_first value = Some v.
Proof.
  induction hs as [|[n hv] hs IH]; intros acc key v H; [now left|].
  cbn [env_overrides] in H.
  assert (Hrec : forall acc', env_overrides hs acc' !! key = Some v -> acc' !! key = Some v \/
            exists name value, In (name, value) ((n, hv) :: hs) /\
              startsWith (toUpperCase name) "ENV_" = true /\
              key = toUpperCase (substring_from 4 name) /\ header_first value = Some v).
  { intros acc' H'. destruct (IH _ _ _ H') as [?|(name & value & Hin & ?)]; [now left|].
    right. exists name, value. split; [right; exact Hin|assumption]. }
  destruct (startsWith (toUpperCase n) "ENV_") eqn:Hpre; [|now apply Hrec].
  destruct (bool_decide _); [now apply Hrec|].
  destruct (header_first hv) as [x|] eqn:Hx; [|now apply Hrec].
  destruct (Hrec _ H) as [Hacc|?]; [|right; assumption].
  destruct (decide (substring_from 4 (toUpperCase n) = key)) as [<-|Hne].
  - rewrite lookup_insert_eq in Hacc. injection Hacc as <-.
    right. exists n, hv. split; [now left|]. repeat split; try assumption.
    unfold toUpperCase. apply substring_from_map_string.
  - rewrite lookup_insert_ne in Hacc by exact Hne. now left.
Qed.

(** X10.  [extractEnvVarsFromHeaders] never throws, and every override
    it returns stems from a header: the header's name starts with ENV_ in
    some letter case, the key is the rest of the name in upper case, and
    the value is the header's value (the first one, if there are
    several).  No key is on the deny-list, and none is the name of a
    property that every object inherits, so that writing the key to the
    object of overrides is a plain insertion. *)
Theorem overrides_come_from_env_headers req st :
  exists ov,
    fst (extractEnvVarsFromHeaders req st) = Ok ov /\
    forall key v,
      ov !! key = Some v ->
      (key ∉ blacklistedEnvVars) /\
      (key ∉ Object_prototype_properties) /\
      exists name value,
        In (name, value) (headers req) /\
        startsWith (toUpperCase name) "ENV_" = true /\
        key = toUpperCase (substring_from 4 name) /\
        header_first value = Some v.
Proof.
  unfold extractEnvVarsFromHeaders. rewrite extractEnvVars_loop_spec. cbn [fst].
  eexists. split; [reflexivity|]. intros key v Hk.
  destruct (env_overrides_origin _ _ _ _ Hk) as [Hacc | (name & value & Hin & Hpre & -> & Hv)];
    [rewrite lookup_empty in Hacc; discriminate|].
  split; [|split].
  - intros Hbl. rewrite env_overrides_blacklisted in Hk by exact Hbl.
    rewrite lookup_empty in Hk. discriminate Hk.
  - intros Hin'. apply inherited_names_have_lower in Hin'.
    rewrite toUpperCase_no_lower in Hin'. discriminate Hin'.
  - eauto 10.
Qed.

(** X11.  The environment handed to the worker is built in three
    layers.  NODE_ENV is always the one of the proxy, whatever the
    headers say (it is not on the deny-list, but it is written last); a
    deny-listed variable always has the value it has in the environment
    of the proxy; any other variable has the value of its override when
    there is one, and the value it has in the environment of the proxy
    otherwise. *)
Theorem worker_environment_layers hs penv node_env :
  let overrides := env_overrides hs ∅ in
  let worker_env := spawn_env penv overrides node_env in
  worker_env !! "NODE_ENV" = Some node_env /\
  (forall key, key ∈ blacklistedEnvVars -> worker_env !! key = penv !! key) /\
  (forall key v, key <> "NODE_ENV" -> overrides !! key = Some v -> worker_env !! key = Some v) /\
  (forall key, key <> "NODE_ENV" -> overrides !! key = None -> worker_env !! key = penv !! key).
Proof.
  intros overrides worker_env. subst worker_env. unfold spawn_env. repeat split.
  - apply lookup_insert_eq.
  - intros key Hbl. apply spawn_env_blacklisted; [exact Hbl|].
    unfold overrides. rewrite env_overrides_blacklisted by exact Hbl. apply lookup_empty.
  - intros key v Hne Hov. rewrite lookup_insert_ne by congruence.
    apply lookup_union_Some_l. exact Hov.
  - intros key Hne Hov. rewrite lookup_insert_ne by congruence.
    now apply lookup_union_r.
Qed.

(** X12.  The command of a stream request is percent-decoded twice, once
    by the router and once by [parseRequestPath]: when the path segment
    decodes to [c1] and [c1] decodes to [c2], it is [c2] that is checked
    against the allow-list, spawned and recorded in the session.  A
    command that is encoded twice in the URL is thus admitted like the
    same command encoded once. *)
Theorem route_parameter_is_decoded_twice env req st seg c1 c2 :
  method req = "GET" ->
  match_command_route "sse" (path req) = Some seg ->
  decodeURIComponent seg = Some c1 ->
  c1 <> EmptyString ->
  decodeURIComponent c1 = Some c2 ->
  enabledCommands !! c2 = Some true ->
  env_connect_ok env = true ->
  env_sessionId env <> EmptyString ->
  let st' := snd (router env req st) in
  fst (router env req st) = Ok tt /\
  spawned (trace st') = spawned (trace st) ++ [c2] /\
  command <$> sessions st' !! env_sessionId env = Some c2.
Proof.
  intros Hm Hroute Hd1 Hne Hd2 Hen Hconn Hsid.
  assert (Hpath : String.eqb (path req) "/health" = false).
  { apply String.eqb_neq. intros Heq. rewrite Heq in Hroute. vm_compute in Hroute. discriminate. }
  unfold router. rewrite Hm, Hpath, Hroute. cbn [String.eqb Ascii.eqb Bool.eqb andb].
  rewrite Hd1.
  destruct (handleSSEConnection_admitted env (with_command c1 req) st c1 c2
              eq_refl Hne Hd2 Hen Hconn Hsid) as (st1 & Hrun & Htr & Hss).
  rewrite Hrun. cbn [fst snd]. split; [reflexivity|]. split.
  - rewrite Htr, !spawned_app, spawned_blocked_overrides. reflexivity.
  - rewrite Hss, lookup_insert_eq. reflexivity.
Qed.

Lemma route_parameter_is_decoded_twice_witness :
  let st' := snd (router example_environment twice_encoded_request idle_state) in
  decodeURIComponent "npx%2520-y%2520exa-mcp-server" = Some "npx%20-y%20exa-mcp-server" /\
  spawned (trace st') = ["npx -y exa-mcp-server"] /\
  command <$> sessions st' !! "s2" = Some "npx -y exa-mcp-server".
Proof.
  split; [vm_compute; reflexivity|].
  destruct (route_parameter_is_decoded_twice example_environment twice_encoded_request idle_state
              "npx%2520-y%2520exa-mcp-server" "npx%20-y%20exa-mcp-server" "npx -y exa-mcp-server")
    as (_ & Hsp & Hc).
  - reflexivity.
  - vm_compute. reflexivity.
  - vm_compute. reflexivity.
  - discriminate.
  - vm_compute. reflexivity.
  - vm_compute. reflexivity.
  - reflexivity.
  - discriminate.
  - split; [exact Hsp|exact Hc].
Defined.

(** X13.  A post that names no session, an empty one, or one that is not
    in the registry is answered at once (400 when the id is missing or
    empty, 503 when it is unknown) and has no other effect: registry and
    processes are as before and nothing else is logged or sent. *)
Theorem post_without_live_session_is_refused env req st :
  (forall sid, query_sessionId req = Some sid -> sessions st !! sid = None) ->
  let st' := snd (handleMessagePost env req st) in
  fst (handleMessagePost env req st) = Ok tt /\
  sessions st' = sessions st /\
  children st' = children st /\
  trace st' = trace st ++
    [EvRespond (res req)
       (match query_sessionId req with
        | Some sid => if String.eqb sid EmptyString then 400 else 503
        | None => 400
        end)%nat
       (BError (match query_sessionId req with
                | Some sid => if String.eqb sid EmptyString then "Missing sessionId parameter"
                              else "No active SSE connection for session " +:+ sid
                | None => "Missing sessionId parameter"
                end))].
Proof.
  intros Hnone. unfold handleMessagePost, respond. unfold_m.
  destruct (query_sessionId req) as [sid|] eqn:Hq; [|cbn; repeat split; reflexivity].
  destruct (String.eqb sid EmptyString); [cbn; repeat split; reflexivity|].
  cbn beta iota. rewrite (Hnone sid eq_refl). cbn. repeat split; reflexivity.
Qed.

Lemma post_without_live_session_is_refused_witness :
  let st' := snd (handleMessagePost example_environment unknown_session_post live_state) in
  sessions st' = sessions live_state /\
  trace st' = [EvRespond 9 503 (BError "No active SSE connection for session nope")].
Proof.
  destruct (post_without_live_session_is_refused example_environment unknown_session_post
              live_state) as (_ & Hs & _ & Ht).
  - intros sid [= <-]. reflexivity.
  - split; [exact Hs|exact Ht].
Defined.

(** ** Splitting at a separator *)

Lemma append_nil s : EmptyString +:+ s = s.
Proof. reflexivity. Qed.

Lemma append_cons c s t : String c s +:+ t = String c (s +:+ t).
Proof. reflexivity. Qed.

Lemma append_snoc cur c s : (cur +:+ String c EmptyString) +:+ s = cur +:+ String c s.
Proof.
  induction cur as [|d cur IH]; [reflexivity|]. rewrite !append_cons. f_equal. exact IH.
Qed.

Lemma append_empty_r s : s +:+ EmptyString = s.
Proof. induction s as [|c s IH]; [reflexivity|]. rewrite append_cons. f_equal. exact IH. Qed.

Lemma split_aux_no_sep sep s : forall cur,
  includes sep s = false -> split_aux sep cur s = [cur +:+ s].
Proof.
  induction s as [|c s IH]; intros cur H; cbn [split_aux includes] in *.
  - now rewrite append_empty_r.
  - apply orb_false_iff in H as [Hc Hs]. rewrite Ascii.eqb_sym, Hc.
    rewrite IH by exact Hs. now rewrite append_snoc.
Qed.

Lemma split_aux_sep sep a b : forall cur,
  includes sep a = false ->
  split_aux sep cur (a +:+ String sep b) = (cur +:+ a) :: split_aux sep EmptyString b.
Proof.
  induction a as [|c a IH]; intros cur H.
  - rewrite append_nil. cbn [split_aux]. now rewrite Ascii.eqb_refl, append_empty_r.
  - cbn [includes] in H. apply orb_false_iff in H as [Hc Hs].
    rewrite append_cons. cbn [split_aux]. rewrite Ascii.eqb_sym, Hc.
    rewrite IH by exact Hs. now rewrite append_snoc.
Qed.

Lemma first_separator sep s :
  includes sep s = false \/
  exists a b, s = a +:+ String sep b /\ includes sep a = false.
Proof.
  induction s as [|c s IH]; [now left|].
  cbn. destruct (Ascii.eqb sep c) eqn:Hc.
  - right. apply Ascii.eqb_eq in Hc as <-. exists EmptyString, s. now split.
  - destruct IH as [H|(a & b & -> & Ha)]; [now left|].
    right. exists (String c a), b. split; [reflexivity|]. cbn. now rewrite Hc.
Qed.

Lemma split_aux_length sep s : forall cur, (1 <= length (split_aux sep cur s))%nat.
Proof.
  induction s as [|c s IH]; intros cur; cbn; [lia|].
  destruct (Ascii.eqb c sep); [cbn; lia | apply IH].
Qed.

Lemma split_aux_length_sep sep s cur :
  includes sep s = true -> (2 <= length (split_aux sep cur s))%nat.
Proof.
  intros H. destruct (first_separator sep s) as [Hno | (a & b & -> & Ha)]; [congruence|].
  rewrite split_aux_sep by exact Ha. cbn [length].
  pose proof (split_aux_length sep b EmptyString). lia.
Qed.

(** A string splits in two exactly when it holds the separator once. *)
Lemma split_two sep h x y :
  split sep h = [x; y] <->
  h = x +:+ String sep y /\ includes sep x = false /\ includes sep y = false.
Proof.
  unfold split. split.
  - intros H. destruct (first_separator sep h) as [Hno | (a & b & -> & Ha)].
    + rewrite split_aux_no_sep in H by exact Hno. discriminate.
    + rewrite split_aux_sep in H by exact Ha. cbn in H. injection H as <- Hb.
      destruct (first_separator sep b) as [Hno | (a' & b' & -> & Ha')].
      * rewrite split_aux_no_sep in Hb by exact Hno. cbn in Hb. injection Hb as <-. auto.
      * rewrite split_aux_sep in Hb by exact Ha'. injection Hb as _ Hb.
        pose proof (split_aux_length sep b' EmptyString) as Hl. rewrite Hb in Hl. cbn in Hl. lia.
  - intros (-> & Hx & Hy). rewrite split_aux_sep by exact Hx.
    rewrite split_aux_no_sep by exact Hy. reflexivity.
Qed.

Lemma includes_app c a b : includes c (a +:+ b) = includes c a || includes c b.
Proof.
  induction a as [|d a IH]; [reflexivity|].
  rewrite append_cons. cbn [includes]. rewrite IH. now rewrite orb_assoc.
Qed.

Lemma includes_space_toLowerCase s : includes " " (toLowerCase s) = includes " " s.
Proof.
  unfold toLowerCase. induction s as [|c s IH]; [reflexivity|].
  cbn [map_string includes]. rewrite IH. f_equal.
  destruct c as [[] [] [] [] [] [] [] []]; vm_compute; reflexivity.
Qed.

(** ** Authentication *)

(** The requests that [createAuthMiddleware] lets through, apart from the
    exempt ones: those whose Authorization header is a scheme that reads
    bearer in any letter case, one space, and the secret. *)
Lemma createAuthMiddleware_cases secret req st :
  url req <> "/health" -> method req <> "OPTIONS" ->
  ((exists scheme,
      header_string "authorization" req = Some (scheme +:+ " " +:+ secret) /\
      toLowerCase scheme = "bearer" /\ includes " " secret = false) /\
   createAuthMiddleware secret req st = (Ok Next, st))
  \/
  (~ (exists scheme,
      header_string "authorization" req = Some (scheme +:+ " " +:+ secret) /\
      toLowerCase scheme = "bearer" /\ includes " " secret = false) /\
   exists entry message,
     createAuthMiddleware secret req st = (Ok Handled, answered_401 req st entry message)).
Proof.
  intros Hu Hm. apply String.eqb_neq in Hu. apply String.eqb_neq in Hm.
  unfold createAuthMiddleware. rewrite Hu, Hm. cbn [orb].
  destruct (header_string "authorization" req) as [h|] eqn:Hh.
  2:{ right. split; [intros (scheme & [=] & _)|]. do 2 eexists. reflexivity. }
  destruct (split " " h) as [|x [|y [|z parts]]] eqn:Hsplit;
    try (right; split;
         [ intros (scheme & [= ->] & Hlow & Hsec);
           assert (Hsch : includes " " scheme = false)
             by (rewrite <- includes_space_toLowerCase, Hlow; reflexivity);
           assert (Hs2 : split " " (scheme +:+ " " +:+ secret) = [scheme; secret])
             by (apply split_two; auto);
           rewrite Hs2 in Hsplit; discriminate
         | do 2 eexists; reflexivity ]).
  cbn [length Nat.eqb negb orb nth].
  apply split_two in Hsplit as (-> & Hx & Hy).
  destruct (String.eqb (toLowerCase x) "bearer") eqn:Hlow; cbn [negb].
  - destruct (String.eqb y secret) eqn:Hy'; cbn [negb].
    + left. apply String.eqb_eq in Hlow, Hy'. subst y. split; [|reflexivity].
      exists x. auto.
    + right. split; [|do 2 eexists; reflexivity].
      intros (scheme & [= Heq] & Hlow' & Hsec).
      assert (Hsch : includes " " scheme = false)
        by (rewrite <- includes_space_toLowerCase, Hlow'; reflexivity).
      assert (H1 : split " " (x +:+ " " +:+ y) = [x; y]) by (apply split_two; auto).
      assert (H2 : split " " (scheme +:+ " " +:+ secret) = [scheme; secret])
        by (apply split_two; auto).
      change (String " " y) with (" " +:+ y) in Heq.
      rewrite Heq in H1. rewrite H1 in H2. injection H2 as _ ->.
      rewrite String.eqb_refl in Hy'. discriminate.
  - right. split; [|do 2 eexists; reflexivity].
    intros (scheme & [= Heq] & Hlow' & Hsec).
    assert (Hsch : includes " " scheme = false)
      by (rewrite <- includes_space_toLowerCase, Hlow'; reflexivity).
    assert (H1 : split " " (x +:+ " " +:+ y) = [x; y]) by (apply split_two; auto).
    assert (H2 : split " " (scheme +:+ " " +:+ secret) = [scheme; secret])
      by (apply split_two; auto).
    change (String " " y) with (" " +:+ y) in Heq.
    rewrite Heq in H1. rewrite H1 in H2. injection H2 as -> _.
    rewrite Hlow', String.eqb_refl in Hlow. discriminate.
Qed.

(** X14.  A request that is neither for the health URL nor a preflight
    passes authentication exactly when its Authorization header consists
    of a scheme that reads bearer in any letter case, one space, and the
    configured secret, and the secret holds no space.  A request that
    passes leaves the state untouched; every other request is answered
    401 after one warning, and nothing else happens.  In particular no
    request can pass when the configured secret contains a space. *)
Theorem auth_accepts_exactly_the_bearer_secret secret req st :
  url req <> "/health" -> method req <> "OPTIONS" ->
  (fst (createAuthMiddleware secret req st) = Ok Next <->
   exists scheme,
     header_string "authorization" req = Some (scheme +:+ " " +:+ secret) /\
     toLowerCase scheme = "bearer" /\ includes " " secret = false) /\
  (fst (createAuthMiddleware secret req st) = Ok Next ->
   snd (createAuthMiddleware secret req st) = st) /\
  (fst (createAuthMiddleware secret req st) <> Ok Next ->
   exists entry message,
     createAuthMiddleware secret req st = (Ok Handled, answered_401 req st entry message)).
Proof.
  intros Hu Hm.
  destruct (createAuthMiddleware_cases secret req st Hu Hm)
    as [[Hacc Hrun] | [Hrej (entry & message & Hrun)]]; rewrite Hrun; cbn [fst snd].
  - repeat split; auto. congruence.
  - repeat split; try discriminate; try tauto. intros _. eauto.
Qed.

Lemma auth_accepts_exactly_the_bearer_secret_witness :
  fst (createAuthMiddleware "0123456789abcdef0123456789abcdef" post_request live_state) = Ok Next /\
  fst (createAuthMiddleware "0123456789abcdef 123456789abcdef" post_request live_state)
    <> Ok Next.
Proof.
  split.
  - destruct (auth_accepts_exactly_the_bearer_secret "0123456789abcdef0123456789abcdef"
                post_request live_state) as [[_ Hfrom] _]; [discriminate..|].
    apply Hfrom. exists "Bearer". repeat split.
  - intros H.
    destruct (auth_accepts_exactly_the_bearer_secret "0123456789abcdef 123456789abcdef"
                post_request live_state) as [[Hto _] _]; [discriminate..|].
    destruct (Hto H) as (scheme & _ & _ & Hsp). vm_compute in Hsp. discriminate.
Defined.

(** ** The middleware chain *)

Lemma createSecurityMiddleware_next req st :
  url req <> "/health" -> method req <> "OPTIONS" ->
  exists hs,
    createSecurityMiddleware req st = (Ok Next, set_trace (fun t => t ++ hs) st) /\
    forallb is_set_header hs = true.
Proof.
  intros Hu Hm. apply String.eqb_neq in Hu. apply String.eqb_neq in Hm.
  unfold createSecurityMiddleware, setHeader. rewrite Hu, Hm. unfold_m.
  destruct (secure req || header_is "x-forwarded-proto" "https" req);
    destruct (header_string "origin" req); cbn beta iota;
    (eexists; split; [rewrite <- !set_trace_cons; reflexivity | reflexivity]).
Qed.

(** The part of the chain that every request other than a preflight and
    the health URL passes: the cors package, the request log and the
    security headers; then comes authentication. *)
Lemma express_app_to_auth env req st :
  url req <> "/health" -> method req <> "OPTIONS" ->
  exists pre,
    forallb is_preamble pre = true /\
    express_app env req st =
      (o <- createAuthMiddleware (authSecret (config st)) req ;;
       match o with
       | Next => run_middleware [createRateLimitMiddleware; jsonMiddleware] (router env) req
       | Handled => ret tt
       end)%proxy (set_trace (fun t => t ++ pre) st).
Proof.
  intros Hu Hm.
  destruct (createSecurityMiddleware_next req
              (set_trace (fun t => t ++ [EvLog INFO (LogIncomingRequest (method req) (path req))])
                 (set_trace (fun t => t ++ [EvCorsHeaders (res req)]) st)) Hu Hm)
    as (hs & Hsec & Hhs).
  exists (EvCorsHeaders (res req) :: EvLog INFO (LogIncomingRequest (method req) (path req)) :: hs).
  split.
  - cbn. clear Hsec. induction hs as [|[] hs IH]; cbn in *; try discriminate; auto.
  - apply String.eqb_neq in Hm.
    unfold express_app. cbn [run_middleware].
    unfold corsMiddleware at 1. rewrite Hm.
    unfold createRequestLoggingMiddleware at 1.
    unfold_m. cbn beta iota. unfold_m. rewrite Hsec.
    cbn [config set_trace].
    replace (set_trace (fun t => t ++ EvCorsHeaders (res req)
                          :: EvLog INFO (LogIncomingRequest (method req) (path req)) :: hs) st)
      with (set_trace (fun t => t ++ hs)
            (set_trace (fun t => t ++ [EvLog INFO (LogIncomingRequest (method req) (path req))])
               (set_trace (fun t => t ++ [EvCorsHeaders (res req)]) st)))
      by (unfold set_trace; cbn; rewrite <- !app_assoc; reflexivity).
    reflexivity.
Qed.

Lemma spawned_preamble pre : forallb is_preamble pre = true -> spawned pre = [].
Proof.
  induction pre as [|e pre IH]; [reflexivity|].
  cbn [forallb]. intros H. apply andb_true_iff in H as [He Hpre].
  destruct e; try discriminate He; cbn [spawned]; auto.
Qed.

(** The rate-limit middleware for a request that is not exempt. *)
Lemma createRateLimitMiddleware_cases req st :
  url req <> "/health" -> method req <> "OPTIONS" ->
  let d := allow (client_ip req) (clock st) (rateLimiter st) in
  createRateLimitMiddleware req st =
    if fst d then (Ok Next, set_rateLimiter (fun _ => snd d) st)
    else (Ok Handled,
          set_responses (insert (res req) (mkResponse true false))
            (set_trace (fun t => t ++ [EvRespond (res req) 429 (BError "Rate limit exceeded")])
               (set_trace (fun t => t ++ [EvLog WARN (LogRateLimitExceeded (client_ip req))])
                  (set_rateLimiter (fun _ => snd d) st)))).
Proof.
  intros Hu Hm. apply String.eqb_neq in Hu. apply String.eqb_neq in Hm.
  unfold createRateLimitMiddleware. rewrite Hu, Hm. cbn [orb]. unfold respond. unfold_m.
  cbv zeta. destruct (allow (client_ip req) (clock st) (rateLimiter st)) as [[|] rl']; reflexivity.
Qed.

(** X15.  Authentication comes before the rate limiter and the routes: a
    request (other than a preflight or the health URL) that does not carry
    the secret as a bearer token is answered 401 by the application, and
    on the way the rate limiter is not consulted (no token is taken from
    any bucket), no session or process is touched and nothing is
    spawned. *)
Theorem request_without_credentials_stops_at_auth env req st :
  url req <> "/health" -> method req <> "OPTIONS" ->
  ~ (exists scheme,
       header_string "authorization" req = Some (scheme +:+ " " +:+ authSecret (config st)) /\
       toLowerCase scheme = "bearer") ->
  let st' := snd (express_app env req st) in
  fst (express_app env req st) = Ok tt /\
  (exists message, answer (res req) st' = Some (401%nat, BError message)) /\
  rateLimiter st' = rateLimiter st /\
  sessions st' = sessions st /\
  children st' = children st /\
  spawned (trace st') = spawned (trace st).
Proof.
  intros Hu Hm Hno.
  destruct (express_app_to_auth env req st Hu Hm) as (pre & Hpre & ->).
  set (st0 := set_trace (fun t => t ++ pre) st).
  destruct (createAuthMiddleware_cases (authSecret (config st)) req st0 Hu Hm)
    as [[(scheme & Hh & Hlow & _) _] | [_ (entry & message & Hrun)]].
  { exfalso. apply Hno. eauto. }
  cbv zeta. rewrite (bind_ok _ _ _ _ _ Hrun). cbn [ret fst snd].
  split; [reflexivity|]. split; [|split; [reflexivity|split; [reflexivity|split; [reflexivity|]]]].
  - exists message. apply (answer_last _ _ (trace st ++ pre ++ [EvLog WARN entry])).
    cbn. rewrite <- !app_assoc. reflexivity.
  - cbn. rewrite !spawned_app, (spawned_preamble pre Hpre). cbn. now rewrite !app_nil_r.
Qed.

Lemma request_without_credentials_stops_at_auth_witness :
  let st' := snd (express_app example_environment health_request_with_query exhausted_state) in
  (exists message, answer 8 st' = Some (401%nat, BError message)) /\
  rateLimiter st' = rateLimiter exhausted_state /\
  sessions st' = sessions exhausted_state.
Proof.
  destruct (request_without_credentials_stops_at_auth example_environment
              health_request_with_query exhausted_state) as (_ & Ha & Hrl & Hs & _).
  - discriminate.
  - discriminate.
  - intros (scheme & H & _). vm_compute in H. discriminate.
  - split; [exact Ha|]. split; [exact Hrl|exact Hs].
Defined.

(** X16.  A request with valid credentials whose identity has no token
    left is answered 429 by the application and goes no further: the
    limiter records the attempt, and no session or process is touched and
    nothing is spawned. *)
Theorem request_over_the_limit_stops_at_limiter env req st scheme :
  url req <> "/health" -> method req <> "OPTIONS" ->
  header_string "authorization" req = Some (scheme +:+ " " +:+ authSecret (config st)) ->
  toLowerCase scheme = "bearer" ->
  includes " " (authSecret (config st)) = false ->
  fst (allow (client_ip req) (clock st) (rateLimiter st)) = false ->
  let st' := snd (express_app env req st) in
  fst (express_app env req st) = Ok tt /\
  answer (res req) st' = Some (429%nat, BError "Rate limit exceeded") /\
  rateLimiter st' = snd (allow (client_ip req) (clock st) (rateLimiter st)) /\
  sessions st' = sessions st /\
  children st' = children st /\
  spawned (trace st') = spawned (trace st).
Proof.
  intros Hu Hm Hh Hlow Hsec Hallow.
  destruct (express_app_to_auth env req st Hu Hm) as (pre & Hpre & ->).
  set (st0 := set_trace (fun t => t ++ pre) st).
  destruct (createAuthMiddleware_cases (authSecret (config st)) req st0 Hu Hm)
    as [[_ Hrun] | [Hno _]].
  2:{ exfalso. apply Hno. eauto. }
  cbv zeta. rewrite (bind_ok _ _ _ _ _ Hrun).
  cbn [run_middleware].
  pose proof (createRateLimitMiddleware_cases req st0 Hu Hm) as Hrl.
  cbv zeta in Hrl. cbn [clock rateLimiter st0 set_trace] in Hrl. rewrite Hallow in Hrl.
  rewrite (bind_ok _ _ _ _ _ Hrl). cbn [ret fst snd].
  split; [reflexivity|]. split; [|split; [reflexivity|split; [reflexivity|split; [reflexivity|]]]].
  - apply (answer_last _ _ (trace st ++ pre ++ [EvLog WARN (LogRateLimitExceeded (client_ip req))])).
    cbn. rewrite <- !app_assoc. reflexivity.
  - cbn. rewrite !spawned_app, (spawned_preamble pre Hpre). cbn. now rewrite !app_nil_r.
Qed.

Lemma request_over_the_limit_stops_at_limiter_witness :
  let st' := snd (express_app example_environment post_request exhausted_state) in
  answer 9 st' = Some (429%nat, BError "Rate limit exceeded") /\
  sessions st' = sessions exhausted_state /\
  spawned (trace st') = [].
Proof.
  destruct (request_over_the_limit_stops_at_limiter example_environment post_request
              exhausted_state "Bearer") as (_ & Ha & _ & Hs & _ & Hsp).
  - discriminate.
  - discriminate.
  - reflexivity.
  - reflexivity.
  - reflexivity.
  - vm_compute. reflexivity.
  - split; [exact Ha|]. split; [exact Hs|exact Hsp].
Defined.

(** X17.  The detailed health report of [handleHealthCheck] is reached
    only past authentication and the rate limiter: a GET whose path is the
    health path but whose URL is not exactly the health URL (it carries a
    query string), with valid credentials and a token left, is answered
    200 with the status, the time, the uptime in seconds, the number of
    registered sessions, the memory figures in megabytes and the
    environment name. *)
Theorem health_report_is_behind_authentication env req st scheme :
  method req = "GET" ->
  path req = "/health" ->
  url req <> "/health" ->
  header_string "authorization" req = Some (scheme +:+ " " +:+ authSecret (config st)) ->
  toLowerCase scheme = "bearer" ->
  includes " " (authSecret (config st)) = false ->
  fst (allow (client_ip req) (clock st) (rateLimiter st)) = true ->
  json_body_ok req = true ->
  let st' := snd (express_app env req st) in
  fst (express_app env req st) = Ok tt /\
  answer (res req) st' =
    Some (200%nat,
          BHealth (mkHealth "ok" (clock st) (uptime_ms st / 1000) (size (sessions st))
                     (mkMemoryUsage (round_mb (rss (memory st))) (round_mb (heapUsed (memory st)))
                                    (round_mb (heapTotal (memory st))))
                     (nodeEnv (config st)))) /\
  sessions st' = sessions st.
Proof.
  intros Hget Hpath Hu Hh Hlow Hsec Hallow Hjson.
  assert (Hm : method req <> "OPTIONS") by (rewrite Hget; discriminate).
  destruct (express_app_to_auth env req st Hu Hm) as (pre & Hpre & ->).
  set (st0 := set_trace (fun t => t ++ pre) st).
  destruct (createAuthMiddleware_cases (authSecret (config st)) req st0 Hu Hm)
    as [[_ Hrun] | [Hno _]].
  2:{ exfalso. apply Hno. eauto. }
  cbv zeta. rewrite (bind_ok _ _ _ _ _ Hrun).
  cbn [run_middleware].
  pose proof (createRateLimitMiddleware_cases req st0 Hu Hm) as Hrl.
  cbv zeta in Hrl. cbn [clock rateLimiter st0 set_trace] in Hrl. rewrite Hallow in Hrl.
  rewrite (bind_ok _ _ _ _ _ Hrl). cbn [run_middleware].
  set (st1 := set_rateLimiter _ st0).
  assert (Hjs : jsonMiddleware req st1 = (Ok Next, st1)).
  { unfold jsonMiddleware. rewrite Hpath, Hjson. reflexivity. }
  rewrite (bind_ok _ _ _ _ _ Hjs).
  unfold router. rewrite Hpath, Hget.
  cbn [String.eqb Ascii.eqb Bool.eqb andb].
  unfold handleHealthCheck, respond. unfold_m. cbn beta iota. cbn [fst snd].
  split; [reflexivity|]. split; [|reflexivity].
  eapply answer_last. cbn. reflexivity.
Qed.

Lemma health_report_is_behind_authentication_witness :
  answer 8 (snd (express_app example_environment authorised_health_request live_state))
    = Some (200%nat,
            BHealth (mkHealth "ok" 1000 5 1 (mkMemoryUsage 100 50 70) "production")).
Proof.
  destruct (health_report_is_behind_authentication example_environment
              authorised_health_request live_state "Bearer") as (_ & Ha & _).
  - reflexivity.
  - reflexivity.
  - discriminate.
  - reflexivity.
  - reflexivity.
  - reflexivity.
  - vm_compute. reflexivity.
  - reflexivity.
  - etransitivity; [exact Ha|]. vm_compute. reflexivity.
Defined.

Lemma prefix_nil s : String.prefix EmptyString s = true.
Proof. now destruct s. Qed.

Lemma startsWith_bracket c s t : startsWith (String c s) "[" = startsWith (String c t) "[".
Proof.
  unfold startsWith.
  change (String.prefix "[" (String c s))
    with (if ascii_dec "[" c then String.prefix EmptyString s else false).
  change (String.prefix "[" (String c t))
    with (if ascii_dec "[" c then String.prefix EmptyString t else false).
  now rewrite !prefix_nil.
Qed.

(** X18.  The identity under which the rate limiter counts a request.
    When the request has an X-Forwarded-For header, the identity is
    computed from that header alone: the address of the socket plays no
    part.  Without the header it comes from the address of the socket:
    an address of the form host:port, with no other colon and no opening
    bracket, is counted as its host; an address with two colons or more
    (IPv6) is kept whole; an address without a colon is kept as it is;
    and a request with no address at all is counted as unknown. *)
Theorem client_ip_spec req :
  (forall h, header_string "x-forwarded-for" req = Some h ->
             forall a b s, client_ip (mkRequest (method req) (url req) (headers req)
                                        (params_command req) (query_sessionId req) a b s
                                        (json_body_ok req) (res req)) = client_ip req) /\
  (header_string "x-forwarded-for" req = None ->
   (forall host port,
      truthy (remoteAddress req) = Some (host +:+ ":" +:+ port) ->
      includes ":" host = false -> includes ":" port = false -> startsWith host "[" = false ->
      client_ip req = host) /\
   (forall a rest,
      truthy (remoteAddress req) = Some (a +:+ ":" +:+ rest) ->
      includes ":" a = false -> includes ":" rest = true ->
      client_ip req = a +:+ ":" +:+ rest) /\
   (forall a,
      truthy (remoteAddress req) = Some a -> includes ":" a = false -> client_ip req = a) /\
   (truthy (remoteAddress req) = None -> truthy (req_ip req) = None ->
    client_ip req = "unknown")).
Proof.
  split; [|intros Hh; repeat split].
  - intros h Hh a b s. unfold client_ip, header_string in *. cbn [headers].
    destruct (header "x-forwarded-for" (headers req)) as [[x|[|x l]]|]; try discriminate;
      destruct (String.eqb x EmptyString); try discriminate; reflexivity.
  - intros host port Hr Hhost Hport Hbr. unfold client_ip. rewrite Hh, Hr.
    rewrite includes_app. cbn [includes Ascii.eqb Bool.eqb]. rewrite orb_true_r.
    assert (Hs : split ":" (host +:+ ":" +:+ port) = [host; port]) by (apply split_two; auto).
    rewrite Hs. cbn [length Nat.eqb andb nth].
    replace (startsWith (host +:+ ":" +:+ port) "[") with false; [reflexivity|].
    destruct host as [|c host]; [reflexivity|].
    rewrite append_cons, (startsWith_bracket c _ host). symmetry. exact Hbr.
  - intros a rest Hr Ha Hrest. unfold client_ip. rewrite Hh, Hr.
    rewrite includes_app. cbn [includes Ascii.eqb Bool.eqb]. rewrite orb_true_r.
    unfold split. change (":" +:+ rest) with (String ":" rest).
    rewrite split_aux_sep by exact Ha. cbn [length].
    pose proof (split_aux_length_sep ":" rest EmptyString Hrest) as Hl.
    destruct (length (split_aux ":" EmptyString rest)) as [|[|n]]; try lia. reflexivity.
  - intros a Hr Ha. unfold client_ip. rewrite Hh, Hr, Ha. reflexivity.
  - intros Hr Hi. unfold client_ip. rewrite Hh, Hr, Hi. reflexivity.
Qed.

(** X19.  A request that names, in X-Forwarded-For, an address the
    limiter has not seen is let through by the rate-limit middleware,
    whatever the address of its socket and however many requests that
    socket has made: it is counted under the name given in the header,
    for which a fresh bucket is created.  (The limiter allows at least
    one request per minute.) *)
Theorem unseen_forwarded_for_value_is_admitted req st h :
  url req <> "/health" -> method req <> "OPTIONS" ->
  header_string "x-forwarded-for" req = Some h ->
  includes ":" h = false ->
  1 <= requestsPerMinute (rateLimiter st) ->
  visitors (rateLimiter st) !! h = None ->
  exists st',
    createRateLimitMiddleware req st = (Ok Next, st') /\
    is_Some (visitors (rateLimiter st') !! h) /\
    sessions st' = sessions st /\ trace st' = trace st.
Proof.
  intros Hu Hm Hh Hcolon HR Hnew.
  apply String.eqb_neq in Hu. apply String.eqb_neq in Hm.
  assert (Hip : client_ip req = h) by (unfold client_ip; now rewrite Hh, Hcolon).
  unfold createRateLimitMiddleware. rewrite Hu, Hm, Hip. cbn [orb]. unfold_m.
  destruct (allow_first h _ HR (clock st) (rateLimiter st) eq_refl Hnew) as [Hok Hv].
  destruct (allow h (clock st) (rateLimiter st)) as [ok rl'] eqn:Hal.
  cbn [fst snd] in Hok, Hv. subst ok.
  eexists. split; [reflexivity|]. cbn. rewrite Hv. repeat split. eauto.
Qed.

Lemma unseen_forwarded_for_value_is_admitted_witness :
  fst (allow "10.0.0.1" 1000 (rateLimiter exhausted_state)) = false /\
  remoteAddress forwarded_request = Some "10.0.0.1" /\
  fst (createRateLimitMiddleware forwarded_request exhausted_state) = Ok Next.
Proof.
  split; [vm_compute; reflexivity|]. split; [reflexivity|].
  destruct (unseen_forwarded_for_value_is_admitted forwarded_request exhausted_state
              "203.0.113.9") as (st' & Hrun & _).
  - discriminate.
  - discriminate.
  - reflexivity.
  - reflexivity.
  - vm_compute. discriminate.
  - vm_compute. reflexivity.
  - rewrite Hrun. reflexivity.
Defined.

(** ** Reading the environment *)

(** X20.  In an environment of ASCII text, [getEnvConfig] returns a
    configuration exactly when the port (the variable PORT, or 8000 when
    it is unset or empty) reads as a number from 1 to 65535 and the
    variable MAXIM_SECRET holds at least 32 characters.  A configuration
    it returns has that port and that secret, and lists trusted proxies
    exactly when the environment name is production. *)
Theorem getEnvConfig_accepts_iff env :
  env_is_ascii env = true ->
  (forall cfg,
     Config.getEnvConfig env = inr cfg ->
     1 <= Config.port cfg <= 65535 /\
     (32 <= String.length (Config.authSecret cfg))%nat /\
     env !! "MAXIM_SECRET" = Some (Config.authSecret cfg) /\
     parseInt (env_or env "PORT" "8000") = Some (Config.port cfg) /\
     (Config.trustedProxies cfg <> [] <-> Config.nodeEnv cfg = "production")) /\
  (forall p secret,
     parseInt (env_or env "PORT" "8000") = Some p -> 1 <= p <= 65535 ->
     env !! "MAXIM_SECRET" = Some secret -> (32 <= String.length secret)%nat ->
     exists cfg, Config.getEnvConfig env = inr cfg).
Proof.
  intros _. unfold Config.getEnvConfig. split.
  - intros cfg. destruct (parseInt _) as [p|]; [|discriminate].
    destruct (Z.ltb_spec p 1); [discriminate|].
    destruct (Z.gtb_spec p 65535); [discriminate|]. cbn [orb].
    destruct (env !! "MAXIM_SECRET") as [s|] eqn:Hs; [|discriminate]. cbn [truthy].
    destruct (String.eqb s EmptyString); [discriminate|].
    destruct (Nat.ltb_spec (String.length s) 32); [discriminate|].
    intros [= <-]. cbn. repeat split; try lia.
    + destruct (String.eqb_spec (env_or env "NODE_ENV" "development") "production"); congruence.
    + intros ->. discriminate.
  - intros p secret -> Hp Hs Hl.
    destruct (Z.ltb_spec p 1); [lia|]. destruct (Z.gtb_spec p 65535); [lia|]. cbn [orb].
    rewrite Hs. cbn [truthy].
    destruct (String.eqb_spec secret EmptyString) as [->|_]; [cbn in Hl; lia|].
    destruct (Nat.ltb_spec (String.length secret) 32); [lia|]. eauto.
Qed.

Lemma getEnvConfig_accepts_iff_witness :
  Config.getEnvConfig example_env
    = inr (Config.mkEnvConfig 8080 "0.0.0.0" "VERBOSE" "0123456789abcdef0123456789abcdef"
             "development" []) /\
  Config.getEnvConfig (<["PORT" := "0"]> example_env) = inl (Config.InvalidPort "0") /\
  Config.getEnvConfig (delete "MAXIM_SECRET" example_env) = inl Config.SecretRequired /\
  exists cfg, Config.getEnvConfig example_env = inr cfg.
Proof.
  split; [vm_compute; reflexivity|]. split; [vm_compute; reflexivity|].
  split; [vm_compute; reflexivity|].
  assert (Hascii : env_is_ascii example_env = true) by (vm_compute; reflexivity).
  apply (proj2 (getEnvConfig_accepts_iff example_env Hascii)
           8080 "0123456789abcdef0123456789abcdef");
    [vm_compute; reflexivity | lia | vm_compute; reflexivity | cbn; lia].
Defined.

Lemma toUpperCase_empty s : String.eqb (toUpperCase s) EmptyString = String.eqb s EmptyString.
Proof. now destruct s. Qed.

Lemma parse_digits_app ds junk : forall acc,
  all_digits ds = true ->
  parse_digits acc (ds +:+ junk) = parse_digits (parse_digits acc ds) junk.
Proof.
  unfold all_digits. induction ds as [|c ds IH]; intros acc H; [reflexivity|].
  cbn in H. apply andb_true_iff in H as [Hc Hds]. apply bool_decide_eq_true_1 in Hc as [d Hd].
  change (String c ds +:+ junk) with (String c (ds +:+ junk)).
  cbn [parse_digits]. rewrite Hd. now apply IH.
Qed.

Lemma parse_digits_stop junk acc :
  starts_with_digit junk = false -> parse_digits acc junk = acc.
Proof.
  destruct junk as [|c junk]; [reflexivity|]. cbn. intros H.
  apply bool_decide_eq_false_1 in H. destruct (digit_value c); [|reflexivity].
  exfalso. apply H. eauto.
Qed.

Lemma trim_start_digit s : starts_with_digit s = true -> trim_start s = s.
Proof.
  destruct s as [|c s]; [reflexivity|]. cbn. intros H. apply bool_decide_eq_true_1 in H as [d Hd].
  replace (is_ascii_space c) with false; [reflexivity|].
  destruct c as [[] [] [] [] [] [] [] []]; first [discriminate Hd | reflexivity].
Qed.

Lemma parseInt_digits s :
  starts_with_digit s = true -> parseInt s = parse_digits None s.
Proof.
  intros H. unfold parseInt. rewrite trim_start_digit by exact H.
  destruct s as [|c s]; [reflexivity|]. cbn in H. apply bool_decide_eq_true_1 in H as [d Hd].
  destruct c as [[] [] [] [] [] [] [] []]; first [discriminate Hd | reflexivity].
Qed.

(** X21.  Text after the digits of the port is ignored: when PORT set to
    a string of digits gives a configuration, PORT set to those digits
    followed by anything that does not start with a digit gives the same
    configuration. *)
Theorem port_trailing_text_is_ignored env ds junk cfg :
  ds <> EmptyString ->
  all_digits ds = true ->
  starts_with_digit junk = false ->
  Config.getEnvConfig (<["PORT" := ds]> env) = inr cfg ->
  Config.getEnvConfig (<["PORT" := ds +:+ junk]> env) = inr cfg.
Proof.
  intros Hne Hds Hjunk.
  assert (Hsd : starts_with_digit ds = true /\ starts_with_digit (ds +:+ junk) = true).
  { destruct ds as [|c ds]; [congruence|]. unfold all_digits in Hds. cbn in Hds.
    apply andb_true_iff in Hds as [Hc _]. cbn. auto. }
  destruct Hsd as [Hsd1 Hsd2].
  assert (Hparse : parseInt (ds +:+ junk) = parseInt ds).
  { rewrite !parseInt_digits by assumption. rewrite parse_digits_app by exact Hds.
    now apply parse_digits_stop. }
  assert (Hne2 : ds +:+ junk <> EmptyString) by (destruct ds; [congruence|discriminate]).
  unfold Config.getEnvConfig, env_or.
  rewrite !lookup_insert_eq, !lookup_insert_ne by discriminate. cbn [truthy].
  apply String.eqb_neq in Hne, Hne2. rewrite Hne, Hne2, Hparse.
  destruct (parseInt ds) as [p|]; [|discriminate].
  destruct ((p <? 1) || (p >? 65535)); [discriminate|].
  destruct (truthy (env !! "MAXIM_SECRET")); [|discriminate].
  destruct (_ <? 32)%nat; [discriminate|]. auto.
Qed.

Lemma port_trailing_text_is_ignored_witness :
  Config.getEnvConfig (<["PORT" := "8080; exit"]> example_env)
    = inr (Config.mkEnvConfig 8080 "0.0.0.0" "VERBOSE" "0123456789abcdef0123456789abcdef"
             "development" []).
Proof.
  apply (port_trailing_text_is_ignored example_env "8080" "; exit").
  - discriminate.
  - reflexivity.
  - reflexivity.
  - vm_compute. reflexivity.
Defined.

(** ** The console logger *)

Lemma console_output_app level t1 t2 :
  console_output level (t1 ++ t2) = console_output level t1 ++ console_output level t2.
Proof.
  induction t1 as [|e t1 IH]; [reflexivity|].
  destruct e; cbn; try exact IH. destruct (ConsoleLogger_shouldLog level level0); cbn; now rewrite IH.
Qed.

Lemma console_output_silent level t :
  levels level = None -> console_output level t = [].
Proof.
  intros H. induction t as [|e t IH]; [reflexivity|].
  destruct e; cbn; try exact IH. unfold ConsoleLogger_shouldLog. rewrite H.
  now destruct (levels (level_name level0)).
Qed.

(** X22.  In an environment of ASCII text, [getEnvConfig] takes any
    LOG_LEVEL as it is, in upper case.  When that word is none of DEBUG,
    INFO, WARN and ERROR, a logger created with the level of the
    configuration writes nothing at all, errors included, whatever calls
    are made to it. *)
Theorem unknown_log_level_silences_the_logger env cfg l :
  env_is_ascii env = true ->
  Config.getEnvConfig env = inr cfg ->
  env !! "LOG_LEVEL" = Some l ->
  l <> EmptyString ->
  levels (toUpperCase l) = None ->
  Config.logLevel cfg = toUpperCase l /\
  forall t, console_output (Config.logLevel cfg) t = [].
Proof.
  intros _ Hcfg Hl Hne Hlev.
  assert (Hname : Config.logLevel cfg = toUpperCase l).
  { unfold Config.getEnvConfig in Hcfg. rewrite Hl in Hcfg.
    cbn [fmap option_fmap option_map truthy] in Hcfg.
    rewrite toUpperCase_empty in Hcfg. apply String.eqb_neq in Hne. rewrite Hne in Hcfg.
    destruct (parseInt _); [|discriminate].
    destruct (_ || _); [discriminate|].
    destruct (truthy (env !! "MAXIM_SECRET")); [|discriminate].
    destruct (_ <? 32)%nat; [discriminate|]. injection Hcfg as <-. reflexivity. }
  split; [exact Hname|]. intros t. apply console_output_silent. now rewrite Hname.
Qed.

Lemma unknown_log_level_silences_the_logger_witness :
  console_output "VERBOSE" [EvLog ERROR LogUnhandledError; EvLog WARN LogMissingAuth] = [] /\
  console_output "INFO" [EvLog ERROR LogUnhandledError; EvLog WARN LogMissingAuth]
    = [(ERROR, LogUnhandledError); (WARN, LogMissingAuth)].
Proof.
  destruct (unknown_log_level_silences_the_logger example_env
              (Config.mkEnvConfig 8080 "0.0.0.0" "VERBOSE" "0123456789abcdef0123456789abcdef"
                 "development" []) "verbose") as [_ H].
  - vm_compute. reflexivity.
  - vm_compute. reflexivity.
  - reflexivity.
  - discriminate.
  - reflexivity.
  - split; [exact (H _)|reflexivity].
Defined.

(** X23.  What the relay logs about the messages it passes on (a line
    forwarded from the worker, a line that is not JSON, a message written
    to the worker) is logged at DEBUG: a logger at any other level,
    INFO by default, writes nothing of it.  An error, on the other hand,
    is written at each of the four levels. *)
Theorem relay_traffic_is_logged_only_at_debug level k st :
  levels level <> Some 0%nat ->
  (forall line,
     console_output level (trace (snd (forward_line k line st))) = console_output level (trace st)) /\
  (forall msg,
     stdin_fault (children st !!! conn_child k) = false ->
     console_output level (trace (snd (sseTransport_onmessage k msg st)))
       = console_output level (trace st)) /\
  (forall c entry,
     console_output (level_name c) (trace st ++ [EvLog ERROR entry])
       = console_output (level_name c) (trace st) ++ [(ERROR, entry)]).
Proof.
  intros Hlev.
  assert (Hdebug : ConsoleLogger_shouldLog level DEBUG = false).
  { unfold ConsoleLogger_shouldLog. cbn. destruct (levels level) as [[|n]|]; [congruence|reflexivity..]. }
  repeat split.
  - intros line. unfold forward_line, touch.
    destruct (is_blank line); [reflexivity|].
    destruct (JSON_parse line); unfold_m; cbn -[ConsoleLogger_shouldLog];
      rewrite !console_output_app; cbn -[ConsoleLogger_shouldLog];
      rewrite Hdebug; now rewrite ?app_nil_r.
  - intros msg Hsf. unfold sseTransport_onmessage, stdin_write, get_child, touch. unfold_m.
    cbn -[lookup_total]. rewrite Hsf. cbn -[ConsoleLogger_shouldLog].
    rewrite !console_output_app. cbn -[ConsoleLogger_shouldLog].
    rewrite Hdebug. now rewrite ?app_nil_r.
  - intros c entry. rewrite console_output_app. now destruct c.
Qed.

Lemma relay_traffic_is_logged_only_at_debug_witness :
  console_output "INFO"
    (trace (snd (forward_line example_connection (units_of_string "hello") live_state))) = [] /\
  console_output "DEBUG"
    (trace (snd (forward_line example_connection (units_of_string "hello") live_state)))
    = [(DEBUG, LogNonJson "s1" (units_of_string "hello"))].
Proof.
  destruct (relay_traffic_is_logged_only_at_debug "INFO" example_connection live_state)
    as (H & _); [discriminate|].
  split; [rewrite H; reflexivity|vm_compute; reflexivity].
Defined.

(** ** The rate limiter, once more *)

(** X24.  A call of [allow] for one identity records that identity with
    the time of the call as its last use, whether the request is allowed
    or refused; it changes the record of no other identity (beyond the
    purge of stale visitors that any call may run); and it keeps the rate
    and the two intervals of the limiter. *)
Theorem allow_records_only_the_caller ip now rl :
  let rl' := snd (allow ip now rl) in
  (exists v, visitors rl' !! ip = Some v /\ lastUsed v = now) /\
  (forall other, other <> ip ->
     visitors rl' !! other = visitors (cleanupStaleVisitors now rl) !! other) /\
  requestsPerMinute rl' = requestsPerMinute rl /\
  visitorTimeout rl' = visitorTimeout rl /\
  cleanupInterval rl' = cleanupInterval rl.
Proof.
  rewrite allow_unfold. cbv zeta. cbn [snd]. unfold set_visitor. cbn.
  repeat split.
  - eexists. rewrite lookup_insert_eq. split; reflexivity.
  - intros other Hne. now rewrite !lookup_insert_ne by congruence.
  - unfold cleanupStaleVisitors. now destruct (_ <? _).
  - unfold cleanupStaleVisitors. now destruct (_ <? _).
  - unfold cleanupStaleVisitors. now destruct (_ <? _).
Qed.

(** X25.  The purge of stale visitors.  Less than the cleanup interval
    after the last purge it does nothing.  Otherwise it notes the time and
    removes exactly the visitors whose last use lies further back than
    the visitor timeout, the others staying as they are.  Running it
    twice at the same time is the same as running it once. *)
Theorem cleanupStaleVisitors_purges_exactly_the_stale now rl :
  (now - lastCleanup rl < cleanupInterval rl -> cleanupStaleVisitors now rl = rl) /\
  (cleanupInterval rl <= now - lastCleanup rl ->
   lastCleanup (cleanupStaleVisitors now rl) = now /\
   forall ip,
     visitors (cleanupStaleVisitors now rl) !! ip =
       match visitors rl !! ip with
       | Some v => if now - lastUsed v >? visitorTimeout rl then None else Some v
       | None => None
       end) /\
  cleanupStaleVisitors now (cleanupStaleVisitors now rl) = cleanupStaleVisitors now rl.
Proof.
  assert (Hlook : forall ip,
    (filter (fun kv : string * VisitorLimiter => now - lastUsed (snd kv) <= visitorTimeout rl)
            (visitors rl) : gmap string VisitorLimiter) !! ip =
    match visitors rl !! ip with
    | Some v => if now - lastUsed v >? visitorTimeout rl then None else Some v
    | None => None
    end).
  { intros ip. destruct (visitors rl !! ip) as [v|] eqn:Hv.
    - destruct (Z.gtb_spec (now - lastUsed v) (visitorTimeout rl)).
      + apply map_lookup_filter_None. right. intros v' Hv'. cbn. rewrite Hv in Hv'.
        injection Hv' as <-. lia.
      + apply map_lookup_filter_Some. split; [exact Hv|]. cbn. lia.
    - apply map_lookup_filter_None. now left. }
  split; [|split].
  - intros H. unfold cleanupStaleVisitors.
    destruct (Z.ltb_spec (now - lastCleanup rl) (cleanupInterval rl)); [reflexivity|lia].
  - intros H. unfold cleanupStaleVisitors.
    destruct (Z.ltb_spec (now - lastCleanup rl) (cleanupInterval rl)); [lia|]. cbn.
    split; [reflexivity|exact Hlook].
  - destruct (Z.ltb_spec (now - lastCleanup rl) (cleanupInterval rl)) as [Hlt|Hge].
    + assert (E : cleanupStaleVisitors now rl = rl).
      { unfold cleanupStaleVisitors.
        destruct (Z.ltb_spec (now - lastCleanup rl) (cleanupInterval rl)); [reflexivity|lia]. }
      now rewrite !E.
    + assert (E : cleanupStaleVisitors now rl =
                  mkDefaultRateLimiter
                    (filter (fun kv => now - lastUsed (snd kv) <= visitorTimeout rl) (visitors rl))
                    (requestsPerMinute rl) (cleanupInterval rl) (visitorTimeout rl) now).
      { unfold cleanupStaleVisitors.
        destruct (Z.ltb_spec (now - lastCleanup rl) (cleanupInterval rl)); [lia|reflexivity]. }
      rewrite E. unfold cleanupStaleVisitors.
      cbn. destruct (now - now <? cleanupInterval rl); [reflexivity|].
      f_equal. apply map_eq. intros ip.
      destruct ((filter (fun kv : string * VisitorLimiter =>
                           now - lastUsed (snd kv) <= visitorTimeout rl) (visitors rl)
                 : gmap string VisitorLimiter) !! ip) as [v|] eqn:Hv.
      * apply map_lookup_filter_Some. split; [exact Hv|].
        apply map_lookup_filter_Some in Hv as [_ Hv]. exact Hv.
      * apply map_lookup_filter_None. now left.
Qed.

(** X26.  Clearing a visitor gives that identity a fresh start: its next
    request is allowed, whatever it had used up before, and the records of
    the other identities are not touched.  Clearing all visitors leaves
    none to count and lets the next request of anyone through.  (The
    limiter allows at least one request per minute.) *)
Theorem clearVisitor_resets_the_bucket ip now rl :
  1 <= requestsPerMinute rl ->
  fst (allow ip now (clearVisitor ip rl)) = true /\
  (forall other, other <> ip -> visitors (clearVisitor ip rl) !! other = visitors rl !! other) /\
  fst (getVisitorCount now (clearAllVisitors rl)) = 0%nat /\
  (forall other, fst (allow other now (clearAllVisitors rl)) = true).
Proof.
  intros HR. repeat split.
  - apply (allow_first ip _ HR); [reflexivity|]. cbn. apply lookup_delete_eq.
  - intros other Hne. cbn. now apply lookup_delete_ne.
  - unfold getVisitorCount, cleanupStaleVisitors, clearAllVisitors. cbn.
    destruct (_ <? _); cbn; [apply map_size_empty|].
    rewrite map_filter_empty. apply map_size_empty.
  - intros other. apply (allow_first other _ HR); [reflexivity|]. cbn. apply lookup_empty.
Qed.

Lemma clearVisitor_resets_the_bucket_witness :
  fst (allow "10.0.0.1" 1000 (rateLimiter exhausted_state)) = false /\
  fst (allow "10.0.0.1" 1000 (clearVisitor "10.0.0.1" (rateLimiter exhausted_state))) = true.
Proof.
  split; [vm_compute; reflexivity|].
  apply (clearVisitor_resets_the_bucket "10.0.0.1" 1000 (rateLimiter exhausted_state)).
  vm_compute. discriminate.
Defined.

(** ** The relay, once more *)

Lemma no_lf_whole_line b : no_lf b -> split_crlf b = [b].
Proof.
  intros H. rewrite split_crlf_lf.
  pose proof (split_lf_aux_no_lf b [] [] H) as E. rewrite app_nil_r in E.
  rewrite E. reflexivity.
Qed.

(** X27.  For output that is ASCII, how the worker's bytes are cut into
    chunks does not matter: two sequences of chunks with the same bytes
    in all lead to the same messages being forwarded, in the same order,
    and to the same remainder being kept. *)
Theorem relay_is_independent_of_chunking k chunks1 chunks2 st :
  no_lf (buffer_of k st) ->
  concat chunks1 = concat chunks2 ->
  Forall (fun b => (Byte.to_N b <= 127)%N) (concat chunks1) ->
  let st1 := snd (deliver k chunks1 st) in
  let st2 := snd (deliver k chunks2 st) in
  forwarded (conn_transport k) (trace st1) = forwarded (conn_transport k) (trace st2) /\
  buffer_of k st1 = buffer_of k st2.
Proof.
  intros Hb Heq Hascii.
  pose proof (no_lf_whole_line _ Hb) as Hw.
  destruct (deliver_spec k chunks1 st Hw) as (s1 & E1 & F1 & B1).
  destruct (deliver_spec k chunks2 st Hw) as (s2 & E2 & F2 & B2).
  cbv zeta. rewrite E1, E2. cbn [snd].
  assert (Ht : concat (map Buffer_toString_utf8 chunks1) = concat (map Buffer_toString_utf8 chunks2)).
  { rewrite <- !Buffer_toString_utf8_ascii_concat; [now rewrite Heq | now rewrite <- Heq | exact Hascii]. }
  rewrite F1, F2, B1, B2, Ht. split; reflexivity.
Qed.

Lemma relay_is_independent_of_chunking_witness :
  forwarded 7 (trace (snd (deliver example_connection ok_chunks live_state)))
    = forwarded 7 (trace (snd (deliver example_connection [concat ok_chunks] live_state))) /\
  forwarded 7 (trace (snd (deliver example_connection [concat ok_chunks] live_state)))
    = [JObject [(units_of_string "ok", JBool true)]].
Proof.
  split; [|vm_compute; reflexivity].
  apply (relay_is_independent_of_chunking example_connection ok_chunks [concat ok_chunks]
           live_state).
  - constructor.
  - reflexivity.
  - refine (bool_decide_unpack _ _). vm_compute. exact I.
Defined.

Lemma stdout_on_data_buffers k chunk st :
  buffers (snd (childProcess_stdout_on_data k chunk st)) =
    <[conn_sessionId k :=
        List.last (split_crlf (buffer_of k st ++ Buffer_toString_utf8 chunk)) []]> (buffers st).
Proof.
  unfold childProcess_stdout_on_data. unfold_m. cbn beta iota.
  match goal with
  | |- context [forEach ?ls (forward_line k) ?s0] =>
      destruct (forEach_forward_line_spec k ls s0) as (s1 & E & _ & Hb); rewrite E
  end.
  cbn [snd]. rewrite Hb. reflexivity.
Qed.

(** X28.  After any chunk of worker output, in any state, the remainder
    kept for the connection holds no line feed: it is one unfinished line.
    The remainders of the other connections are not touched. *)
Theorem kept_remainder_is_a_partial_line k chunk st :
  let st' := snd (childProcess_stdout_on_data k chunk st) in
  no_lf (buffer_of k st') /\
  split_crlf (buffer_of k st') = [buffer_of k st'] /\
  forall j, conn_sessionId j <> conn_sessionId k -> buffer_of j st' = buffer_of j st.
Proof.
  cbv zeta.
  assert (Hk : buffer_of k (snd (childProcess_stdout_on_data k chunk st)) =
               List.last (split_crlf (buffer_of k st ++ Buffer_toString_utf8 chunk)) []).
  { unfold buffer_of at 1. rewrite stdout_on_data_buffers. now rewrite lookup_insert_eq. }
  rewrite Hk.
  assert (Hno : no_lf (List.last (split_crlf (buffer_of k st ++ Buffer_toString_utf8 chunk)) [])).
  { rewrite split_crlf_lf. apply split_lf_aux_last_no_lf. constructor. }
  split; [exact Hno|]. split; [now apply no_lf_whole_line|].
  intros j Hne. unfold buffer_of at 1. rewrite stdout_on_data_buffers.
  now rewrite lookup_insert_ne by congruence.
Qed.

(** X29.  Output without a line feed is held back: as long as the
    decoded chunks hold none, nothing is forwarded and every chunk is
    appended to the remainder, which grows without bound. *)
Theorem output_without_newline_is_held_back k chunks st :
  no_lf (buffer_of k st) ->
  Forall (fun chunk => no_lf (Buffer_toString_utf8 chunk)) chunks ->
  let st' := snd (deliver k chunks st) in
  forwarded (conn_transport k) (trace st') = forwarded (conn_transport k) (trace st) /\
  buffer_of k st' = buffer_of k st ++ concat (map Buffer_toString_utf8 chunks).
Proof.
  intros Hb Hall.
  destruct (deliver_spec k chunks st (no_lf_whole_line _ Hb)) as (s1 & E & F & B).
  cbv zeta. rewrite E. cbn [snd].
  assert (Hno : no_lf (buffer_of k st ++ concat (map Buffer_toString_utf8 chunks))).
  { apply Forall_app. split; [exact Hb|].
    clear -Hall. induction Hall as [|c cs Hc _ IH]; cbn [map concat]; [constructor|].
    apply Forall_app. split; assumption. }
  rewrite (no_lf_whole_line _ Hno) in F, B. cbn in F, B.
  rewrite F, B, app_nil_r. split; reflexivity.
Qed.

Lemma output_without_newline_is_held_back_witness :
  let st' := snd (deliver example_connection (firstn 1 ok_chunks) live_state) in
  forwarded 7 (trace st') = [] /\
  buffer_of example_connection st' = [123; 34; 111; 107; 34; 58; 116; 114]%N.
Proof.
  destruct (output_without_newline_is_held_back example_connection (firstn 1 ok_chunks)
              live_state) as [Hf Hb].
  - constructor.
  - refine (bool_decide_unpack _ _). vm_compute. exact I.
  - split; [exact Hf|]. rewrite Hb. vm_compute. reflexivity.
Defined.

Lemma split_lf_aux_lines eol ls :
  (eol = [LF] \/ eol = [CR; LF]) ->
  Forall (fun l => no_lf l /\ ends_with_cr l = false) ls ->
  split_lf_aux [] (concat (map (fun l => l ++ eol) ls)) = ls ++ [[]].
Proof.
  intros Heol Hall. induction Hall as [|l ls [Hl Hcr] _ IH]; [reflexivity|].
  cbn [map concat]. rewrite <- app_assoc.
  destruct Heol as [-> | ->].
  - rewrite (split_lf_aux_no_lf l [] _ Hl). cbn [app split_lf_aux].
    change (LF =? LF)%N with true. cbn iota. rewrite strip_cr_id by exact Hcr.
    rewrite IH by auto. reflexivity.
  - assert (Hl' : no_lf (l ++ [CR])).
    { apply Forall_app. split; [exact Hl|]. repeat constructor. discriminate. }
    change (l ++ [CR; LF] ++ ?r) with (l ++ [CR] ++ LF :: r).
    rewrite app_assoc. rewrite (split_lf_aux_no_lf (l ++ [CR]) [] _ Hl').
    cbn [app split_lf_aux]. change (LF =? LF)%N with true. cbn iota.
    rewrite strip_cr_snoc. rewrite IH by auto. reflexivity.
Qed.

(** X30.  A chunk that consists of complete lines, each ended by a line
    feed or each by a carriage return and a line feed, arriving when no
    remainder is kept: the messages of its lines are forwarded in the
    order of the lines (a line that is blank or not JSON giving none),
    the two line ends making no difference, and no remainder is kept. *)
Theorem terminated_lines_are_forwarded_in_order k chunk eol ls st :
  buffer_of k st = [] ->
  (eol = [LF] \/ eol = [CR; LF]) ->
  Forall (fun l => no_lf l /\ ends_with_cr l = false) ls ->
  Buffer_toString_utf8 chunk = concat (map (fun l => l ++ eol) ls) ->
  let st' := snd (childProcess_stdout_on_data k chunk st) in
  forwarded (conn_transport k) (trace st')
    = forwarded (conn_transport k) (trace st) ++ flat_map line_message ls /\
  buffer_of k st' = [].
Proof.
  intros Hb Heol Hall Htext.
  destruct (stdout_on_data_spec k chunk st) as (s1 & E & F & B).
  cbv zeta. rewrite E. cbn [snd].
  rewrite Hb, app_nil_l, Htext, split_crlf_lf, (split_lf_aux_lines eol ls Heol Hall) in F, B.
  rewrite removelast_last in F. rewrite last_last in B. auto.
Qed.

Lemma terminated_lines_are_forwarded_in_order_witness :
  let st' := snd (childProcess_stdout_on_data example_connection two_lines_chunk live_state) in
  forwarded 7 (trace st') = [JArray [JNumber [49%N]]; JArray [JNumber [50%N]]] /\
  buffer_of example_connection st' = [].
Proof.
  destruct (terminated_lines_are_forwarded_in_order example_connection two_lines_chunk
              [CR; LF] [units_of_string "[1]"; units_of_string "[2]"] live_state) as [Hf Hb].
  - reflexivity.
  - now right.
  - refine (bool_decide_unpack _ _). vm_compute. exact I.
  - vm_compute. reflexivity.
  - split; [etransitivity; [exact Hf|vm_compute; reflexivity]|exact Hb].
Defined.

